(** * gemini-eda-cli: metrics extraction, QoR verification and the EDA commands

    A shallow embedding of [packages/eda-cli/src/parser.ts], [types.ts],
    [validation.ts], [commands.ts] and [eda-cli.ts].

    - JavaScript strings are sequences of UTF-16 code units ([list N]).
    - JavaScript numbers are IEEE 754 binary64 values: the kernel's
      primitive [float], whose operations round to nearest-even exactly as
      the ECMAScript Number type does.
    - Regular expressions are a small syntax tree run by a backtracking
      matcher that tries alternatives in the order RegExp.prototype.exec
      does.
    - The commands are functions in a state-and-exception monad over the
      file system, the clock and the traces of what was spawned and shown;
      everything the operating system decides (does the tool exist, what
      does it print, may this file be written) is read from an [Env], and
      the built-ins of the language that are not defined here
      ([JSON.parse], [JSON.stringify], dates as text) from a [Runtime]. *)

From Stdlib Require Import ZArith NArith List Bool Lia.
From Stdlib Require Import Floats.PrimFloat Floats.SpecFloat Floats.FloatOps.
From Stdlib Require Floats.FloatAxioms.
From Stdlib Require DecimalString.
From stdpp Require Import gmap list strings.


(* ===================================================================== *)
(** * JavaScript strings *)
(* ===================================================================== *)

(** A string value is its sequence of UTF-16 code units. *)
Abbreviation jsstring := (list N) (only parsing).

(** An ASCII literal of the source, as code units. *)
Definition lit (s : string) : jsstring :=
  map Ascii.N_of_ascii (String.list_ascii_of_string s).

Definition LF : N := 10.

Fixpoint take_while {A} (p : A -> bool) (l : list A) : list A :=
  match l with
  | x :: t => if p x then x :: take_while p t else []
  | [] => []
  end.

Fixpoint drop_while {A} (p : A -> bool) (l : list A) : list A :=
  match l with
  | x :: t => if p x then drop_while p t else l
  | [] => []
  end.

(** [\d] *)
Definition is_digit (c : N) : bool := ((48 <=? c) && (c <=? 57))%N.

(** LineTerminator: LF, CR, LS, PS. *)
Definition is_line_terminator (c : N) : bool :=
  ((c =? 10) || (c =? 13) || (c =? 8232) || (c =? 8233))%N.

(** [\s], which is also StrWhiteSpaceChar: WhiteSpace (TAB, VT, FF, SP, NBSP,
    ZWNBSP and the Unicode space separators) and LineTerminator. *)
Definition is_space (c : N) : bool :=
  ((c =? 9) || (c =? 11) || (c =? 12) || (c =? 32) || (c =? 160)
   || (c =? 5760) || ((8192 <=? c) && (c <=? 8202)) || (c =? 8239)
   || (c =? 8287) || (c =? 12288) || (c =? 65279)
   || is_line_terminator c)%N.

(** Canonicalize of a RegExp with the [i] flag and without [u]: the upper
    case of the code unit, except that a code unit of 128 or more never
    maps below 128.  The patterns of this program hold ASCII characters
    and U+00B2 only; U+00B2 has no case variant and no other code unit has
    it as upper case, so on those patterns the ASCII mapping below decides
    the same matches as the full Unicode table. *)
Definition canonicalize (c : N) : N :=
  if ((97 <=? c) && (c <=? 122))%N then (c - 32)%N else c.

(** String.prototype.startsWith *)
Fixpoint startsWith (s p : jsstring) : bool :=
  match p, s with
  | [], _ => true
  | c :: p', x :: s' => (x =? c)%N && startsWith s' p'
  | _ :: _, [] => false
  end.

(** Array.prototype.join *)
Fixpoint join (sep : jsstring) (l : list jsstring) : jsstring :=
  match l with
  | [] => []
  | [x] => x
  | x :: t => x ++ sep ++ join sep t
  end.

(* ===================================================================== *)
(** * JavaScript numbers *)
(* ===================================================================== *)

Abbreviation number := float (only parsing).

(** The Number value of a mathematical integer: the nearest binary64,
    ties to even, infinite from 2^1024 on. *)
Definition Z2float (z : Z) : number :=
  SF2Prim (binary_normalize prec emax z 0 false).

(** The Number value of the non-negative rational [n / d]: the quotient
    is taken to at least 64 bits and its last bit made odd when the
    division is inexact, so the one rounding to 53 bits that follows is
    the correct one. *)
Definition ratio2float (n d : Z) : number :=
  if (n =? 0)%Z then 0%float
  else
    let k := Z.max 0 (64 + Z.log2 d - Z.log2 n) in
    let num := (n * 2 ^ k)%Z in
    let q := (num / d)%Z in
    let q' := if (num mod d =? 0)%Z then q else Z.lor q 1 in
    SF2Prim (binary_normalize prec emax q' (- k) false).

(** The Number value of [m * 10 ^ e]. *)
Definition decimal2float (m e : Z) : number :=
  if (0 <=? e)%Z then Z2float (m * 10 ^ e) else ratio2float m (10 ^ (- e)).

(** ToBoolean on a Number: false for +0, -0 and NaN. *)
Definition truthy (x : number) : bool :=
  negb (PrimFloat.eqb x 0 || is_nan x).

Fixpoint digits_value_from (acc : Z) (ds : jsstring) : Z :=
  match ds with
  | [] => acc
  | d :: t => digits_value_from (10 * acc + (Z.of_N d - 48)) t
  end.

(** The mathematical value of a string of decimal digits. *)
Definition digits_value (ds : jsstring) : Z := digits_value_from 0 ds.

(** An optional sign, [-] (45) or [+] (43). *)
Definition strip_sign (s : jsstring) : bool * jsstring :=
  match s with
  | c :: t =>
      if (c =? 45)%N then (true, t)
      else if (c =? 43)%N then (false, t)
      else (false, s)
  | [] => (false, [])
  end.

Definition signed (neg : bool) (x : number) : number :=
  if neg then PrimFloat.opp x else x.

(** [parseInt(s, 10)]: leading white space is skipped, a sign is read, and
    the longest run of decimal digits that follows is the value; NaN when
    there is no digit. *)
Definition parseInt10 (s : jsstring) : number :=
  let '(neg, s2) := strip_sign (drop_while is_space s) in
  match take_while is_digit s2 with
  | [] => nan
  | ds => signed neg (Z2float (digits_value ds))
  end.

(** The exponent part of a StrDecimalLiteral, when one is there:
    [e] or [E], a sign, and at least one digit. *)
Definition exponent_part (s : jsstring) : Z :=
  match s with
  | c :: t =>
      if ((c =? 101) || (c =? 69))%N then
        let '(neg, t') := strip_sign t in
        match take_while is_digit t' with
        | [] => 0%Z
        | ds => if neg then (- digits_value ds)%Z else digits_value ds
        end
      else 0%Z
  | [] => 0%Z
  end.

(** [parseFloat(s)]: the longest prefix of the trimmed string that is a
    StrDecimalLiteral. *)
Definition parseFloat (s : jsstring) : number :=
  let '(neg, s2) := strip_sign (drop_while is_space s) in
  if startsWith s2 (lit "Infinity") then signed neg infinity
  else
    let ip := take_while is_digit s2 in
    let r := drop_while is_digit s2 in
    let '(fp, r') :=
      match r with
      | 46%N :: t => (take_while is_digit t, drop_while is_digit t)
      | _ => ([], r)
      end in
    match ip ++ fp with
    | [] => nan
    | ds =>
        signed neg
          (decimal2float (digits_value ds)
             (exponent_part r' - Z.of_nat (length fp)))
    end.

(* ===================================================================== *)
(** * Regular expressions *)
(* ===================================================================== *)

(** The atoms the program's patterns use. *)
Inductive cclass : Type :=
  | CLit (c : N)    (** a pattern character *)
  | CDigit          (** [\d] *)
  | CSpace          (** [\s] *)
  | CNonSpace       (** [\S] *)
  | CAny.           (** [.] without the [s] flag: any but a line terminator *)

(** The fragment of the pattern language the program uses.  A quantifier
    is applied to single-character atoms only, except [?] on a group. *)
Inductive regex : Type :=
  | REmpty
  | RChar (c : cclass)
  | RSeq (r1 r2 : regex)
  | RStar (greedy : bool) (c : cclass)   (** [c*] and [c*?] *)
  | ROpt (r : regex)                     (** [(?:r)?] *)
  | RGroup (r : regex).                  (** [(r)], capture group 1 *)

Fixpoint RLit (l : jsstring) : regex :=
  match l with
  | [] => REmpty
  | c :: t => RSeq (RChar (CLit c)) (RLit t)
  end.

(** [c+] *)
Definition RPlus (c : cclass) : regex := RSeq (RChar c) (RStar true c).

Definition in_class (icase : bool) (c : cclass) (x : N) : bool :=
  match c with
  | CLit p => if icase then (canonicalize x =? canonicalize p)%N else (x =? p)%N
  | CDigit => is_digit x
  | CSpace => is_space x
  | CNonSpace => negb (is_space x)
  | CAny => negb (is_line_terminator x)
  end.

Section Matcher.
(** The [i] flag of the pattern. *)
Variable icase : bool.
Context {R : Type}.

(** A continuation receives the rest of the input and capture 1. *)
Definition cont : Type := jsstring -> option jsstring -> option R.

(** Greedy star: the longest run first, then one character less. *)
Fixpoint star_greedy (c : cclass) (k : cont) (s : jsstring)
    (cap : option jsstring) : option R :=
  match s with
  | x :: t =>
      if in_class icase c x then
        match star_greedy c k t cap with
        | Some r => Some r
        | None => k s cap
        end
      else k s cap
  | [] => k [] cap
  end.

(** Lazy star: no character first, then one more. *)
Fixpoint star_lazy (c : cclass) (k : cont) (s : jsstring)
    (cap : option jsstring) : option R :=
  match k s cap with
  | Some r => Some r
  | None =>
      match s with
      | x :: t => if in_class icase c x then star_lazy c k t cap else None
      | [] => None
      end
  end.

(** The backtracking matcher: [rmatch r k s cap] matches [r] at the
    head of [s] and hands the rest to [k]; when [k] fails the next
    alternative of [r] is tried. *)
Fixpoint rmatch (r : regex) (k : cont) (s : jsstring)
    (cap : option jsstring) : option R :=
  match r with
  | REmpty => k s cap
  | RChar c =>
      match s with
      | x :: t => if in_class icase c x then k t cap else None
      | [] => None
      end
  | RSeq r1 r2 => rmatch r1 (rmatch r2 k) s cap
  | RStar true c => star_greedy c k s cap
  | RStar false c => star_lazy c k s cap
  | ROpt r' =>
      match rmatch r' k s cap with
      | Some x => Some x
      | None => k s cap
      end
  | RGroup r' =>
      rmatch r' (fun s' _ => k s' (Some (take (length s - length s') s))) s cap
  end.
End Matcher.

(** A successful match: capture 1 and the input after the match. *)
Definition accept : @cont (option jsstring * jsstring) :=
  fun s' cap => Some (cap, s').

(** The match of the pattern that starts at the head of [s]. *)
Definition match_here (icase : bool) (r : regex) (s : jsstring)
    : option (option jsstring * jsstring) :=
  rmatch icase r accept s None.

(** RegExp.prototype.exec from index 0 (String.prototype.match with a
    pattern that has no [g] flag): the match at the leftmost position
    that has one. *)
Fixpoint regex_exec (icase : bool) (r : regex) (s : jsstring)
    : option (option jsstring * jsstring) :=
  match match_here icase r s with
  | Some m => Some m
  | None =>
      match s with
      | [] => None
      | _ :: t => regex_exec icase r t
      end
  end.

(** String.prototype.matchAll with a [g] pattern: capture 1 of every
    match, left to right.  After a match of [n] characters the search
    resumes [n] characters further, one further when [n] is 0; [skip] is
    the number of positions still to pass over. *)
Fixpoint matchAll_scan (icase : bool) (r : regex) (s : jsstring) (skip : nat)
    : list (option jsstring) :=
  match s with
  | [] =>
      match skip, match_here icase r [] with
      | O, Some (cap, _) => [cap]
      | _, _ => []
      end
  | _ :: t =>
      match skip with
      | S n => matchAll_scan icase r t n
      | O =>
          match match_here icase r s with
          | Some (cap, rest) =>
              cap :: matchAll_scan icase r t (length s - length rest - 1)
          | None => matchAll_scan icase r t 0
          end
      end
  end.

Definition matchAll (icase : bool) (r : regex) (s : jsstring)
    : list (option jsstring) :=
  matchAll_scan icase r s 0.

(** ToString of [match[1]]: a group that took no part reads [undefined]. *)
Definition capture_text (cap : option jsstring) : jsstring :=
  match cap with
  | Some t => t
  | None => lit "undefined"
  end.

(* ===================================================================== *)
(** * parser.ts: YosysParser *)
(* ===================================================================== *)

Record EdaYosysOutput : Type := {
  stdout : jsstring;
  stderr : jsstring;
  exitCode : number;
  duration : number;
}.

Record EdaParsedMetrics : Type := {
  pm_cells : number;
  pm_levels : number;
  pm_area_um2 : option number;
  pm_warnings : option number;
}.

Module YosysParser.

(** [/Number of cells:\s*(\d+)/i] *)
Definition CELLS_PATTERN : regex :=
  RSeq (RLit (lit "Number of cells:"))
    (RSeq (RStar true CSpace) (RGroup (RPlus CDigit))).

(** [/Longest path \(levels\):\s*(\d+)/i] *)
Definition LEVELS_PATTERN : regex :=
  RSeq (RLit (lit "Longest path (levels):"))
    (RSeq (RStar true CSpace) (RGroup (RPlus CDigit))).

(** [um] and U+00B2 SUPERSCRIPT TWO *)
Definition UM2 : jsstring := lit "um" ++ [178%N].

(** [/Chip area for module.*?:\s*(\d+(?:\.\d+)?)\s*um²/i] *)
Definition AREA_TAIL : regex :=
  RSeq (RStar true CSpace)
    (RSeq (RGroup (RSeq (RPlus CDigit)
                     (ROpt (RSeq (RChar (CLit 46)) (RPlus CDigit)))))
       (RSeq (RStar true CSpace) (RLit UM2))).

Definition AREA_PATTERN : regex :=
  RSeq (RLit (lit "Chip area for module"))
    (RSeq (RStar false CAny) (RSeq (RChar (CLit 58)) AREA_TAIL)).

(** [/Warning:\s*(\d+)/gi] *)
Definition WARNINGS_PATTERN : regex :=
  RSeq (RLit (lit "Warning:"))
    (RSeq (RStar true CSpace) (RGroup (RPlus CDigit))).

Definition extractCells (output : jsstring) : option number :=
  match regex_exec true CELLS_PATTERN output with
  | Some (cap, _) => Some (parseInt10 (capture_text cap))
  | None => None
  end.

Definition extractLevels (output : jsstring) : option number :=
  match regex_exec true LEVELS_PATTERN output with
  | Some (cap, _) => Some (parseInt10 (capture_text cap))
  | None => None
  end.

Definition extractArea (output : jsstring) : option number :=
  match regex_exec true AREA_PATTERN output with
  | Some (cap, _) => Some (parseFloat (capture_text cap))
  | None => None
  end.

(** The loop [count += parseInt(match[1], 10)] from [count = 0]. *)
Definition sum_captures (caps : list (option jsstring)) : number :=
  fold_left (fun count cap => (count + parseInt10 (capture_text cap))%float)
    caps 0%float.

Definition extractWarnings (output : jsstring) : option number :=
  Some (sum_captures (matchAll true WARNINGS_PATTERN output)).

(** The text every pattern is matched on: stdout, a line feed, stderr. *)
Definition combinedOutput (output : EdaYosysOutput) : jsstring :=
  stdout output ++ [LF] ++ stderr output.

(** None of the four extractors throws, so the [catch] arm of the
    source is never taken. *)
Definition parseMetrics (output : EdaYosysOutput) : option EdaParsedMetrics :=
  let combined := combinedOutput output in
  let cells := extractCells combined in
  let levels := extractLevels combined in
  let area_um2 := extractArea combined in
  let warnings := extractWarnings combined in
  match cells, levels with
  | Some c, Some l =>
      Some {| pm_cells := c; pm_levels := l;
              pm_area_um2 := area_um2; pm_warnings := warnings |}
  | _, _ => None
  end.

End YosysParser.

(* ===================================================================== *)
(** * types.ts *)
(* ===================================================================== *)

Record EdaProvenance : Type := {
  tool : jsstring;
  tool_version : jsstring;
  git_commit : option jsstring;
  timestamp_utc : jsstring;
  host : jsstring;
  os : jsstring;
  gemini_eda_version : jsstring;
}.

Record EdaRun : Type := {
  script_path : jsstring;
  seed : option number;
  cwd : jsstring;
  cmd : jsstring;
  duration_ms : number;
  exit_code : number;
}.

Record EdaMetrics : Type := {
  cells : number;
  levels : number;
  area_um2 : option number;
  warnings : option number;
  wns_ns : option number;
  tns_ns : option number;
  utilization_pct : option number;
}.

Record EdaArtifacts : Type := {
  log_path : jsstring;
  output_netlist : option jsstring;
}.

Record EdaResult : Type := {
  provenance : EdaProvenance;
  run_record : EdaRun;
  metrics : EdaMetrics;
  artifacts : EdaArtifacts;
}.

Record EdaRunInfo : Type := {
  ri_script_path : jsstring;
  ri_seed : option number;
}.

Record EdaBaseline : Type := {
  b_metrics : EdaMetrics;
  b_timestamp_utc : jsstring;
  b_run_info : EdaRunInfo;
}.

Record CellsComparison : Type := {
  c_base : number;
  c_now : number;
  c_delta : number;
  c_delta_pct : number;
}.

Record LevelsComparison : Type := {
  l_base : number;
  l_now : number;
  l_delta : number;
}.

Record EdaVerificationResult : Type := {
  accepted : bool;
  v_cells : CellsComparison;
  v_levels : LevelsComparison;
  v_message : jsstring;
}.

Record EdaCommandContext : Type := {
  ctx_cwd : jsstring;
  edaDir : jsstring;
  logsDir : jsstring;
  lastRunDir : jsstring;
  recipesDir : jsstring;
  rtlDir : jsstring;
  buildDir : jsstring;
}.

Record EdaRecipe : Type := {
  rc_name : jsstring;
  rc_path : jsstring;
  rc_lastModified : number;   (** the time value of the Date *)
  rc_content : jsstring;
}.

Record EdaValidationResult : Type := {
  valid : bool;
  errors : list jsstring;
  validation_warnings : list jsstring;
}.

Record EdaCommandOptions : Type := {
  opt_force : option bool;
  opt_seed : option number;
  opt_verbose : option bool;
}.

(** The [data] of a command result. *)
Inductive CommandData : Type :=
  | DataResult (r : EdaResult)
  | DataVerification (v : EdaVerificationResult).

Record EdaCommandResult : Type := {
  success : bool;
  message : jsstring;
  data : option CommandData;
  res_exitCode : option number;
}.

Definition EDA_DIR_NAME : jsstring := lit ".gemini_eda".
Definition EDA_LOGS_DIR : jsstring := lit "logs".
Definition EDA_LAST_RUN_DIR : jsstring := lit "last_run".
Definition EDA_RECIPES_DIR : jsstring := lit "recipes".
Definition EDA_RTL_DIR : jsstring := lit "rtl".
Definition EDA_BUILD_DIR : jsstring := lit "build".
Definition EDA_BASELINE_FILE : jsstring := lit "baseline.json".
Definition EDA_RESULT_FILE : jsstring := lit "result.json".
Definition EDA_LOG_FILE : jsstring := lit "yosys.log".
Definition DEFAULT_RECIPE_NAME : jsstring := lit "synth_resyn2.ys".

Definition DEFAULT_RECIPE_CONTENT : jsstring :=
  lit "# Sample Yosys synthesis script for resyn2 optimization
# This script reads Verilog files from rtl/ and performs synthesis with resyn2

# Read Verilog files from rtl directory
read_verilog rtl/top.v

# Set top module
hierarchy -top top

# Synthesize to generic gates
synth

# Optimize with resyn2 algorithm
#abc -script +resyn2

# Print statistics
stat

# Write synthesized netlist
write_verilog -noattr build/top.synth.v

# Optional: Write JSON netlist for further processing
# write_json build/top.synth.json".

Definition EDA_VERSION : jsstring := lit "v0.7".

(* ===================================================================== *)
(** * The runtime and the environment *)
(* ===================================================================== *)

(** The rendering of a thrown value in a template literal. *)
Abbreviation exn := (list N) (only parsing).

(** [JSON.parse] and [JSON.stringify] at one of the program's types.  A
    document read back from disk is taken at the TypeScript type the
    program gives it; a text that [JSON.parse] rejects, or whose shape
    makes the property reads that follow throw, is the [inl] case. *)
Class JSON (A : Type) : Type := {
  JSON_parse : jsstring -> exn + A;
  JSON_stringify : A -> jsstring;
}.

(** The built-ins the program calls and this development does not
    define. *)
Class Runtime : Type := {
  json_result : JSON EdaResult;
  json_baseline : JSON EdaBaseline;
  (** [Number::toString] outside the safe integers, NaN and the
      infinities *)
  toString_other : number -> jsstring;
  (** the text [Date.prototype.toISOString] gives for a valid time
      value *)
  toISOString : number -> jsstring;
}.

#[global] Existing Instance json_result.
#[global] Existing Instance json_baseline.

(** The integer a Number is, when it is one. *)
Definition integer_of (x : number) : option Z :=
  match Prim2SF x with
  | S754_zero _ => Some 0%Z
  | S754_finite s m e =>
      let mag :=
        if (0 <=? e)%Z then Some (Z.pos m * 2 ^ e)%Z
        else if (Z.pos m mod 2 ^ (- e) =? 0)%Z then Some (Z.pos m / 2 ^ (- e))%Z
        else None in
      match mag with
      | Some v => Some (if s then (- v)%Z else v)
      | None => None
      end
  | _ => None
  end.

(** [Number::toString]: an integer below 2^53 in magnitude prints as its
    decimal digits. *)
Definition Number_toString `{Runtime} (x : number) : jsstring :=
  if is_nan x then lit "NaN"
  else
    match integer_of x with
    | Some z =>
        if (Z.abs z <? 2 ^ 53)%Z
        then lit (DecimalString.NilZero.string_of_int (Z.to_int z))
        else toString_other x
    | None =>
        if PrimFloat.eqb x infinity then lit "Infinity"
        else if PrimFloat.eqb x neg_infinity then lit "-Infinity"
        else toString_other x
    end.

(** [a || b] on Numbers and [null]. *)
Definition or_number (a : option number) (b : number) : number :=
  match a with
  | Some x => if truthy x then x else b
  | None => b
  end.

(** [a || b] on strings and [null]: the empty string is falsy. *)
Definition or_string (a : option jsstring) (b : jsstring) : jsstring :=
  match a with
  | Some (x :: t) => x :: t
  | _ => b
  end.

(** [a || null] *)
Definition or_null (a : option number) : option number :=
  match a with
  | Some x => if truthy x then Some x else None
  | None => None
  end.

(** [path.join] of a directory and a name, both normalised. *)
Definition path_join (dir name : jsstring) : jsstring :=
  dir ++ lit "/" ++ name.

(** A node of the file system. *)
Inductive FsNode : Type :=
  | RegularFile (content : jsstring) (mtime : number)
  | Directory.

(** What the child process did: the chunks it wrote, what it did to the
    files (a synthesis script writes its netlist), and the event that
    settles the promise.  ['close'] carries the exit code, or [null] when
    the process was ended by a signal, as it is when the [timeout] of
    [spawn] expires; ['error'] carries the message of the error. *)
Inductive ChildSettle : Type :=
  | OnClose (code : option number)
  | OnError (error_message : jsstring).

Record ChildRun : Type := {
  stdout_chunks : list jsstring;
  stderr_chunks : list jsstring;
  child_files : gmap (list N) FsNode -> gmap (list N) FsNode;
  settle : ChildSettle;
}.

(** What the operating system and the installed tools decide. *)
Record Env : Type := {
  process_cwd : jsstring;
  path_resolve : jsstring -> jsstring;
  time_at : nat -> number;               (** successive readings of the clock *)
  write_error : jsstring -> option exn;  (** why a path cannot be written *)
  mkdir_error : jsstring -> option exn;
  readdir_result : jsstring -> exn + list jsstring;
  yosys_available : bool;                (** is there a [yosys] to start *)
  yosys_run : list jsstring -> ChildRun; (** [spawn('yosys', args)] *)
  env_git_commit : option jsstring;      (** [git rev-parse HEAD], trimmed *)
  env_hostname : jsstring;
  env_platform : jsstring;
  env_arch : jsstring;
}.

Inductive UiItem : Type :=
  | UiInfo (text : jsstring)
  | UiError (text : jsstring).

(** What a command can change. *)
Record State : Type := {
  fs : gmap (list N) FsNode;
  ticks : nat;                          (** clock readings so far *)
  console : list jsstring;              (** [console.warn] lines, latest first *)
  spawned : list (list jsstring);       (** arguments of each yosys child, latest first *)
  ui : list UiItem;                     (** items shown, latest first *)
  process_exitCode : option number;
}.

Definition with_fs (f : gmap (list N) FsNode) (st : State) : State :=
  {| fs := f; ticks := ticks st; console := console st;
     spawned := spawned st; ui := ui st;
     process_exitCode := process_exitCode st |}.

Definition with_ticks (n : nat) (st : State) : State :=
  {| fs := fs st; ticks := n; console := console st;
     spawned := spawned st; ui := ui st;
     process_exitCode := process_exitCode st |}.

Definition with_console (c : list jsstring) (st : State) : State :=
  {| fs := fs st; ticks := ticks st; console := c;
     spawned := spawned st; ui := ui st;
     process_exitCode := process_exitCode st |}.

Definition with_spawned (l : list (list jsstring)) (st : State) : State :=
  {| fs := fs st; ticks := ticks st; console := console st;
     spawned := l; ui := ui st;
     process_exitCode := process_exitCode st |}.

Definition with_ui (l : list UiItem) (st : State) : State :=
  {| fs := fs st; ticks := ticks st; console := console st;
     spawned := spawned st; ui := l;
     process_exitCode := process_exitCode st |}.

Definition with_exitCode (c : option number) (st : State) : State :=
  {| fs := fs st; ticks := ticks st; console := console st;
     spawned := spawned st; ui := ui st;
     process_exitCode := c |}.

(** ** The monad of the commands: state, and what ends a computation
    other than its value *)

(** An [async] function ends without a value when it throws, or when it
    awaits a promise that never settles: then nothing after the [await]
    runs, no [catch] either, and its caller waits in turn.  [unhandled]
    is the ['error'] event of a child that could not be started and that
    nothing listens to. *)
Inductive Abrupt : Type :=
  | Thrown (error : exn)
  | Unsettled (unhandled : option jsstring).

Definition M (A : Type) : Type := State -> (Abrupt + A) * State.

Definition ret {A} (x : A) : M A := fun st => (inr x, st).

Definition throw {A} (e : exn) : M A := fun st => (inl (Thrown e), st).

Definition bind {A B} (c : M A) (k : A -> M B) : M B :=
  fun st =>
    match c st with
    | (inr x, st') => k x st'
    | (inl a, st') => (inl a, st')
    end.

(** [try { c } catch (error) { h error }] *)
Definition try_catch {A} (c : M A) (h : exn -> M A) : M A :=
  fun st =>
    match c st with
    | (inr x, st') => (inr x, st')
    | (inl (Thrown e), st') => h e st'
    | (inl (Unsettled u), st') => (inl (Unsettled u), st')
    end.

Declare Scope cmd_scope.
Delimit Scope cmd_scope with cmd.
Notation "x <- c ;; k" := (bind c (fun x => k))
  (at level 100, c at next level, right associativity) : cmd_scope.
Notation "c ;; k" := (bind c (fun _ => k))
  (at level 100, right associativity) : cmd_scope.
Open Scope cmd_scope.

Definition get_state : M State := fun st => (inr st, st).
Definition modify (f : State -> State) : M unit := fun st => (inr tt, f st).

(** [`${error}`] of [new Error(msg)] *)
Definition Error (msg : jsstring) : exn := lit "Error: " ++ msg.

(** [a === b] on strings *)
Fixpoint string_eqb (a b : jsstring) : bool :=
  match a, b with
  | [], [] => true
  | x :: a', y :: b' => (x =? y)%N && string_eqb a' b'
  | _, _ => false
  end.

(** The directories on the way to a path: every prefix of it that ends
    before a separator, the root apart, and the path itself. *)
Fixpoint lineage_from (before after : jsstring) : list jsstring :=
  match after with
  | [] => [before]
  | x :: t =>
      (if (x =? 47)%N && negb (Nat.eqb (length before) 0) then [before]
       else [])
      ++ lineage_from (before ++ [x]) t
  end.

Definition lineage (p : jsstring) : list jsstring := lineage_from [] p.

Section Effects.
Variable env : Env.

(** [Date.now()] *)
Definition Date_now : M number :=
  fun st => (inr (time_at env (ticks st)), with_ticks (S (ticks st)) st).

(** [fs.stat]: the node at the path, or an exception. *)
Definition fs_stat (p : jsstring) : M FsNode :=
  fun st =>
    match fs st !! p with
    | Some n => (inr n, st)
    | None =>
        (inl (Thrown (Error (lit "ENOENT: no such file or directory, stat '"
                             ++ p ++ lit "'"))), st)
    end.

Definition isFile (n : FsNode) : bool :=
  match n with RegularFile _ _ => true | Directory => false end.

Definition isDirectory (n : FsNode) : bool :=
  match n with RegularFile _ _ => false | Directory => true end.

(** [fs.readFile(p, 'utf-8')] *)
Definition fs_readFile (p : jsstring) : M jsstring :=
  fun st =>
    match fs st !! p with
    | Some (RegularFile c _) => (inr c, st)
    | Some Directory =>
        (inl (Thrown
                (Error (lit "EISDIR: illegal operation on a directory, read"))),
         st)
    | None =>
        (inl (Thrown (Error (lit "ENOENT: no such file or directory, open '"
                             ++ p ++ lit "'"))), st)
    end.

(** [fs.writeFile(p, c, 'utf-8')]: the file is created or replaced as a
    whole, unless the path is a directory or the system refuses. *)
Definition fs_writeFile (p c : jsstring) : M unit :=
  fun st =>
    match fs st !! p, write_error env p with
    | Some Directory, _ =>
        (inl (Thrown
                (Error (lit "EISDIR: illegal operation on a directory, open '"
                        ++ p ++ lit "'"))), st)
    | _, Some e => (inl (Thrown e), st)
    | _, None =>
        (inr tt,
         with_fs (<[p := RegularFile c (time_at env (ticks st))]> (fs st)) st)
    end.

(** One directory of a recursive [mkdir] of [p]: kept when it is there,
    made when it is missing, an error when a file is in the way. *)
Definition mkdir_one (p d : jsstring) : M unit :=
  fun st =>
    match fs st !! d with
    | Some Directory => (inr tt, st)
    | Some (RegularFile _ _) =>
        (inl (Thrown (Error ((if string_eqb d p
                       then lit "EEXIST: file already exists, mkdir '"
                       else lit "ENOTDIR: not a directory, mkdir '")
                      ++ p ++ lit "'"))), st)
    | None =>
        match mkdir_error env d with
        | Some e => (inl (Thrown e), st)
        | None => (inr tt, with_fs (<[d := Directory]> (fs st)) st)
        end
    end.

Fixpoint mkdir_each (p : jsstring) (dirs : list jsstring) : M unit :=
  match dirs with
  | [] => ret tt
  | d :: rest => mkdir_one p d ;; mkdir_each p rest
  end.

(** [fs.mkdir(p, { recursive: true })]: the missing parents are made
    first, then the directory itself. *)
Definition fs_mkdir (p : jsstring) : M unit := mkdir_each p (lineage p).

(** [fs.readdir] *)
Definition fs_readdir (p : jsstring) : M (list jsstring) :=
  fun st =>
    match readdir_result env p with
    | inl e => (inl (Thrown e), st)
    | inr files => (inr files, st)
    end.

Definition console_warn (line : jsstring) : M unit :=
  modify (fun st => with_console (line :: console st) st).

(** What [promisify(spawn)('yosys', args, ...)] would resolve to, read
    as the probes of parser.ts read it. *)
Record SpawnResult : Type := {
  sr_exitCode : option number;
  sr_stdout : option jsstring;
}.

(** The ['error'] event of a child for which no [yosys] is found. *)
Definition spawn_error : option jsstring :=
  if yosys_available env then None
  else Some (lit "Error: spawn yosys ENOENT").

(** [promisify(spawn)('yosys', args, options)]: [promisify] hands
    [spawn] a callback as a further argument, and [spawn] takes none.
    The child is started, the callback is never called, and the promise
    never settles.  A child that cannot be started emits ['error'], to
    which nothing listens. *)
Definition promisify_spawn (args : list jsstring) : M SpawnResult :=
  fun st =>
    (inl (Unsettled spawn_error), with_spawned (args :: spawned st) st).
End Effects.

(* ===================================================================== *)
(** * More of the string built-ins *)
(* ===================================================================== *)

(** String.prototype.endsWith *)
Definition endsWith (s p : jsstring) : bool := startsWith (rev s) (rev p).

(** String.prototype.trim *)
Definition trim (s : jsstring) : jsstring :=
  rev (drop_while is_space (rev (drop_while is_space s))).

(** [s.split(/\s+/)]: the pieces between the runs of white space; [cur]
    is the piece being read. *)
Fixpoint split_spaces (cur s : jsstring) : list jsstring :=
  match s with
  | [] => [cur]
  | x :: t =>
      if is_space x then
        match t with
        | y :: _ => if is_space y then split_spaces cur t
                    else cur :: split_spaces [] t
        | [] => cur :: split_spaces [] t
        end
      else split_spaces (cur ++ [x]) t
  end.

(** String.prototype.includes: the text has [p] at some position. *)
Fixpoint includes (s p : jsstring) : bool :=
  startsWith s p
  || match s with
     | [] => false
     | _ :: t => includes t p
     end.

(** [s.split(c)[0]] *)
Definition before_char (c : N) (s : jsstring) : jsstring :=
  take_while (fun x => negb (x =? c)%N) s.

(** [s.split(c)[1]], for an [s] that has a [c] *)
Definition after_char (c : N) (s : jsstring) : jsstring :=
  before_char c (tail (drop_while (fun x => negb (x =? c)%N) s)).

(** [recipes.sort((a, b) => b.lastModified.getTime() - a.lastModified.getTime())]:
    a stable sort, newest first. *)
Fixpoint insert_recipe (x : EdaRecipe) (l : list EdaRecipe) : list EdaRecipe :=
  match l with
  | [] => [x]
  | y :: t =>
      if PrimFloat.ltb 0 (rc_lastModified x - rc_lastModified y)%float
      then x :: l
      else y :: insert_recipe x t
  end.

Definition sort_recipes (l : list EdaRecipe) : list EdaRecipe :=
  fold_left (fun sorted x => insert_recipe x sorted) l [].

(* ===================================================================== *)
(** * parser.ts: the two probes of YosysParser *)
(* ===================================================================== *)

Section Probes.
Variable env : Env.

(** Validates that Yosys is available on the system. *)
Definition isYosysAvailable : M bool :=
  try_catch
    (result <- promisify_spawn env [lit "-V"] ;;
     ret (match sr_exitCode result with
          | Some code => PrimFloat.eqb code 0
          | None => false
          end))
    (fun _ => ret false).

(** Gets the Yosys version string. *)
Definition getYosysVersion : M (option jsstring) :=
  try_catch
    (result <- promisify_spawn env [lit "-V"] ;;
     ret (match sr_exitCode result, sr_stdout result with
          | Some code, Some (x :: out) =>
              if PrimFloat.eqb code 0 then Some (trim (x :: out)) else None
          | _, _ => None
          end))
    (fun _ => ret None).
End Probes.

(* ===================================================================== *)
(** * Dates as text *)
(* ===================================================================== *)

(** A time value a Date can hold: a number of at most 8.64e15 in
    magnitude.  The time value of any other Date is NaN. *)
Definition valid_time (t : number) : bool :=
  PrimFloat.leb (PrimFloat.abs t) 8.64e15.

(** [Date.prototype.toISOString], which throws a RangeError on an
    invalid date. *)
Definition Date_toISOString `{Runtime} (t : number) : M jsstring :=
  if valid_time t then ret (toISOString t)
  else throw (lit "RangeError: Invalid time value").

(* ===================================================================== *)
(** * validation.ts: EdaValidator *)
(* ===================================================================== *)

Module EdaValidator.
Section WithEnv.
Variable env : Env.

Definition validateDirectoryStructure (context : EdaCommandContext)
    : M EdaValidationResult :=
  e1 <- try_catch
          (rtlStat <- fs_stat (rtlDir context) ;;
           ret (if negb (isDirectory rtlStat)
                then [rtlDir context ++ lit " exists but is not a directory"]
                else []))
          (fun _ => ret [lit "rtl/ directory not found. Create rtl/ and add your sources (e.g., rtl/top.v)"]) ;;
  r2 <- try_catch
          (recipesStat <- fs_stat (recipesDir context) ;;
           ret (if negb (isDirectory recipesStat)
                then ([recipesDir context ++ lit " exists but is not a directory"], [])
                else ([], [])))
          (fun _ => ret ([], [lit "recipes/ directory not found. Run /eda:recipe:init to create it"])) ;;
  w3 <- try_catch
          (buildStat <- fs_stat (buildDir context) ;;
           ret (if negb (isDirectory buildStat)
                then [buildDir context ++ lit " exists but is not a directory"]
                else []))
          (fun _ => ret []) ;;
  let errs := e1 ++ fst r2 in
  ret {| valid := Nat.eqb (length errs) 0; errors := errs;
         validation_warnings := snd r2 ++ w3 |}.

Definition validateRecipeFile (recipePath : jsstring)
    : M EdaValidationResult :=
  errs <- try_catch
            (stat <- fs_stat recipePath ;;
             ret (if negb (isFile stat)
                  then [recipePath ++ lit " exists but is not a file"]
                  else []))
            (fun _ => ret [lit "Recipe file not found: " ++ recipePath]) ;;
  ret {| valid := Nat.eqb (length errs) 0; errors := errs;
         validation_warnings := [] |}.

(** Validates that a recipe file references the rtl/ directory: the
    four checks only warn; reading the file is what can fail. *)
Definition validateRecipeContent (recipePath : jsstring)
    : M EdaValidationResult :=
  r <- try_catch
         (content <- fs_readFile recipePath ;;
          let w1 :=
            if negb (includes content (lit "rtl/"))
            then [lit "Recipe does not reference rtl/ directory. Make sure it contains 'read_verilog rtl/...' commands"]
            else [] in
          let w2 :=
            if negb (includes content (lit "read_verilog"))
            then [lit "Recipe does not contain 'read_verilog' command"]
            else [] in
          let w3 :=
            if negb (includes content (lit "synth"))
            then [lit "Recipe does not contain 'synth' command"]
            else [] in
          let w4 :=
            if negb (includes content (lit "stat"))
            then [lit "Recipe does not contain 'stat' command (needed for metrics)"]
            else [] in
          ret ([], w1 ++ w2 ++ w3 ++ w4))
         (fun error => ret ([lit "Error reading recipe file: " ++ error], [])) ;;
  ret {| valid := Nat.eqb (length (fst r)) 0; errors := fst r;
         validation_warnings := snd r |}.

Definition mtime_of (n : FsNode) : number :=
  match n with RegularFile _ m => m | Directory => 0%float end.

(** The loop over the directory listing: a file that cannot be read
    is skipped with a warning. *)
Fixpoint collectRecipes (context : EdaCommandContext) (files : list jsstring)
    : M (list EdaRecipe) :=
  match files with
  | [] => ret []
  | file :: rest =>
      found <-
        (if endsWith file (lit ".ys") then
           let recipePath := path_join (recipesDir context) file in
           try_catch
             (stat <- fs_stat recipePath ;;
              content <- fs_readFile recipePath ;;
              ret [{| rc_name := file; rc_path := recipePath;
                      rc_lastModified := mtime_of stat;
                      rc_content := content |}])
             (fun error =>
                console_warn (lit "Warning: Could not read recipe file "
                              ++ file ++ lit ": " ++ error) ;;
                ret [])
         else ret []) ;;
      others <- collectRecipes context rest ;;
      ret (found ++ others)
  end.

Definition listRecipes (context : EdaCommandContext) : M (list EdaRecipe) :=
  try_catch
    (files <- fs_readdir env (recipesDir context) ;;
     recipes <- collectRecipes context files ;;
     ret (sort_recipes recipes))
    (fun error =>
       console_warn (lit "Warning: Could not read recipes directory: "
                     ++ error) ;;
       ret []).

Fixpoint mkdirAll (directories : list jsstring) : M unit :=
  match directories with
  | [] => ret tt
  | dir :: rest =>
      try_catch (fs_mkdir env dir)
        (fun error =>
           throw (Error (lit "Failed to create directory " ++ dir
                         ++ lit ": " ++ error))) ;;
      mkdirAll rest
  end.

Definition ensureDirectories (context : EdaCommandContext) : M unit :=
  mkdirAll [edaDir context; logsDir context; lastRunDir context;
            recipesDir context; buildDir context].

Definition fileExists (filePath : jsstring) : M bool :=
  try_catch (stat <- fs_stat filePath ;; ret (isFile stat))
    (fun _ => ret false).

Definition directoryExists (dirPath : jsstring) : M bool :=
  try_catch (stat <- fs_stat dirPath ;; ret (isDirectory stat))
    (fun _ => ret false).
End WithEnv.
End EdaValidator.

(* ===================================================================== *)
(** * commands.ts: EdaCommands *)
(* ===================================================================== *)

(** What [runYosys] resolves to. *)
Record YosysRun : Type := {
  yr_stdout : jsstring;
  yr_stderr : jsstring;
  yr_exitCode : number;
}.

Definition failure (msg : jsstring) : EdaCommandResult :=
  {| success := false; message := msg; data := None;
     res_exitCode := Some 1%float |}.

Definition ok (msg : jsstring) : EdaCommandResult :=
  {| success := true; message := msg; data := None; res_exitCode := None |}.

Module EdaCommands.
Section WithEnv.
Context `{Runtime}.
Variable env : Env.

Definition helpText : jsstring := lit "
EDA Commands:
  /eda:help                    Show this help message
  /eda:recipe:init [--force]   Create recipes/ directory and sample script
  /eda:recipe:list             List available recipe files
  /eda:run [script] [--seed N] Run Yosys with script (default: recipes/synth_resyn2.ys)
  /eda:baseline:seed           Save last run as baseline for verification
  /eda:verify                  Compare QoR metrics against baseline
  /eda:last                    Show last run result and summary

Options:
  --force    Overwrite existing files
  --seed N   Set random seed for synthesis
  --verbose  Show detailed output

Examples:
  /eda:recipe:init
  /eda:run recipes/synth_resyn2.ys --seed 1
  /eda:baseline:seed
  /eda:run recipes/synth_resyn2.ys --seed 2
  /eda:verify
".

Definition help (context : EdaCommandContext) (args : list jsstring)
    (options : EdaCommandOptions) : M EdaCommandResult :=
  ret (ok (trim helpText)).

Definition recipeInit (context : EdaCommandContext) (args : list jsstring)
    (options : EdaCommandOptions) : M EdaCommandResult :=
  try_catch
    (EdaValidator.ensureDirectories env context ;;
     let recipePath := path_join (recipesDir context) DEFAULT_RECIPE_NAME in
     present <- EdaValidator.fileExists recipePath ;;
     if present && negb (default false (opt_force options)) then
       ret (failure (DEFAULT_RECIPE_NAME
                     ++ lit " already exists. Use /eda:recipe:init --force to overwrite."))
     else
       fs_writeFile env recipePath DEFAULT_RECIPE_CONTENT ;;
       ret (ok (lit "Created " ++ recipePath)))
    (fun error => ret (failure (lit "Error creating recipe: " ++ error))).

(** [`${index + 1}. ${recipe.name} (${timestamp})`] *)
Definition recipeLine (index : nat) (recipe : EdaRecipe) : M jsstring :=
  iso <- Date_toISOString (rc_lastModified recipe) ;;
  let timestamp := before_char 84 iso in
  ret (Number_toString (Z2float (Z.of_nat index + 1)) ++ lit ". "
       ++ rc_name recipe ++ lit " (" ++ timestamp ++ lit ")").

(** [recipes.map((recipe, index) => ...)], from [index] on *)
Fixpoint recipeLines (index : nat) (recipes : list EdaRecipe)
    : M (list jsstring) :=
  match recipes with
  | [] => ret []
  | recipe :: rest =>
      line <- recipeLine index recipe ;;
      lines <- recipeLines (S index) rest ;;
      ret (line :: lines)
  end.

Definition recipeList (context : EdaCommandContext) (args : list jsstring)
    (options : EdaCommandOptions) : M EdaCommandResult :=
  try_catch
    (recipes <- EdaValidator.listRecipes env context ;;
     if Nat.eqb (length recipes) 0 then
       ret (ok (lit "No recipe files found. Run /eda:recipe:init to create one."))
     else
       lines <- recipeLines 0 recipes ;;
       ret (ok (lit "Available recipes:" ++ [LF] ++ join [LF] lines)))
    (fun error => ret (failure (lit "Error listing recipes: " ++ error))).

(** The arguments [runYosys] passes to [spawn('yosys', args)]. *)
Definition yosysArgs (scriptPath : jsstring) (seed : option number)
    : list jsstring :=
  [lit "-s"; scriptPath]
  ++ match seed with
     | Some s => [lit "-p";
                  lit "abc -script +resyn2 -seed " ++ Number_toString s]
     | None => []
     end.

(** What the promise of [runYosys] resolves to, given what the child
    did: the ['close'] handler and the ['error'] handler. *)
Definition resolved (child : ChildRun) : YosysRun :=
  let out := concat (stdout_chunks child) in
  let err := concat (stderr_chunks child) in
  match settle child with
  | OnClose code =>
      {| yr_stdout := out; yr_stderr := err;
         yr_exitCode := or_number code 0 |}
  | OnError error_message =>
      {| yr_stdout := out; yr_stderr := error_message; yr_exitCode := 1 |}
  end.

(** Runs Yosys with the specified script and seed: the child is
    started, does to the files what it does, and the promise resolves
    when it closes or fails. *)
Definition runYosys (scriptPath : jsstring) (seed : option number)
    : M YosysRun :=
  let args := yosysArgs scriptPath seed in
  let child := yosys_run env args in
  modify (fun st =>
            with_fs (child_files child (fs st))
              (with_spawned (args :: spawned st) st)) ;;
  ret (resolved child).

(** Performs QoR verification against baseline. *)
Definition performVerification (baseline current : EdaMetrics)
    : EdaVerificationResult :=
  let cellsDelta := (cells current - cells baseline)%float in
  let cellsDeltaPct := (cellsDelta / cells baseline * 100)%float in
  let levelsDelta := (levels current - levels baseline)%float in
  let levelsOk := PrimFloat.leb (levels current) (levels baseline) in
  let cellsOk := PrimFloat.leb (cells current) (cells baseline) in
  let accepted := levelsOk && cellsOk in
  let message :=
    trim ([LF] ++ lit "cells  base: " ++ Number_toString (cells baseline)
          ++ lit "  now: " ++ Number_toString (cells current) ++ [LF]
          ++ lit "levels base: " ++ Number_toString (levels baseline)
          ++ lit "     now: " ++ Number_toString (levels current) ++ [LF]
          ++ (if accepted then 9989%N :: lit " Accepted"
              else 10060%N :: lit " Rejected") ++ [LF]) in
  {| accepted := accepted;
     v_cells := {| c_base := cells baseline; c_now := cells current;
                   c_delta := cellsDelta; c_delta_pct := cellsDeltaPct |};
     v_levels := {| l_base := levels baseline; l_now := levels current;
                    l_delta := levelsDelta |};
     v_message := message |}.

(** [git rev-parse HEAD], or null. *)
Definition getGitCommit : M (option jsstring) := ret (env_git_commit env).

(** [/write_verilog.*?(\S+\.v)/] *)
Definition NETLIST_PATTERN : regex :=
  RSeq (RLit (lit "write_verilog"))
    (RSeq (RStar false CAny)
       (RGroup (RSeq (RPlus CNonSpace)
                  (RSeq (RChar (CLit 46)) (RChar (CLit 118)))))).

Definition extractOutputNetlist (scriptPath : jsstring)
    : M (option jsstring) :=
  try_catch
    (content <- fs_readFile scriptPath ;;
     ret (match regex_exec false NETLIST_PATTERN content with
          | Some (cap, _) => cap
          | None => None
          end))
    (fun _ => ret None).

(** Runs Yosys with the specified script. *)
Definition run (context : EdaCommandContext) (args : list jsstring)
    (options : EdaCommandOptions) : M EdaCommandResult :=
  try_catch
    (let scriptPath :=
       match args with
       | a :: _ => path_resolve env a
       | [] => path_join (recipesDir context) DEFAULT_RECIPE_NAME
       end in
     scriptValidation <- EdaValidator.validateRecipeFile scriptPath ;;
     if negb (valid scriptValidation) then
       ret (failure (join [LF] (errors scriptValidation)))
     else
     dirValidation <- EdaValidator.validateDirectoryStructure context ;;
     if negb (valid dirValidation) then
       ret (failure (join [LF] (errors dirValidation)))
     else
     available <- isYosysAvailable env ;;
     if negb available then
       ret (failure (lit "Yosys not found. Please install Yosys and ensure it is on your PATH."))
     else
     EdaValidator.ensureDirectories env context ;;
     startTime <- Date_now env ;;
     result <- runYosys scriptPath (opt_seed options) ;;
     endTime <- Date_now env ;;
     let duration := (endTime - startTime)%float in
     let yosysOutput :=
       {| stdout := yr_stdout result; stderr := yr_stderr result;
          exitCode := yr_exitCode result; duration := duration |} in
     match YosysParser.parseMetrics yosysOutput with
     | None =>
         ret (failure (lit "Failed to parse Yosys output. Check the log file for details."))
     | Some metrics =>
         yosysVersion <- getYosysVersion env ;;
         commit <- getGitCommit ;;
         stamp <- Date_now env ;;
         timestamp <- Date_toISOString stamp ;;
         netlist <- extractOutputNetlist scriptPath ;;
         let edaResult :=
           {| provenance :=
                {| tool := lit "yosys";
                   tool_version := or_string yosysVersion (lit "unknown");
                   git_commit := commit;
                   timestamp_utc := timestamp;
                   host := env_hostname env;
                   os := env_platform env ++ lit "-" ++ env_arch env;
                   gemini_eda_version := EDA_VERSION |};
              run_record :=
                {| script_path := scriptPath;
                   seed := or_null (opt_seed options);
                   cwd := ctx_cwd context;
                   cmd := lit "yosys -s " ++ scriptPath;
                   duration_ms := duration;
                   exit_code := yr_exitCode result |};
              metrics :=
                {| cells := pm_cells metrics;
                   levels := pm_levels metrics;
                   area_um2 := pm_area_um2 metrics;
                   warnings := pm_warnings metrics;
                   wns_ns := None; tns_ns := None;
                   utilization_pct := None |};
              artifacts :=
                {| log_path := path_join (logsDir context) EDA_LOG_FILE;
                   output_netlist := netlist |} |} in
         let resultPath := path_join (lastRunDir context) EDA_RESULT_FILE in
         fs_writeFile env resultPath (JSON_stringify edaResult) ;;
         let logPath := path_join (logsDir context) EDA_LOG_FILE in
         fs_writeFile env logPath
           (yr_stdout result ++ [LF; LF] ++ lit "--- STDERR ---" ++ [LF]
            ++ yr_stderr result) ;;
         ret {| success := true;
                message := 9989%N :: lit " Wrote " ++ resultPath;
                data := Some (DataResult edaResult);
                res_exitCode := None |}
     end)
    (fun error => ret (failure (lit "Error running Yosys: " ++ error))).

(** Saves the last run as baseline for verification. *)
Definition baselineSeed (context : EdaCommandContext) (args : list jsstring)
    (options : EdaCommandOptions) : M EdaCommandResult :=
  try_catch
    (let resultPath := path_join (lastRunDir context) EDA_RESULT_FILE in
     present <- EdaValidator.fileExists resultPath ;;
     if negb present then
       ret (failure (lit "No baseline found. Run /eda:baseline:seed after a successful /eda:run."))
     else
     resultContent <- fs_readFile resultPath ;;
     match JSON_parse resultContent with
     | inl error => throw error
     | inr result =>
         let baseline :=
           {| b_metrics := metrics result;
              b_timestamp_utc := timestamp_utc (provenance result);
              b_run_info :=
                {| ri_script_path := script_path (run_record result);
                   ri_seed := seed (run_record result) |} |} in
         let baselinePath := path_join (edaDir context) EDA_BASELINE_FILE in
         fs_writeFile env baselinePath (JSON_stringify baseline) ;;
         ret (ok (10004%N :: lit " Baseline saved"))
     end)
    (fun error => ret (failure (lit "Error saving baseline: " ++ error))).

(** Verifies QoR metrics against baseline. *)
Definition verify (context : EdaCommandContext) (args : list jsstring)
    (options : EdaCommandOptions) : M EdaCommandResult :=
  try_catch
    (let baselinePath := path_join (edaDir context) EDA_BASELINE_FILE in
     let resultPath := path_join (lastRunDir context) EDA_RESULT_FILE in
     hasBaseline <- EdaValidator.fileExists baselinePath ;;
     if negb hasBaseline then
       ret (failure (lit "No baseline found. Run /eda:baseline:seed after a successful /eda:run."))
     else
     hasResult <- EdaValidator.fileExists resultPath ;;
     if negb hasResult then
       ret (failure (lit "No last run found. Run /eda:run first."))
     else
     baselineContent <- fs_readFile baselinePath ;;
     resultContent <- fs_readFile resultPath ;;
     match JSON_parse baselineContent with
     | inl error => throw error
     | inr baseline =>
         match JSON_parse resultContent with
         | inl error => throw error
         | inr result =>
             let verification :=
               performVerification (b_metrics baseline) (metrics result) in
             ret {| success := accepted verification;
                    message := v_message verification;
                    data := Some (DataVerification verification);
                    res_exitCode :=
                      Some (if accepted verification then 0 else 1)%float |}
         end
     end)
    (fun error => ret (failure (lit "Error during verification: " ++ error))).

(** Shows the last run result and summary. *)
Definition last (context : EdaCommandContext) (args : list jsstring)
    (options : EdaCommandOptions) : M EdaCommandResult :=
  try_catch
    (let resultPath := path_join (lastRunDir context) EDA_RESULT_FILE in
     present <- EdaValidator.fileExists resultPath ;;
     if negb present then
       ret (failure (lit "No last run found. Run /eda:run first."))
     else
     resultContent <- fs_readFile resultPath ;;
     match JSON_parse resultContent with
     | inl error => throw error
     | inr result =>
         let r := run_record result in
         let m := metrics result in
         let summary :=
           trim ([LF] ++ lit "Last Run Summary:" ++ [LF]
             ++ lit "  Script: " ++ script_path r ++ [LF]
             ++ lit "  Seed: "
             ++ match or_null (seed r) with
                | Some s => Number_toString s
                | None => lit "N/A"
                end ++ [LF]
             ++ lit "  Duration: " ++ Number_toString (duration_ms r)
             ++ lit "ms" ++ [LF]
             ++ lit "  Exit Code: " ++ Number_toString (exit_code r) ++ [LF]
             ++ lit "  " ++ [LF]
             ++ lit "Metrics:" ++ [LF]
             ++ lit "  Cells: " ++ Number_toString (cells m) ++ [LF]
             ++ lit "  Levels: " ++ Number_toString (levels m) ++ [LF]
             ++ lit "  Area: "
             ++ match or_null (area_um2 m) with
                | Some a => Number_toString a ++ lit " um" ++ [178%N]
                | None => lit "N/A"
                end ++ [LF]
             ++ lit "  Warnings: "
             ++ Number_toString (or_number (warnings m) 0) ++ [LF]
             ++ lit "  " ++ [LF]
             ++ lit "Timestamp: " ++ timestamp_utc (provenance result) ++ [LF]
             ++ lit "Yosys Version: " ++ tool_version (provenance result)
             ++ [LF]) in
         ret {| success := true; message := summary;
                data := Some (DataResult result); res_exitCode := None |}
     end)
    (fun error => ret (failure (lit "Error reading last run: " ++ error))).
End WithEnv.
End EdaCommands.

(* ===================================================================== *)
(** * eda-cli.ts: EdaCli *)
(* ===================================================================== *)

Record ParsedArgs : Type := {
  pa_command : jsstring;
  pa_args : list jsstring;
  pa_options : EdaCommandOptions;
}.

Definition no_options : EdaCommandOptions :=
  {| opt_force := None; opt_seed := None; opt_verbose := None |}.

Module EdaCli.

(** Creates the EDA command context for the current directory. *)
Definition createEdaContext (cwd : jsstring) : EdaCommandContext :=
  let edaDir := path_join cwd EDA_DIR_NAME in
  {| ctx_cwd := cwd;
     edaDir := edaDir;
     logsDir := path_join edaDir EDA_LOGS_DIR;
     lastRunDir := path_join edaDir EDA_LAST_RUN_DIR;
     recipesDir := path_join cwd EDA_RECIPES_DIR;
     rtlDir := path_join cwd EDA_RTL_DIR;
     buildDir := path_join cwd EDA_BUILD_DIR |}.

(** The loop of [parseArgs] over the words after the command. *)
Fixpoint parseRemaining (remaining : list jsstring)
    (parsedArgs : list jsstring) (options : EdaCommandOptions)
    : list jsstring * EdaCommandOptions :=
  match remaining with
  | [] => (parsedArgs, options)
  | arg :: rest =>
      if string_eqb arg (lit "--force") then
        parseRemaining rest parsedArgs
          {| opt_force := Some true; opt_seed := opt_seed options;
             opt_verbose := opt_verbose options |}
      else if string_eqb arg (lit "--verbose") then
        parseRemaining rest parsedArgs
          {| opt_force := opt_force options; opt_seed := opt_seed options;
             opt_verbose := Some true |}
      else
        match string_eqb arg (lit "--seed"), rest with
        | true, value :: rest' =>
            parseRemaining rest' parsedArgs
              {| opt_force := opt_force options;
                 opt_seed := Some (parseInt10 value);
                 opt_verbose := opt_verbose options |}
        | _, _ =>
            if startsWith arg (lit "--seed=") then
              parseRemaining rest parsedArgs
                {| opt_force := opt_force options;
                   opt_seed := Some (parseInt10 (after_char 61 arg));
                   opt_verbose := opt_verbose options |}
            else parseRemaining rest (parsedArgs ++ [arg]) options
        end
  end.

(** Parses command arguments and options. *)
Definition parseArgs (args : jsstring) : ParsedArgs :=
  let parts := split_spaces [] (trim args) in
  let command := hd [] parts in
  let remaining := tail parts in
  let '(parsedArgs, options) := parseRemaining remaining [] no_options in
  {| pa_command := command; pa_args := parsedArgs; pa_options := options |}.

(** [commandArgs[0] === name] *)
Definition first_is (commandArgs : list jsstring) (name : jsstring) : bool :=
  match commandArgs with
  | a :: _ => string_eqb a name
  | [] => false
  end.

Section WithEnv.
Context `{Runtime}.
Variable env : Env.

(** The [switch] of [handleEdaCommand]: the result of the command. *)
Definition commandResult (edaContext : EdaCommandContext)
    (command : jsstring) (commandArgs : list jsstring)
    (options : EdaCommandOptions) : M EdaCommandResult :=
  if string_eqb command (lit "help") then
    EdaCommands.help edaContext commandArgs options
  else if string_eqb command (lit "recipe") then
    if first_is commandArgs (lit "init") then
      EdaCommands.recipeInit env edaContext (tail commandArgs) options
    else if first_is commandArgs (lit "list") then
      EdaCommands.recipeList env edaContext (tail commandArgs) options
    else
      ret (failure (lit "Unknown recipe command. Use /eda:recipe:init or /eda:recipe:list."))
  else if string_eqb command (lit "run") then
    EdaCommands.run env edaContext commandArgs options
  else if string_eqb command (lit "baseline") then
    if first_is commandArgs (lit "seed") then
      EdaCommands.baselineSeed env edaContext (tail commandArgs) options
    else
      ret (failure (lit "Unknown baseline command. Use /eda:baseline:seed."))
  else if string_eqb command (lit "verify") then
    EdaCommands.verify edaContext commandArgs options
  else if string_eqb command (lit "last") then
    EdaCommands.last edaContext commandArgs options
  else
    ret (failure (lit "Unknown EDA command: " ++ command
                  ++ lit ". Use /eda:help for available commands.")).

(** What [handleEdaCommand] does with the result: the message is
    shown, and a failure with an exit code sets [process.exitCode]. *)
Definition report (result : EdaCommandResult) : M unit :=
  (if negb (Nat.eqb (length (message result)) 0) then
     modify (fun st =>
       with_ui ((if success result then UiInfo (message result)
                 else UiError (message result)) :: ui st) st)
   else ret tt) ;;
  match res_exitCode result with
  | Some c =>
      if negb (success result) && truthy c
      then modify (with_exitCode (Some c))
      else ret tt
  | None => ret tt
  end.

(** Handles EDA commands in the REPL. *)
Definition handleEdaCommand (args : jsstring) : M unit :=
  let edaContext := createEdaContext (process_cwd env) in
  let parsed := parseArgs args in
  result <- commandResult edaContext (pa_command parsed) (pa_args parsed)
              (pa_options parsed) ;;
  report result.

(** The actions of the slash command [createEdaSlashCommand] builds: the
    one of [/eda] itself and those of its sub-commands. *)
Inductive SlashAction : Type :=
  | SlashEda | SlashHelp | SlashRecipeInit | SlashRecipeList | SlashRun
  | SlashBaselineSeed | SlashVerify | SlashLast.

Definition slashAction (action : SlashAction) (args : jsstring) : M unit :=
  match action with
  | SlashEda =>
      let trimmedArgs := trim args in
      if Nat.eqb (length trimmedArgs) 0 then handleEdaCommand (lit "help")
      else handleEdaCommand trimmedArgs
  | SlashHelp => handleEdaCommand (lit "help")
  | SlashRecipeInit => handleEdaCommand (lit "recipe init " ++ args)
  | SlashRecipeList => handleEdaCommand (lit "recipe list")
  | SlashRun => handleEdaCommand (lit "run " ++ args)
  | SlashBaselineSeed => handleEdaCommand (lit "baseline seed")
  | SlashVerify => handleEdaCommand (lit "verify")
  | SlashLast => handleEdaCommand (lit "last")
  end.
End WithEnv.

(** The exit status the process ends with: [process.exitCode], 0 when
    it was never set. *)
Definition exit_status (st : State) : number :=
  default 0%float (process_exitCode st).
End EdaCli.

(** A state in which nothing has happened yet. *)
Definition fresh (files : gmap (list N) FsNode) : State :=
  {| fs := files; ticks := 0; console := []; spawned := []; ui := [];
     process_exitCode := None |}.

(* ===================================================================== *)
(** * What a pattern denotes, and where it occurs *)
(* ===================================================================== *)

Section Denotation.
Variable icase : bool.

(** [matches r m]: the text [m] is matched by [r], whatever the order
    in which a matcher would try the alternatives. *)
Fixpoint matches (r : regex) (m : jsstring) : Prop :=
  match r with
  | REmpty => m = []
  | RChar c => exists x, m = [x] /\ in_class icase c x = true
  | RSeq r1 r2 =>
      exists m1 m2, m = m1 ++ m2 /\ matches r1 m1 /\ matches r2 m2
  | RStar _ c => Forall (fun x => in_class icase c x = true) m
  | ROpt r' => m = [] \/ matches r' m
  | RGroup r' => matches r' m
  end.

(** A match of [r] starts at the head of [t]. *)
Definition occurs_at (r : regex) (t : jsstring) : Prop :=
  exists m rest, t = m ++ rest /\ matches r m.

(** The text [s] has the pattern somewhere. *)
Definition contains (r : regex) (s : jsstring) : Prop :=
  exists pre t, s = pre ++ t /\ occurs_at r t.

(** No match of [r] starts inside [pre] in the text [pre ++ t]: a match
    at the head of [t] is then the first occurrence. *)
Definition none_before (r : regex) (pre t : jsstring) : Prop :=
  forall p1 p2, pre = p1 ++ p2 -> p2 <> [] -> ~ occurs_at r (p2 ++ t).
End Denotation.

(** The same characters up to the case of ASCII letters. *)
Definition same_letters (label l : jsstring) : Prop :=
  map canonicalize l = map canonicalize label.

Definition all_digits (ds : jsstring) : Prop :=
  Forall (fun x => is_digit x = true) ds.

Definition all_spaces (ws : jsstring) : Prop :=
  Forall (fun x => is_space x = true) ws.

(** The text does not go on with a digit. *)
Definition no_digit_ahead (rest : jsstring) : Prop :=
  match rest with
  | x :: _ => is_digit x = false
  | [] => True
  end.

(** [t] starts with the label in any case, white space, and the whole
    run of digits [ds]; [rest] is what follows. *)
Definition labelled_int_at (label t ds rest : jsstring) : Prop :=
  exists l ws,
    t = l ++ ws ++ ds ++ rest /\ same_letters label l /\ all_spaces ws
    /\ all_digits ds /\ ds <> [] /\ no_digit_ahead rest.

(** The occurrences of ["Warning: <integer>"] in a text, left to right and
    not overlapping, each with the digits it captures. *)
Inductive warning_occurrences : jsstring -> list jsstring -> Prop :=
  | wo_none s :
      ~ contains true YosysParser.WARNINGS_PATTERN s ->
      warning_occurrences s []
  | wo_next pre t ds rest caps :
      none_before true YosysParser.WARNINGS_PATTERN pre t ->
      labelled_int_at (lit "Warning:") t ds rest ->
      warning_occurrences rest caps ->
      warning_occurrences (pre ++ t) (ds :: caps).

(** The sum of the captured integers, added in order from 0. *)
Definition sum_of_integers (caps : list jsstring) : number :=
  fold_left (fun acc ds => (acc + Z2float (digits_value ds))%float) caps 0%float.




(** The round trip as it would read were the patterns matched on
    stdout directly followed by stderr: the cells of the record are the
    integer of the first occurrence of the cells pattern in that text. *)
Definition plain_concatenation_round_trip : Prop :=
  forall (out : EdaYosysOutput) pc tc dc rc,
    let buf := stdout out ++ stderr out in
    buf = pc ++ tc ->
    none_before true YosysParser.CELLS_PATTERN pc tc ->
    labelled_int_at (lit "Number of cells:") tc dc rc ->
    contains true YosysParser.LEVELS_PATTERN buf ->
    pm_cells <$> YosysParser.parseMetrics out
    = Some (Z2float (digits_value dc)).

(** A decidable form of [none_before], by running the matcher. *)
Fixpoint none_before_b (icase : bool) (r : regex) (pre t : jsstring) : bool :=
  match pre with
  | [] => true
  | _ :: pre' =>
      match match_here icase r (pre ++ t) with
      | None => none_before_b icase r pre' t
      | Some _ => false
      end
  end.

(* ===================================================================== *)
(** * Notions the proofs about the matcher use *)
(* ===================================================================== *)

(** Whether the continuation fails does not depend on the capture. *)
Definition cap_blind {R} (k : @cont R) : Prop :=
  forall s c1 c2, k s c1 = None -> k s c2 = None.

(** The text does not go on with a character of the class. *)
Definition not_ahead (icase : bool) (c : cclass) (rest : jsstring) : Prop :=
  match rest with
  | x :: _ => in_class icase c x = false
  | [] => True
  end.



(* ===================================================================== *)
(** * Sample texts *)
(* ===================================================================== *)

Definition sample_output : EdaYosysOutput :=
  {| stdout := lit "Number of cells: 200";
     stderr := lit "Longest path (levels): 15";
     exitCode := 0; duration := 1000 |}.

Definition boundary_output : EdaYosysOutput :=
  {| stdout := lit "Number of cells: 1";
     stderr := lit "2 Longest path (levels): 3";
     exitCode := 0; duration := 1000 |}.

Definition invalid_output : EdaYosysOutput :=
  {| stdout := lit "Invalid output"; stderr := [];
     exitCode := 0; duration := 1000 |}.

Definition two_warnings : jsstring :=
  lit "Warning: 2" ++ LF :: lit "Warning: 1".


(** The baseline record [baselineSeed] builds from a result. *)
Definition baseline_of (result : EdaResult) : EdaBaseline :=
  {| b_metrics := metrics result;
     b_timestamp_utc := timestamp_utc (provenance result);
     b_run_info :=
       {| ri_script_path := script_path (run_record result);
          ri_seed := seed (run_record result) |} |}.


(* ===================================================================== *)
(** * Sample runs *)
(* ===================================================================== *)

Definition sample_metrics (c l : number) : EdaMetrics :=
  {| cells := c; levels := l; area_um2 := None; warnings := Some 0%float;
     wns_ns := None; tns_ns := None; utilization_pct := None |}.

(** The exit code of a command result: the one it carries, and 0, the
    status a process ends with when none is set, otherwise. *)
Definition outcome_code (r : EdaCommandResult) : number :=
  default 0%float (res_exitCode r).

(** [keeping f P c]: the computation leaves the part [f] of the state
    alone, and what it returns, when it returns, satisfies [P]. *)
Definition keeping {X A} (f : State -> X) (P : A -> Prop) (c : M A) : Prop :=
  forall st out st',
    c st = (out, st') ->
    f st' = f st /\ match out with inr x => P x | inl _ => True end.

(** A part of the state that the clock and the console do not touch. *)
Class Unaffected {X} (f : State -> X) : Prop := {
  unaffected_ticks : forall x st, f (with_ticks x st) = f st;
  unaffected_console : forall x st, f (with_console x st) = f st;
}.

(** A part of the state that does not depend on the file system. *)
Class FsUnaffected {X} (f : State -> X) : Prop :=
  unaffected_fs : forall x st, f (with_fs x st) = f st.

(** A part of the state that starting a child does not touch. *)
Class ChildUnaffected {X} (f : State -> X) : Prop :=
  unaffected_spawned : forall x st, f (with_spawned x st) = f st.

(** [settles c]: the computation ends, with a value or with an
    exception. *)
Definition settles {A} (c : M A) : Prop :=
  forall st u st', c st <> (inl (Unsettled u), st').

(** The regular files, with their contents and times. *)
Definition regular_files (st : State) : gmap (list N) (list N * number) :=
  omap (fun n => match n with
                 | RegularFile c m => Some (c, m)
                 | Directory => None
                 end) (fs st).

#[global] Instance exitCode_unaffected : Unaffected process_exitCode.
Proof. split; reflexivity. Qed.

#[global] Instance exitCode_fs_unaffected : FsUnaffected process_exitCode.
Proof. intros x st. reflexivity. Qed.

#[global] Instance exitCode_child_unaffected : ChildUnaffected process_exitCode.
Proof. intros x st. reflexivity. Qed.

#[global] Instance spawned_unaffected : Unaffected spawned.
Proof. split; reflexivity. Qed.

#[global] Instance spawned_fs_unaffected : FsUnaffected spawned.
Proof. intros x st. reflexivity. Qed.

#[global] Instance regular_files_unaffected : Unaffected regular_files.
Proof. split; reflexivity. Qed.

#[global] Instance regular_files_child_unaffected :
  ChildUnaffected regular_files.
Proof. intros x st. reflexivity. Qed.

Abbreviation returning := (keeping process_exitCode).

(** The result says 0 when the command succeeded and 1 when it failed,
    and carries no other code. *)
Definition well_coded (r : EdaCommandResult) : Prop :=
  outcome_code r = (if success r then 0 else 1)%float
  /\ (res_exitCode r = None \/ res_exitCode r = Some 0%float
      \/ res_exitCode r = Some 1%float).

(** A rejection is a result like any other: it carries the comparison,
    reports failure and has exit code 1. *)
Definition rejection_delivered (r : EdaCommandResult) : Prop :=
  forall v, data r = Some (DataVerification v) ->
    success r = accepted v /\ message r = v_message v
    /\ res_exitCode r = Some (if accepted v then 0 else 1)%float.

Definition sound_outcome (r : EdaCommandResult) : Prop :=
  well_coded r /\ rejection_delivered r.

Definition sample_result : EdaResult :=
  {| provenance :=
       {| tool := lit "yosys"; tool_version := lit "Yosys 0.33";
          git_commit := None; timestamp_utc := lit "2025-01-01T00:00:00.000Z";
          host := lit "host"; os := lit "linux-x64";
          gemini_eda_version := EDA_VERSION |};
     run_record :=
       {| script_path := lit "/w/recipes/synth_resyn2.ys"; seed := Some 1%float;
          cwd := lit "/w"; cmd := lit "yosys -s /w/recipes/synth_resyn2.ys";
          duration_ms := 1000; exit_code := 0 |};
     metrics := sample_metrics 100 10;
     artifacts :=
       {| log_path := lit "/w/.gemini_eda/logs/yosys.log";
          output_netlist := Some (lit "build/top.synth.v") |} |}.

(** The same run with one cell more. *)
Definition regressed_result : EdaResult :=
  {| provenance := provenance sample_result;
     run_record := run_record sample_result;
     metrics := sample_metrics 101 10;
     artifacts := artifacts sample_result |}.

Definition sample_baseline : EdaBaseline :=
  {| b_metrics := sample_metrics 100 10;
     b_timestamp_utc := lit "2025-01-01T00:00:00.000Z";
     b_run_info := {| ri_script_path := lit "/w/recipes/synth_resyn2.ys";
                      ri_seed := Some 1%float |} |}.

(** A runtime for the sample runs: the documents are the three texts
    below, anything else is rejected. *)
Definition sample_runtime : Runtime :=
  {| json_result :=
       {| JSON_parse := fun s =>
            if string_eqb s (lit "{result}") then inr sample_result
            else if string_eqb s (lit "{regressed}") then inr regressed_result
            else inl (lit "SyntaxError: Unexpected token");
          JSON_stringify := fun _ => lit "{result}" |};
     json_baseline :=
       {| JSON_parse := fun s =>
            if string_eqb s (lit "{baseline}") then inr sample_baseline
            else inl (lit "SyntaxError: Unexpected token");
          JSON_stringify := fun _ => lit "{baseline}" |};
     toString_other := fun _ => lit "?";
     toISOString := fun _ => lit "2025-01-01T00:00:00.000Z" |}.

(** A machine on which everything works and the tool prints [child]. *)
Definition sample_env (child : ChildRun) : Env :=
  {| process_cwd := lit "/w";
     path_resolve := fun p => p;
     time_at := fun n => Z2float (1000 * Z.of_nat n);
     write_error := fun _ => None;
     mkdir_error := fun _ => None;
     readdir_result := fun _ => inr [];
     yosys_available := true;
     yosys_run := fun _ => child;
     env_git_commit := None;
     env_hostname := lit "host";
     env_platform := lit "linux";
     env_arch := lit "x64" |}.

(** A project with its sources directory and the default recipe. *)
Definition sample_project : gmap (list N) FsNode :=
  <[lit "/w/rtl" := Directory]>
    (<[lit "/w/recipes" := Directory]>
       (<[lit "/w/recipes/synth_resyn2.ys"
          := RegularFile DEFAULT_RECIPE_CONTENT 0%float]> ∅)).

(** The tool's report of 200 cells and 15 levels, in two chunks, ended
    as the child run says. *)
Definition reporting (s : ChildSettle) : ChildRun :=
  {| stdout_chunks := [lit "Number of cells: 200" ++ [LF];
                       lit "Longest path (levels): 15" ++ [LF]];
     stderr_chunks := [];
     child_files :=
       fun files =>
         <[lit "/w/build/top.synth.v"
           := RegularFile (lit "module top();") 0%float]> files;
     settle := s |}.

(** Output the extractor does not understand, from a tool that exits
    with 0. *)
Definition unparseable : ChildRun :=
  {| stdout_chunks := [lit "Invalid output"]; stderr_chunks := [];
     child_files := fun files => files;
     settle := OnClose (Some 0%float) |}.

(** The project after a run: the last result is on disk. *)
Definition project_with_result : gmap (list N) FsNode :=
  <[lit "/w/.gemini_eda/last_run/result.json"
    := RegularFile (lit "{result}") 0%float]> sample_project.

(** A project with a baseline, whose last run has one cell more. *)
Definition regressed_project : gmap (list N) FsNode :=
  <[lit "/w/.gemini_eda/baseline.json"
    := RegularFile (lit "{baseline}") 0%float]>
    (<[lit "/w/.gemini_eda/last_run/result.json"
       := RegularFile (lit "{regressed}") 0%float]> sample_project).

Definition seed_option (s : number) : EdaCommandOptions :=
  {| opt_force := None; opt_seed := Some s; opt_verbose := None |}.

(* ===================================================================== *)
(** * Notions the properties of the commands are stated with *)
(* ===================================================================== *)

Definition NO_BASELINE : jsstring :=
  lit "No baseline found. Run /eda:baseline:seed after a successful /eda:run.".

Definition NO_LAST_RUN : jsstring := lit "No last run found. Run /eda:run first.".

(** The result [verify] returns for a comparison. *)
Definition verdict (v : EdaVerificationResult) : EdaCommandResult :=
  {| success := accepted v; message := v_message v;
     data := Some (DataVerification v);
     res_exitCode := Some (if accepted v then 0 else 1)%float |}.

(** The script [run] uses: its first argument, resolved, or the default
    recipe. *)
Definition script_of (env : Env) (ctx : EdaCommandContext)
    (args : list jsstring) : jsstring :=
  match args with
  | a :: _ => path_resolve env a
  | [] => path_join (recipesDir ctx) DEFAULT_RECIPE_NAME
  end.

(** The two checks [run] makes before it looks for the tool: the script
    is a regular file, [rtl/] is a directory, and [recipes/] is not
    something else than a directory. *)
Definition checks_pass (env : Env) (ctx : EdaCommandContext)
    (args : list jsstring) (st : State) : Prop :=
  (exists c m, fs st !! script_of env ctx args = Some (RegularFile c m))
  /\ fs st !! rtlDir ctx = Some Directory
  /\ (forall c m, fs st !! recipesDir ctx <> Some (RegularFile c m)).

(** The state once a probe of parser.ts has started its child. *)
Definition probing (st : State) : State :=
  with_spawned ([lit "-V"] :: spawned st) st.

(** The netlist path a script names, as [extractOutputNetlist] reads
    it. *)
Definition netlist_in (content : jsstring) : option jsstring :=
  match regex_exec false EdaCommands.NETLIST_PATTERN content with
  | Some (cap, _) => cap
  | None => None
  end.

(** The lines [recipeList] shows for recipes whose times are dates,
    numbered from [index] on. *)
Fixpoint listed_lines `{Runtime} (index : nat) (recipes : list EdaRecipe)
    : list jsstring :=
  match recipes with
  | [] => []
  | recipe :: rest =>
      (Number_toString (Z2float (Z.of_nat index + 1)) ++ lit ". "
       ++ rc_name recipe ++ lit " ("
       ++ before_char 84 (toISOString (rc_lastModified recipe)) ++ lit ")")
      :: listed_lines (S index) rest
  end.

(** What is at a path. *)
Definition file_at (p : jsstring) (st : State) : option FsNode := fs st !! p.

#[global] Instance file_at_unaffected p : Unaffected (file_at p).
Proof. split; reflexivity. Qed.

#[global] Instance file_at_child_unaffected p : ChildUnaffected (file_at p).
Proof. intros x st. reflexivity. Qed.

#[global] Instance ui_child_unaffected : ChildUnaffected ui.
Proof. intros x st. reflexivity. Qed.

#[global] Instance ui_unaffected : Unaffected ui.
Proof. split; reflexivity. Qed.

#[global] Instance ui_fs_unaffected : FsUnaffected ui.
Proof. intros x st. reflexivity. Qed.

(** The five directories [ensureDirectories] makes. *)
Definition working_directories (ctx : EdaCommandContext) : list jsstring :=
  [edaDir ctx; logsDir ctx; lastRunDir ctx; recipesDir ctx; buildDir ctx].

(** Every directory that making [dirs] touches: each of them, after the
    directories on the way to it. *)
Definition made (dirs : list jsstring) : list jsstring :=
  concat (lineage <$> dirs).

(** A word that [parseArgs] reads as an option, or as the start of
    one. *)
Definition option_word (w : jsstring) : bool :=
  string_eqb w (lit "--force") || string_eqb w (lit "--verbose")
  || string_eqb w (lit "--seed") || startsWith w (lit "--seed=").

(** A word of a command line: not empty, and without white space. *)
Definition word (w : jsstring) : Prop :=
  w <> [] /\ Forall (fun x => is_space x = false) w.

(* ===================================================================== *)
(** * The matcher finds what the pattern denotes *)
(* ===================================================================== *)

Section MatcherFacts.
Variable icase : bool.
Context {R : Type}.
Implicit Types (k : @cont R) (s m rest : jsstring) (cap : option jsstring).

Lemma star_greedy_None c k s cap :
  cap_blind k ->
  star_greedy icase c k s cap = None <->
  (forall m rest c', s = m ++ rest ->
     Forall (fun x => in_class icase c x = true) m -> k rest c' = None).
Proof.
  intros Hk. induction s as [|x t IH]; simpl.
  - split.
    + intros H m rest c' Heq _. symmetry in Heq.
      apply app_eq_nil in Heq as [-> ->]. eauto.
    + intros H. apply (H [] [] cap); auto.
  - destruct (in_class icase c x) eqn:Hx.
    + destruct (star_greedy icase c k t cap) eqn:Ht.
      * split; [discriminate|]. intros H.
        assert (Hn : Some r = None); [|discriminate].
        apply IH. intros m rest c' -> Hm.
        apply (H (x :: m) rest c'); auto.
      * split.
        -- intros Hkx m rest c' Heq Hm. destruct m as [|y m'].
           ++ simpl in Heq. subst rest. eauto.
           ++ simpl in Heq. injection Heq as <- ->.
              apply Forall_cons in Hm as [_ Hm].
              destruct IH as [IH _]. eapply IH; eauto.
        -- intros H. apply (H [] (x :: t) cap); auto.
    + split.
      * intros Hkx m rest c' Heq Hm. destruct m as [|y m'].
        -- simpl in Heq. subst rest. eauto.
        -- simpl in Heq. injection Heq as <- ->.
           apply Forall_cons in Hm as [Hy _]. congruence.
      * intros H. apply (H [] (x :: t) cap); auto.
Qed.

Lemma star_lazy_None c k s cap :
  cap_blind k ->
  star_lazy icase c k s cap = None <->
  (forall m rest c', s = m ++ rest ->
     Forall (fun x => in_class icase c x = true) m -> k rest c' = None).
Proof.
  intros Hk. induction s as [|x t IH]; simpl.
  - destruct (k [] cap) eqn:Hk0.
    + split; [discriminate|]. intros H.
      assert (k [] cap = None) by (apply (H [] []); auto). congruence.
    + split; auto. intros _ m rest c' Heq _. symmetry in Heq.
      apply app_eq_nil in Heq as [-> ->]. eauto.
  - destruct (k (x :: t) cap) eqn:Hk0.
    + split; [discriminate|]. intros H.
      assert (k (x :: t) cap = None) by (apply (H [] (x :: t)); auto).
      congruence.
    + destruct (in_class icase c x) eqn:Hx.
      * split.
        -- intros Ht m rest c' Heq Hm. destruct m as [|y m'].
           ++ simpl in Heq. subst rest. eauto.
           ++ simpl in Heq. injection Heq as <- ->.
              apply Forall_cons in Hm as [_ Hm].
              destruct IH as [IH _]. eapply IH; eauto.
        -- intros H. apply IH. intros m rest c' -> Hm.
           apply (H (x :: m) rest c'); auto.
      * split; auto. intros _ m rest c' Heq Hm. destruct m as [|y m'].
        -- simpl in Heq. subst rest. eauto.
        -- simpl in Heq. injection Heq as <- ->.
           apply Forall_cons in Hm as [Hy _]. congruence.
Qed.

(** Completeness and soundness of the matcher, as far as failure goes:
    it fails exactly when no text the pattern denotes leads to a
    continuation that succeeds. *)
Lemma rmatch_None r : forall k s cap,
  cap_blind k ->
  rmatch icase r k s cap = None <->
  (forall m rest c', s = m ++ rest -> matches icase r m -> k rest c' = None).
Proof.
  induction r as [|c|r1 IH1 r2 IH2|g c|r IH|r IH]; intros k s cap Hk; simpl.
  - split.
    + intros H m rest c' -> ->. simpl. eauto.
    + intros H. apply (H [] s cap); auto.
  - destruct s as [|x t].
    + split; auto. intros _ m rest c' Heq (y & -> & _). discriminate.
    + destruct (in_class icase c x) eqn:Hx.
      * split.
        -- intros H m rest c' Heq (y & -> & _). injection Heq as <- <-. eauto.
        -- intros H. apply (H [x] t cap); eauto.
      * split; auto. intros _ m rest c' Heq (y & -> & Hy).
        injection Heq as <- <-. congruence.
  - assert (Hk2 : cap_blind (rmatch icase r2 k)).
    { intros s0 c1 c2 H0. apply (IH2 k s0 c2 Hk).
      apply (IH2 k s0 c1 Hk). exact H0. }
    rewrite (IH1 _ s cap Hk2). split.
    + intros H m rest c' -> (m1 & m2 & -> & Hm1 & Hm2).
      specialize (H m1 (m2 ++ rest) c'). rewrite <- app_assoc in H.
      specialize (H eq_refl Hm1).
      apply (IH2 k (m2 ++ rest) c' Hk) with (m := m2); auto.
    + intros H m1 rest1 c1 -> Hm1. apply (IH2 k rest1 c1 Hk).
      intros m2 rest c' -> Hm2. apply (H (m1 ++ m2) rest c').
      * now rewrite app_assoc.
      * exists m1, m2; auto.
  - destruct g; [apply star_greedy_None | apply star_lazy_None]; auto.
  - destruct (rmatch icase r k s cap) eqn:Hr.
    + split; [discriminate|]. intros H.
      assert (Hn : rmatch icase r k s cap = None); [|congruence].
      apply (IH k s cap Hk). intros m rest c' Heq Hm. eapply H; eauto.
    + split.
      * intros Hks m rest c' Heq [-> | Hm].
        -- simpl in Heq. subst rest. eauto.
        -- destruct (IH k s cap Hk) as [IH' _]. eapply IH'; eauto.
      * intros H. apply (H [] s cap); auto.
  - set (k' := fun s' (_ : option jsstring) =>
                 k s' (Some (take (length s - length s') s))).
    assert (Hk' : cap_blind k') by (intros s0 c1 c2 H0; exact H0).
    rewrite (IH k' s cap Hk'). unfold k'. split.
    + intros H m rest c' Heq Hm. eapply Hk. eapply (H m rest c'); eauto.
    + intros H m rest c' Heq Hm. eapply H; eauto.
Qed.
End MatcherFacts.

(** A match the matcher reports is one the pattern denotes. *)
Lemma star_greedy_sound icase {R} c (k : @cont R) s cap x :
  star_greedy icase c k s cap = Some x ->
  exists m rest,
    s = m ++ rest /\ Forall (fun y => in_class icase c y = true) m
    /\ k rest cap = Some x.
Proof.
  induction s as [|y t IH]; simpl.
  - intros E. exists [], []. auto.
  - destruct (in_class icase c y) eqn:Hy.
    + destruct (star_greedy icase c k t cap) as [r|] eqn:Et.
      * intros E. injection E as ->.
        destruct (IH eq_refl) as (m & rest & -> & Hm & Hk).
        exists (y :: m), rest. auto.
      * intros E. exists [], (y :: t). auto.
    + intros E. exists [], (y :: t). auto.
Qed.

Lemma star_lazy_sound icase {R} c (k : @cont R) s cap x :
  star_lazy icase c k s cap = Some x ->
  exists m rest,
    s = m ++ rest /\ Forall (fun y => in_class icase c y = true) m
    /\ k rest cap = Some x.
Proof.
  induction s as [|y t IH]; simpl.
  - destruct (k [] cap) eqn:Ek; [|discriminate].
    intros E. injection E as ->. exists [], []. auto.
  - destruct (k (y :: t) cap) eqn:Ek.
    + intros E. injection E as ->. exists [], (y :: t). auto.
    + destruct (in_class icase c y) eqn:Hy; [|discriminate].
      intros E. destruct (IH E) as (m & rest & -> & Hm & Hk).
      exists (y :: m), rest. auto.
Qed.

Lemma rmatch_sound icase {R} r : forall (k : @cont R) s cap x,
  rmatch icase r k s cap = Some x ->
  exists m rest c',
    s = m ++ rest /\ matches icase r m /\ k rest c' = Some x.
Proof.
  induction r as [|c|r1 IH1 r2 IH2|g c|r IH|r IH]; intros k s cap x; simpl.
  - intros E. exists [], s, cap. auto.
  - destruct s as [|y t]; [discriminate|].
    destruct (in_class icase c y) eqn:Hy; [|discriminate].
    intros E. exists [y], t, cap. eauto.
  - intros E. destruct (IH1 _ _ _ _ E) as (m1 & rest1 & c1 & -> & Hm1 & E2).
    destruct (IH2 _ _ _ _ E2) as (m2 & rest & c2 & -> & Hm2 & Ek).
    exists (m1 ++ m2), rest, c2. rewrite <- app_assoc. eauto 7.
  - destruct g; intros E;
      [apply star_greedy_sound in E | apply star_lazy_sound in E];
      destruct E as (m & rest & -> & Hm & Hk); exists m, rest, cap; auto.
  - destruct (rmatch icase r k s cap) as [y|] eqn:Er.
    + intros E. injection E as ->.
      destruct (IH _ _ _ _ Er) as (m & rest & c' & -> & Hm & Hk).
      exists m, rest, c'. auto.
    + intros E. exists [], s, cap. auto.
  - intros E. destruct (IH _ _ _ _ E) as (m & rest & c' & -> & Hm & Hk).
    eauto 7.
Qed.

Lemma match_here_sound icase r s cap rest :
  match_here icase r s = Some (cap, rest) ->
  exists m, s = m ++ rest /\ matches icase r m.
Proof.
  intros E. apply rmatch_sound in E as (m & rest' & c' & -> & Hm & Hk).
  injection Hk as _ <-. eauto.
Qed.

(** No match starts here exactly when the pattern denotes no prefix. *)
Lemma match_here_None icase r s :
  match_here icase r s = None <-> ~ occurs_at icase r s.
Proof.
  unfold match_here. rewrite rmatch_None.
  - split.
    + intros H (m & rest & Heq & Hm). specialize (H m rest None Heq Hm).
      discriminate.
    + intros H m rest c' Heq Hm. exfalso. apply H. exists m, rest; auto.
  - intros s0 c1 c2 H. discriminate.
Qed.

Lemma match_here_Some icase r s :
  occurs_at icase r s -> exists x, match_here icase r s = Some x.
Proof.
  intros H. destruct (match_here icase r s) eqn:E; eauto.
  apply match_here_None in E. contradiction.
Qed.

Lemma contains_here icase r s : occurs_at icase r s -> contains icase r s.
Proof. intros H. exists [], s. auto. Qed.

Lemma contains_later icase r x t :
  contains icase r t -> contains icase r (x :: t).
Proof. intros (pre & u & -> & H). exists (x :: pre), u. auto. Qed.

Lemma contains_cons icase r x t :
  contains icase r (x :: t) -> occurs_at icase r (x :: t) \/ contains icase r t.
Proof.
  intros (pre & u & Heq & H). destruct pre as [|y pre'].
  - left. simpl in Heq. now subst u.
  - right. simpl in Heq. injection Heq as _ ->. exists pre', u. auto.
Qed.

(** [exec] fails exactly on the texts that do not contain the pattern. *)
Lemma regex_exec_None icase r s :
  regex_exec icase r s = None <-> ~ contains icase r s.
Proof.
  induction s as [|x t IH]; simpl.
  - destruct (match_here icase r []) eqn:E.
    + split; [discriminate|]. intros H.
      assert (En : match_here icase r [] = None); [|congruence].
      apply match_here_None. intros Ho. apply H. now apply contains_here.
    + split; auto. intros _ (pre & u & Heq & H). symmetry in Heq.
      apply app_eq_nil in Heq as [-> ->].
      apply match_here_None in E. contradiction.
  - destruct (match_here icase r (x :: t)) eqn:E.
    + split; [discriminate|]. intros H.
      assert (En : match_here icase r (x :: t) = None); [|congruence].
      apply match_here_None. intros Ho. apply H. now apply contains_here.
    + rewrite IH. apply match_here_None in E. split.
      * intros Ht Hc. apply contains_cons in Hc as [Hc | Hc]; contradiction.
      * intros H Hc. apply H. now apply contains_later.
Qed.

Lemma regex_exec_Some icase r s :
  contains icase r s -> exists x, regex_exec icase r s = Some x.
Proof.
  intros H. destruct (regex_exec icase r s) eqn:E; eauto.
  apply regex_exec_None in E. contradiction.
Qed.

(** [exec] returns the match at the first position that has one. *)
Lemma regex_exec_first icase r pre t x :
  none_before icase r pre t ->
  match_here icase r t = Some x ->
  regex_exec icase r (pre ++ t) = Some x.
Proof.
  induction pre as [|a pre IH]; intros Hb Hm.
  - simpl. destruct t; simpl; now rewrite Hm.
  - simpl. assert (E : match_here icase r (a :: pre ++ t) = None).
    { apply match_here_None. now apply (Hb [] (a :: pre)). }
    rewrite E. apply IH; auto.
    intros p1 p2 -> Hp2. apply (Hb (a :: p1) p2); auto.
Qed.

(* --------------------------------------------------------------------- *)
(** ** How the matcher runs on the shapes the patterns have *)

Section MatcherRuns.
Variable icase : bool.
Context {R : Type}.
Implicit Types (k : @cont R) (s rest : jsstring) (cap : option jsstring).

Lemma star_greedy_stop c k rest cap :
  not_ahead icase c rest -> star_greedy icase c k rest cap = k rest cap.
Proof. destruct rest as [|x t]; simpl; auto. now intros ->. Qed.

(** A greedy star keeps the longest run when what follows succeeds. *)
Lemma star_greedy_app_Some c k ds rest cap r :
  Forall (fun x => in_class icase c x = true) ds ->
  star_greedy icase c k rest cap = Some r ->
  star_greedy icase c k (ds ++ rest) cap = Some r.
Proof.
  intros Hds Hr. induction Hds as [|x ds Hx _ IH]; simpl; auto.
  now rewrite Hx, IH.
Qed.

Lemma star_greedy_run c k ds rest cap r :
  Forall (fun x => in_class icase c x = true) ds ->
  not_ahead icase c rest ->
  k rest cap = Some r ->
  star_greedy icase c k (ds ++ rest) cap = Some r.
Proof.
  intros Hds Hn Hr. apply star_greedy_app_Some; auto.
  now rewrite star_greedy_stop.
Qed.


Lemma rmatch_plus_run c k d ds rest cap r :
  in_class icase c d = true ->
  Forall (fun x => in_class icase c x = true) ds ->
  not_ahead icase c rest ->
  k rest cap = Some r ->
  rmatch icase (RPlus c) k (d :: ds ++ rest) cap = Some r.
Proof.
  intros Hd Hds Hn Hr. simpl. rewrite Hd. now apply star_greedy_run.
Qed.
End MatcherRuns.

Lemma rmatch_RLit {R} (k : @cont R) label : forall l rest cap,
  same_letters label l ->
  rmatch true (RLit label) k (l ++ rest) cap = k rest cap.
Proof.
  unfold same_letters.
  induction label as [|c label IH]; intros l rest cap Hl.
  - destruct l; [reflexivity | discriminate].
  - destruct l as [|x l]; [discriminate|]. simpl in Hl.
    injection Hl as Hx Hl. simpl. rewrite Hx, N.eqb_refl. now apply IH.
Qed.

Lemma take_length_diff {A} (a b : list A) :
  take (length (a ++ b) - length b) (a ++ b) = a.
Proof.
  rewrite length_app.
  replace (length a + length b - length b) with (length a) by lia.
  apply take_app_length.
Qed.

Ltac char_facts :=
  unfold is_digit, is_space, is_line_terminator, canonicalize in *;
  repeat match goal with
  | H : _ && _ = true |- _ => apply andb_true_iff in H as [? ?]
  | H : _ || _ = true |- _ => apply orb_true_iff in H as [? | ?]
  | H : (_ <=? _)%N = true |- _ => apply N.leb_le in H
  | H : (_ =? _)%N = true |- _ => apply N.eqb_eq in H
  | H : (_ =? _)%N = false |- _ => apply N.eqb_neq in H
  end.

Lemma digit_not_space x : is_digit x = true -> is_space x = false.
Proof.
  intros H. char_facts. unfold is_space, is_line_terminator.
  repeat match goal with
  | |- context [(?a =? ?b)%N] =>
      destruct (N.eqb_spec a b); [lia|]
  | |- context [(?a <=? ?b)%N] =>
      destruct (N.leb_spec a b); [lia|]
  end. reflexivity.
Qed.

(** A labelled integer at the head of the text: the label is read in any
    case, the white space is passed, and the whole run of digits is
    captured. *)
Lemma match_here_labelled label t ds rest :
  labelled_int_at label t ds rest ->
  match_here true
    (RSeq (RLit label) (RSeq (RStar true CSpace) (RGroup (RPlus CDigit)))) t
  = Some (Some ds, rest).
Proof.
  intros (l & ws & -> & Hl & Hws & Hds & Hne & Hrest).
  unfold match_here. cbn [rmatch]. rewrite rmatch_RLit by exact Hl.
  destruct ds as [|d ds]; [contradiction|].
  apply Forall_cons in Hds as [Hd Hds].
  apply star_greedy_run; auto.
  - simpl. now apply digit_not_space.
  - change (rmatch true (RPlus CDigit)
              (fun s' _ => accept s'
                 (Some (take (length ((d :: ds) ++ rest) - length s')
                          ((d :: ds) ++ rest))))
              (d :: ds ++ rest) None = Some (Some (d :: ds), rest)).
    apply rmatch_plus_run.
    + exact Hd.
    + exact Hds.
    + destruct rest; simpl; auto.
    + unfold accept. now rewrite take_length_diff.
Qed.

(** A match [exec] reports sits at the first position that has one. *)
Lemma regex_exec_Some_inv icase r s x :
  regex_exec icase r s = Some x ->
  exists pre t,
    s = pre ++ t /\ none_before icase r pre t /\ match_here icase r t = Some x.
Proof.
  induction s as [|a s IH]; simpl.
  - destruct (match_here icase r []) eqn:E; [|discriminate].
    intros E'. injection E' as ->. exists [], []. split; [reflexivity|].
    split; [|exact E]. intros p1 p2 Hp Hne. symmetry in Hp.
    apply app_eq_nil in Hp as [_ ->]. contradiction.
  - destruct (match_here icase r (a :: s)) eqn:E.
    + intros E'. injection E' as ->. exists [], (a :: s).
      split; [reflexivity|]. split; [|exact E]. intros p1 p2 Hp Hne.
      symmetry in Hp. apply app_eq_nil in Hp as [_ ->]. contradiction.
    + intros E'. destruct (IH E') as (pre & t & -> & Hb & Hm).
      exists (a :: pre), t. split; [reflexivity|]. split; [|exact Hm].
      intros p1 p2 Hp Hne. destruct p1 as [|b p1].
      * simpl in Hp. subst p2. now apply match_here_None.
      * simpl in Hp. injection Hp as _ ->. now apply (Hb p1 p2).
Qed.

Lemma regex_exec_contains icase r s x :
  regex_exec icase r s = Some x -> contains icase r s.
Proof.
  intros E. apply regex_exec_Some_inv in E as (pre & t & -> & _ & Hm).
  destruct x as [cap rest]. apply match_here_sound in Hm as (m & -> & Hm).
  exists pre, (m ++ rest). split; [reflexivity|]. exists m, rest. auto.
Qed.

(* ===================================================================== *)
(** * parser.ts: what the extractors return *)
(* ===================================================================== *)

Lemma none_before_b_sound icase r pre t :
  none_before_b icase r pre t = true -> none_before icase r pre t.
Proof.
  induction pre as [|a pre IH]; intros Hb p1 p2 Heq Hp2.
  - symmetry in Heq. apply app_eq_nil in Heq as [_ ->]. contradiction.
  - simpl in Hb.
    destruct (match_here icase r (a :: pre ++ t)) eqn:E; [discriminate|].
    destruct p1 as [|b p1].
    + simpl in Heq. subst p2. now apply match_here_None.
    + simpl in Heq. injection Heq as _ ->. now apply (IH Hb p1 p2).
Qed.

Lemma take_while_all {A} (p : A -> bool) (l rest : list A) :
  Forall (fun x => p x = true) l ->
  match rest with x :: _ => p x = false | [] => True end ->
  take_while p (l ++ rest) = l /\ drop_while p (l ++ rest) = rest.
Proof.
  intros Hl Hr. induction Hl as [|x l Hx _ [IH1 IH2]]; simpl.
  - destruct rest as [|y rest]; simpl; auto. now rewrite Hr.
  - rewrite Hx. now rewrite IH1, IH2.
Qed.

(** On a run of digits [parseInt] returns the Number value of the integer
    they spell. *)
Lemma parseInt10_digits ds :
  all_digits ds -> ds <> [] -> parseInt10 ds = Z2float (digits_value ds).
Proof.
  intros Hds Hne. destruct ds as [|d ds]; [contradiction|].
  pose proof Hds as Hall. apply Forall_cons in Hds as [Hd _].
  unfold parseInt10. simpl drop_while. rewrite (digit_not_space d Hd).
  unfold strip_sign.
  assert (E45 : (d =? 45)%N = false) by (apply N.eqb_neq; char_facts; lia).
  assert (E43 : (d =? 43)%N = false) by (apply N.eqb_neq; char_facts; lia).
  rewrite E45, E43.
  destruct (take_while_all is_digit (d :: ds) [] Hall I) as [Ht _].
  rewrite app_nil_r in Ht. rewrite Ht. reflexivity.
Qed.

(** On a decimal number as the area pattern captures it, [parseFloat]
    returns the Number value of that decimal. *)
Lemma parseFloat_decimal ip fp :
  all_digits ip -> ip <> [] -> all_digits fp ->
  parseFloat (ip ++ match fp with [] => [] | _ => 46%N :: fp end)
  = decimal2float (digits_value (ip ++ fp)) (- Z.of_nat (length fp)).
Proof.
  intros Hip Hne Hfp. destruct ip as [|d ip]; [contradiction|].
  pose proof Hip as Hall. apply Forall_cons in Hip as [Hd _].
  assert (E45 : (d =? 45)%N = false) by (apply N.eqb_neq; char_facts; lia).
  assert (E43 : (d =? 43)%N = false) by (apply N.eqb_neq; char_facts; lia).
  assert (E73 : (d =? 73)%N = false) by (apply N.eqb_neq; char_facts; lia).
  set (rest := match fp with [] => [] | _ => 46%N :: fp end).
  assert (Hrest : match rest with x :: _ => is_digit x = false | [] => True end).
  { unfold rest. destruct fp; simpl; auto. }
  destruct (take_while_all is_digit (d :: ip) rest Hall Hrest) as [Ht Hdr].
  unfold parseFloat. cbn [app drop_while]. rewrite (digit_not_space d Hd).
  unfold strip_sign. rewrite E45, E43.
  change (lit "Infinity") with (73%N :: lit "nfinity").
  cbn [startsWith]. rewrite E73. cbn [andb].
  change (d :: ip ++ rest) with ((d :: ip) ++ rest). rewrite Ht, Hdr.
  unfold rest. destruct fp as [|f fp].
  - rewrite !app_nil_r. cbn. reflexivity.
  - destruct (take_while_all is_digit (f :: fp) [] Hfp I) as [Ht2 Hd2].
    rewrite app_nil_r in Ht2, Hd2. rewrite Ht2, Hd2.
    cbn [app exponent_part].
    replace (0 - Z.of_nat (length (f :: fp)))%Z
      with (- Z.of_nat (length (f :: fp)))%Z by lia.
    reflexivity.
Qed.

Example parseFloat_1234_5 : parseFloat (lit "1234.5") = 1234.5%float.
Proof. reflexivity. Qed.

Lemma take_drop_while {A} (p : A -> bool) (l : list A) :
  take_while p l ++ drop_while p l = l
  /\ Forall (fun x => p x = true) (take_while p l)
  /\ match drop_while p l with x :: _ => p x = false | [] => True end.
Proof.
  induction l as [|x l (IH1 & IH2 & IH3)]; simpl; auto.
  destruct (p x) eqn:Hx; simpl.
  - rewrite IH1. auto.
  - auto.
Qed.

Lemma matches_RLit label : forall m,
  matches true (RLit label) m -> same_letters label m.
Proof.
  unfold same_letters. induction label as [|c label IH]; simpl.
  - now intros m ->.
  - intros m (m1 & m2 & -> & (x & -> & Hx) & Hm2). simpl in Hx.
    apply N.eqb_eq in Hx. simpl. rewrite Hx. f_equal. now apply IH.
Qed.

Lemma occurs_labelled label t :
  occurs_at true
    (RSeq (RLit label) (RSeq (RStar true CSpace) (RGroup (RPlus CDigit)))) t ->
  exists ds rest, labelled_int_at label t ds rest.
Proof.
  intros (m & rest0 & -> & m1 & m2 & -> & Hl & ws & m3 & -> & Hws & Hg).
  simpl in Hg. destruct Hg as (d1 & ds0 & -> & (d & -> & Hd) & Hds0).
  destruct (take_drop_while is_digit rest0) as (Eapp & Htake & Hdrop).
  exists ((d :: ds0) ++ take_while is_digit rest0), (drop_while is_digit rest0).
  exists m1, ws. split.
  - rewrite <- Eapp at 1. cbn [app]. now rewrite <- !app_assoc.
  - split; [now apply matches_RLit|]. split; [exact Hws|].
    split; [|split; [discriminate | exact Hdrop]].
    apply Forall_app. split; [|exact Htake]. constructor; auto.
Qed.

Lemma labelled_rest_shorter label t ds rest :
  labelled_int_at label t ds rest -> length rest < length t.
Proof.
  intros (l & ws & -> & _ & _ & _ & Hne & _). rewrite !length_app.
  destruct ds; [contradiction|]. simpl. lia.
Qed.

(** A text that contains a labelled integer has a first occurrence of
    it. *)
Lemma first_labelled_occurrence label s :
  contains true
    (RSeq (RLit label) (RSeq (RStar true CSpace) (RGroup (RPlus CDigit)))) s ->
  exists pre t ds rest,
    s = pre ++ t
    /\ none_before true
         (RSeq (RLit label) (RSeq (RStar true CSpace) (RGroup (RPlus CDigit))))
         pre t
    /\ labelled_int_at label t ds rest.
Proof.
  intros Hc. apply regex_exec_Some in Hc as [[cap r0] E].
  apply regex_exec_Some_inv in E as (pre & t & -> & Hb & Hm).
  apply match_here_sound in Hm as (m & -> & Hm).
  assert (Ho : occurs_at true
                 (RSeq (RLit label)
                    (RSeq (RStar true CSpace) (RGroup (RPlus CDigit))))
                 (m ++ r0)) by (exists m, r0; auto).
  apply occurs_labelled in Ho as (ds & rest & Hat).
  exists pre, (m ++ r0), ds, rest. auto.
Qed.

Module ParserFacts.
Import YosysParser.

Lemma extract_labelled_first label s pre t ds rest :
  s = pre ++ t ->
  none_before true
    (RSeq (RLit label) (RSeq (RStar true CSpace) (RGroup (RPlus CDigit))))
    pre t ->
  labelled_int_at label t ds rest ->
  regex_exec true
    (RSeq (RLit label) (RSeq (RStar true CSpace) (RGroup (RPlus CDigit)))) s
  = Some (Some ds, rest).
Proof.
  intros -> Hb Hat. apply regex_exec_first; auto.
  now apply match_here_labelled.
Qed.

Lemma labelled_digits label t ds rest :
  labelled_int_at label t ds rest -> all_digits ds /\ ds <> [].
Proof. intros (l & ws & _ & _ & _ & Hds & Hne & _). auto. Qed.

Lemma extractCells_first s pre t ds rest :
  s = pre ++ t ->
  none_before true CELLS_PATTERN pre t ->
  labelled_int_at (lit "Number of cells:") t ds rest ->
  extractCells s = Some (Z2float (digits_value ds)).
Proof.
  intros Hs Hb Hat. unfold extractCells, CELLS_PATTERN.
  rewrite (extract_labelled_first _ s pre t ds rest Hs Hb Hat).
  destruct (labelled_digits _ _ _ _ Hat). simpl capture_text.
  now rewrite parseInt10_digits.
Qed.

Lemma extractLevels_first s pre t ds rest :
  s = pre ++ t ->
  none_before true LEVELS_PATTERN pre t ->
  labelled_int_at (lit "Longest path (levels):") t ds rest ->
  extractLevels s = Some (Z2float (digits_value ds)).
Proof.
  intros Hs Hb Hat. unfold extractLevels, LEVELS_PATTERN.
  rewrite (extract_labelled_first _ s pre t ds rest Hs Hb Hat).
  destruct (labelled_digits _ _ _ _ Hat). simpl capture_text.
  now rewrite parseInt10_digits.
Qed.

Lemma extractCells_None s :
  extractCells s = None <-> ~ contains true CELLS_PATTERN s.
Proof.
  rewrite <- regex_exec_None. unfold extractCells.
  destruct (regex_exec true CELLS_PATTERN s) as [[cap rest]|];
    split; congruence.
Qed.

Lemma extractLevels_None s :
  extractLevels s = None <-> ~ contains true LEVELS_PATTERN s.
Proof.
  rewrite <- regex_exec_None. unfold extractLevels.
  destruct (regex_exec true LEVELS_PATTERN s) as [[cap rest]|];
    split; congruence.
Qed.

End ParserFacts.

Ltac labelled_here l ws :=
  exists l, ws;
  split; [vm_compute; reflexivity|];
  split; [vm_compute; reflexivity|];
  split; [repeat constructor|];
  split; [repeat constructor|];
  split; [discriminate|];
  vm_compute; auto.

Section ExtractorClaims.
Import YosysParser ParserFacts.

(** C2, as amended.  The patterns are matched on stdout, a line feed,
    then stderr.  When that text contains the cells pattern and the
    levels pattern the extraction succeeds; and when the first
    occurrence of each is spelled out (the label in any case, white
    space, the whole run of digits), the record holds the Number values
    of the two integers, next to what the area and warnings extractors
    return on the same text. *)
Theorem extractor_round_trip (out : EdaYosysOutput) :
  let buf := stdout out ++ LF :: stderr out in
  (contains true CELLS_PATTERN buf -> contains true LEVELS_PATTERN buf ->
   exists pc tc dc rc pl tl dl rl,
     (buf = pc ++ tc /\ none_before true CELLS_PATTERN pc tc
      /\ labelled_int_at (lit "Number of cells:") tc dc rc)
     /\ (buf = pl ++ tl /\ none_before true LEVELS_PATTERN pl tl
         /\ labelled_int_at (lit "Longest path (levels):") tl dl rl)
     /\ parseMetrics out =
          Some {| pm_cells := Z2float (digits_value dc);
                  pm_levels := Z2float (digits_value dl);
                  pm_area_um2 := extractArea buf;
                  pm_warnings := extractWarnings buf |})
  /\ (forall pc tc dc rc pl tl dl rl,
        buf = pc ++ tc ->
        none_before true CELLS_PATTERN pc tc ->
        labelled_int_at (lit "Number of cells:") tc dc rc ->
        buf = pl ++ tl ->
        none_before true LEVELS_PATTERN pl tl ->
        labelled_int_at (lit "Longest path (levels):") tl dl rl ->
        parseMetrics out =
          Some {| pm_cells := Z2float (digits_value dc);
                  pm_levels := Z2float (digits_value dl);
                  pm_area_um2 := extractArea buf;
                  pm_warnings := extractWarnings buf |}).
Proof.
  intros buf.
  assert (Hall : forall pc tc dc rc pl tl dl rl,
        buf = pc ++ tc ->
        none_before true CELLS_PATTERN pc tc ->
        labelled_int_at (lit "Number of cells:") tc dc rc ->
        buf = pl ++ tl ->
        none_before true LEVELS_PATTERN pl tl ->
        labelled_int_at (lit "Longest path (levels):") tl dl rl ->
        parseMetrics out =
          Some {| pm_cells := Z2float (digits_value dc);
                  pm_levels := Z2float (digits_value dl);
                  pm_area_um2 := extractArea buf;
                  pm_warnings := extractWarnings buf |}).
  { intros pc tc dc rc pl tl dl rl Hc Hbc Hatc Hl Hbl Hatl.
    unfold parseMetrics. change (combinedOutput out) with buf.
    rewrite (extractCells_first buf pc tc dc rc Hc Hbc Hatc).
    rewrite (extractLevels_first buf pl tl dl rl Hl Hbl Hatl).
    reflexivity. }
  split; [|exact Hall].
  intros Hc Hl.
  apply first_labelled_occurrence in Hc as (pc & tc & dc & rc & Ec & Hbc & Hatc).
  apply first_labelled_occurrence in Hl as (pl & tl & dl & rl & El & Hbl & Hatl).
  exists pc, tc, dc, rc, pl, tl, dl, rl.
  split; [auto|]. split; [auto|]. now apply (Hall pc tc dc rc pl tl dl rl).
Qed.

Lemma extractor_round_trip_witness :
  parseMetrics sample_output =
    Some {| pm_cells := 200; pm_levels := 15;
            pm_area_um2 := None; pm_warnings := Some 0%float |}.
Proof.
  refine (proj2 (extractor_round_trip sample_output)
            [] (lit "Number of cells: 200" ++ LF :: lit "Longest path (levels): 15")
            (lit "200") (LF :: lit "Longest path (levels): 15")
            (lit "Number of cells: 200" ++ [LF]) (lit "Longest path (levels): 15")
            (lit "15") [] _ _ _ _ _ _).
  - vm_compute; reflexivity.
  - apply none_before_b_sound. vm_compute; reflexivity.
  - labelled_here (lit "Number of cells:") (lit " ").
  - vm_compute; reflexivity.
  - apply none_before_b_sound. vm_compute; reflexivity.
  - labelled_here (lit "Longest path (levels):") (lit " ").
Defined.

(** C2 as stated fails: were the patterns matched on stdout directly
    followed by stderr, the first occurrence of the cells pattern in
    ["Number of cells: 1" ++ "2 Longest path (levels): 3"] would capture
    12; the extractor, which puts a line feed between the two, yields
    1. *)
Lemma plain_concatenation_differs : ~ plain_concatenation_round_trip.
Proof.
  intros Hclaim.
  specialize (Hclaim boundary_output []
                (stdout boundary_output ++ stderr boundary_output)
                (lit "12") (lit " Longest path (levels): 3")).
  cbv zeta in Hclaim.
  assert (E : pm_cells <$> parseMetrics boundary_output
              = Some (Z2float (digits_value (lit "12")))).
  { apply Hclaim.
    - reflexivity.
    - apply none_before_b_sound. reflexivity.
    - labelled_here (lit "Number of cells:") (lit " ").
    - apply (regex_exec_contains true LEVELS_PATTERN _ (Some (lit "3"), [])).
      vm_compute; reflexivity. }
  apply (f_equal (fun o => match o with
                           | Some x => PrimFloat.eqb x 1
                           | None => false
                           end)) in E.
  vm_compute in E. discriminate.
Qed.

(** C3.  A text that lacks the cells pattern or lacks the levels pattern
    is not parseable: the extractor returns null, whatever the area and
    warnings patterns find. *)
Theorem extractor_failure (out : EdaYosysOutput) :
  ~ contains true CELLS_PATTERN (combinedOutput out)
  \/ ~ contains true LEVELS_PATTERN (combinedOutput out) ->
  parseMetrics out = None.
Proof.
  intros [H | H]; unfold parseMetrics.
  - apply extractCells_None in H. now rewrite H.
  - apply extractLevels_None in H. rewrite H.
    now destruct (extractCells (combinedOutput out)).
Qed.

Lemma extractor_failure_witness : parseMetrics invalid_output = None.
Proof.
  apply extractor_failure. left. apply regex_exec_None.
  vm_compute; reflexivity.
Defined.
End ExtractorClaims.

(* --------------------------------------------------------------------- *)
(** ** Warnings: every occurrence, summed *)

Lemma matchAll_scan_skip icase r a b :
  matchAll_scan icase r (a ++ b) (length a) = matchAll_scan icase r b 0.
Proof. induction a as [|x a IH]; simpl; auto. Qed.

Lemma matchAll_scan_none icase r s :
  ~ contains icase r s -> matchAll_scan icase r s 0 = [].
Proof.
  induction s as [|x t IH]; intros H; simpl.
  - assert (E : match_here icase r [] = None).
    { apply match_here_None. intros Ho. apply H. now apply contains_here. }
    now rewrite E.
  - assert (E : match_here icase r (x :: t) = None).
    { apply match_here_None. intros Ho. apply H. now apply contains_here. }
    rewrite E. apply IH. intros Hc. apply H. now apply contains_later.
Qed.

(** From the first occurrence on: its capture, then the matches of the
    text after it. *)
Lemma matchAll_scan_first icase r pre m rest cap :
  none_before icase r pre (m ++ rest) ->
  m <> [] ->
  match_here icase r (m ++ rest) = Some (cap, rest) ->
  matchAll_scan icase r (pre ++ m ++ rest) 0
  = cap :: matchAll_scan icase r rest 0.
Proof.
  induction pre as [|a pre IH]; intros Hb Hm Hmatch.
  - destruct m as [|x m]; [contradiction|].
    cbn [app matchAll_scan]. cbn [app] in Hmatch. rewrite Hmatch.
    f_equal. cbn [length]. rewrite length_app.
    replace (S (length m + length rest) - length rest - 1) with (length m)
      by lia.
    apply matchAll_scan_skip.
  - cbn [app matchAll_scan].
    assert (E : match_here icase r (a :: pre ++ m ++ rest) = None).
    { apply match_here_None. now apply (Hb [] (a :: pre)). }
    rewrite E. apply IH; auto.
    intros p1 p2 -> Hp2. apply (Hb (a :: p1) p2); auto.
Qed.

Module WarningFacts.
Import YosysParser.

Lemma labelled_split label t ds rest :
  labelled_int_at label t ds rest ->
  exists m, t = m ++ rest /\ m <> [].
Proof.
  intros (l & ws & -> & _ & _ & _ & Hne & _).
  exists (l ++ ws ++ ds). split.
  - now rewrite <- !app_assoc.
  - intros H. apply app_eq_nil in H as [_ H].
    apply app_eq_nil in H as [_ H]. contradiction.
Qed.

Lemma matchAll_occurrences s caps :
  warning_occurrences s caps ->
  matchAll true WARNINGS_PATTERN s = map Some caps.
Proof.
  unfold matchAll. induction 1 as [s Hn | pre t ds rest caps Hb Hat _ IH].
  - now apply matchAll_scan_none.
  - destruct (labelled_split _ _ _ _ Hat) as (m & -> & Hm).
    cbn [map]. rewrite <- IH. apply matchAll_scan_first; auto.
    now apply match_here_labelled.
Qed.

Lemma occurrences_digits s caps :
  warning_occurrences s caps ->
  Forall (fun ds => all_digits ds /\ ds <> []) caps.
Proof.
  induction 1 as [|pre t ds rest caps _ Hat _ IH]; constructor; auto.
  destruct Hat as (l & ws & _ & _ & _ & Hds & Hne & _). auto.
Qed.

Lemma sum_captures_digits caps :
  Forall (fun ds => all_digits ds /\ ds <> []) caps ->
  sum_captures (map Some caps) = sum_of_integers caps.
Proof.
  unfold sum_captures, sum_of_integers. generalize 0%float.
  intros acc H. revert acc.
  induction H as [|ds caps [Hds Hne] _ IH]; intros acc; simpl; auto.
  rewrite parseInt10_digits by assumption. apply IH.
Qed.
End WarningFacts.

(** Every text has its list of occurrences: the relation of the claim
    leaves no text out. *)
Lemma warning_occurrences_total s : exists caps, warning_occurrences s caps.
Proof.
  remember (length s) as n eqn:Hn. revert s Hn.
  induction n as [n IH] using lt_wf_ind. intros s ->.
  destruct (regex_exec true YosysParser.WARNINGS_PATTERN s) as [[cap r0]|] eqn:E.
  - apply regex_exec_Some_inv in E as (pre & t & -> & Hb & Hm).
    apply match_here_sound in Hm as (m & -> & Hm).
    assert (Ho : occurs_at true YosysParser.WARNINGS_PATTERN (m ++ r0))
      by (exists m, r0; auto).
    apply occurs_labelled in Ho as (ds & rest & Hat).
    pose proof (labelled_rest_shorter _ _ _ _ Hat) as Hlen.
    destruct (IH (length rest)) with (s := rest) as [caps Hcaps]; auto.
    { rewrite length_app. lia. }
    exists (ds :: caps). now apply (wo_next pre (m ++ r0) ds rest caps).
  - exists []. apply wo_none. now apply regex_exec_None.
Qed.

Section WarningClaims.
Import YosysParser WarningFacts.

(** C4.  The warnings value is the sum of the integers captured by the
    occurrences of ["Warning: <integer>"], not their number; with no
    occurrence it is 0, not null. *)
Theorem warnings_summation (s : jsstring) :
  (exists caps, warning_occurrences s caps)
  /\ (forall caps,
        warning_occurrences s caps ->
        extractWarnings s = Some (sum_of_integers caps)
        /\ (caps = [] -> extractWarnings s = Some 0%float)).
Proof.
  split; [apply warning_occurrences_total|].
  intros caps H. assert (E : extractWarnings s = Some (sum_of_integers caps)).
  { unfold extractWarnings. rewrite (matchAll_occurrences s caps H).
    f_equal. apply sum_captures_digits. now apply occurrences_digits with s. }
  split; auto. intros ->. exact E.
Qed.

Lemma warnings_summation_witness :
  extractWarnings two_warnings = Some 3%float.
Proof.
  refine (proj1 (proj2 (warnings_summation two_warnings)
                   [lit "2"; lit "1"] _)).
  apply (wo_next [] (lit "Warning: 2" ++ LF :: lit "Warning: 1")
           (lit "2") (LF :: lit "Warning: 1") [lit "1"]).
  - apply none_before_b_sound. reflexivity.
  - labelled_here (lit "Warning:") (lit " ").
  - apply (wo_next [LF] (lit "Warning: 1") (lit "1") [] []).
    + apply none_before_b_sound. vm_compute; reflexivity.
    + labelled_here (lit "Warning:") (lit " ").
    + apply wo_none. apply regex_exec_None. vm_compute; reflexivity.
Defined.
End WarningClaims.

(* --------------------------------------------------------------------- *)
(** ** Area: the first occurrence, or null *)

Module AreaFacts.
Import YosysParser.






Lemma space_not_point x : is_space x = true -> (x =? 46)%N = false.
Proof.
  intros H. apply N.eqb_neq. intros ->. vm_compute in H. discriminate.
Qed.


End AreaFacts.

Section AreaClaims.
Import YosysParser ParserFacts AreaFacts.



End AreaClaims.

(* ===================================================================== *)
(** * commands.ts: the QoR verifier *)
(* ===================================================================== *)

Section VerifierClaims.
Context `{Runtime}.
Import EdaCommands.

(** C1.  The verification accepts exactly when the levels and the cells
    of the current record are both at most those of the baseline, and
    its outcome carries the two differences and the cells difference
    as a percentage of the baseline cells. *)
Theorem verification_rule (baseline current : EdaMetrics) :
  let v := performVerification baseline current in
  (accepted v = true <->
     PrimFloat.leb (levels current) (levels baseline) = true
     /\ PrimFloat.leb (cells current) (cells baseline) = true)
  /\ c_delta (v_cells v) = (cells current - cells baseline)%float
  /\ l_delta (v_levels v) = (levels current - levels baseline)%float
  /\ c_delta_pct (v_cells v)
     = ((cells current - cells baseline) / cells baseline * 100)%float
  /\ c_base (v_cells v) = cells baseline /\ c_now (v_cells v) = cells current
  /\ l_base (v_levels v) = levels baseline
  /\ l_now (v_levels v) = levels current.
Proof.
  intros v. split; [|repeat split].
  unfold v, performVerification. cbn [accepted]. apply andb_true_iff.
Qed.

(** The three verdicts of the specification's examples. *)
Example verification_accepts :
  let v := performVerification (sample_metrics 100 10) (sample_metrics 95 10) in
  accepted v = true /\ c_delta (v_cells v) = (-5)%float
  /\ l_delta (v_levels v) = 0%float /\ c_delta_pct (v_cells v) = (-5)%float.
Proof. cbn. repeat split; reflexivity. Qed.

Example verification_rejects_cells :
  accepted (performVerification (sample_metrics 100 10) (sample_metrics 101 10))
  = false.
Proof. reflexivity. Qed.

Example verification_rejects_levels :
  accepted (performVerification (sample_metrics 100 10) (sample_metrics 90 11))
  = false.
Proof. reflexivity. Qed.
End VerifierClaims.

(* ===================================================================== *)
(** * Reasoning about the commands *)
(* ===================================================================== *)

Section Keeping.
Context {X A B : Type} (f : State -> X).

Lemma keeping_ret (P : A -> Prop) x : P x -> keeping f P (ret x).
Proof. intros HP st out st' E. injection E as <- <-. auto. Qed.

Lemma keeping_throw (P : A -> Prop) e : keeping f P (throw e).
Proof. intros st out st' E. injection E as <- <-. auto. Qed.

Lemma keeping_bind (P : B -> Prop) (c : M A) (k : A -> M B) :
  keeping f (fun _ => True) c ->
  (forall x, keeping f P (k x)) ->
  keeping f P (bind c k).
Proof.
  intros Hc Hk st out st' E. unfold bind in E.
  destruct (c st) as [[a|x] st1] eqn:Ec.
  - injection E as <- <-. destruct (Hc _ _ _ Ec). auto.
  - destruct (Hc _ _ _ Ec) as [E1 _]. destruct (Hk x _ _ _ E) as [E2 HP].
    split; [congruence | exact HP].
Qed.

Lemma keeping_bind_post (Q : A -> Prop) (P : B -> Prop) (c : M A)
    (k : A -> M B) :
  keeping f Q c ->
  (forall x, Q x -> keeping f P (k x)) ->
  keeping f P (bind c k).
Proof.
  intros Hc Hk st out st' E. unfold bind in E.
  destruct (c st) as [[a|x] st1] eqn:Ec.
  - injection E as <- <-. destruct (Hc _ _ _ Ec). auto.
  - destruct (Hc _ _ _ Ec) as [E1 HQ]. destruct (Hk x HQ _ _ _ E) as [E2 HP].
    split; [congruence | exact HP].
Qed.

Lemma keeping_try_catch (P : A -> Prop) (c : M A) (h : exn -> M A) :
  keeping f P c ->
  (forall e, keeping f P (h e)) ->
  keeping f P (try_catch c h).
Proof.
  intros Hc Hh st out st' E. unfold try_catch in E.
  destruct (c st) as [[[e|u]|x] st1] eqn:Ec.
  - destruct (Hc _ _ _ Ec) as [E1 _]. destruct (Hh e _ _ _ E) as [E2 HP].
    split; [congruence | exact HP].
  - injection E as <- <-. destruct (Hc _ _ _ Ec). auto.
  - injection E as <- <-. apply (Hc _ _ _ Ec).
Qed.

Lemma keeping_modify (g : State -> State) :
  (forall st, f (g st) = f st) ->
  keeping f (fun _ => True) (modify g).
Proof. intros Hg st out st' E. injection E as <- <-. auto. Qed.
End Keeping.

(** ** Computations that end *)

Section Settling.
Context {A B : Type}.

Lemma settles_ret (x : A) : settles (ret x).
Proof. intros st u st' E. discriminate. Qed.

Lemma settles_throw (e : exn) : settles (throw (A := A) e).
Proof. intros st u st' E. discriminate. Qed.

Lemma settles_bind (c : M A) (k : A -> M B) :
  settles c -> (forall x, settles (k x)) -> settles (bind c k).
Proof.
  intros Hc Hk st u st' E. unfold bind in E.
  destruct (c st) as [[a|x] st1] eqn:Ec.
  - injection E as -> ->. exact (Hc _ _ _ Ec).
  - exact (Hk x _ _ _ E).
Qed.

Lemma settles_try_catch (c : M A) (h : exn -> M A) :
  settles c -> (forall e, settles (h e)) -> settles (try_catch c h).
Proof.
  intros Hc Hh st u st' E. unfold try_catch in E.
  destruct (c st) as [[[e|u1]|x] st1] eqn:Ec.
  - exact (Hh e _ _ _ E).
  - exact (Hc _ _ _ Ec).
  - discriminate.
Qed.

Lemma settles_modify (g : State -> State) : settles (modify g).
Proof. intros st u st' E. discriminate. Qed.

(** A [try] whose [catch] returns lets no exception out; it returns
    whenever what it tries ends. *)
Lemma try_catch_no_throw (c : M A) (g : exn -> A) st e st' :
  try_catch c (fun e => ret (g e)) st <> (inl (Thrown e), st').
Proof.
  unfold try_catch. destruct (c st) as [[[e1|u]|x] st1]; discriminate.
Qed.

Lemma try_catch_returns (c : M A) (g : exn -> A) st :
  settles c ->
  exists x st', try_catch c (fun e => ret (g e)) st = (inr x, st').
Proof.
  intros Hc. unfold try_catch.
  destruct (c st) as [[[e|u]|x] st1] eqn:Ec;
    [exists (g e), st1; reflexivity | | exists x, st1; reflexivity].
  destruct (Hc _ _ _ Ec).
Qed.
End Settling.

Section Primitives.
Context {X : Type} (f : State -> X) `{!Unaffected f}.
Variable env : Env.

Section Writes.
Context `{!FsUnaffected f}.

Lemma keeping_fs_writeFile p c :
  keeping f (fun _ => True) (fs_writeFile env p c).
Proof.
  intros st out st' E. unfold fs_writeFile, throw in E.
  destruct (fs st !! p) as [[c0 m|]|]; destruct (write_error env p);
    injection E as <- <-; auto using unaffected_fs.
Qed.

Lemma keeping_mkdir_one p d : keeping f (fun _ => True) (mkdir_one env p d).
Proof.
  intros st out st' E. unfold mkdir_one, throw in E.
  destruct (fs st !! d) as [[c0 m|]|]; [| |destruct (mkdir_error env d)];
    injection E as <- <-; auto using unaffected_fs.
Qed.

Lemma keeping_mkdir_each p dirs :
  keeping f (fun _ => True) (mkdir_each env p dirs).
Proof.
  induction dirs as [|d dirs IH]; simpl.
  - now apply keeping_ret.
  - apply keeping_bind; [apply keeping_mkdir_one | intros _; exact IH].
Qed.

Lemma keeping_fs_mkdir p : keeping f (fun _ => True) (fs_mkdir env p).
Proof. apply keeping_mkdir_each. Qed.
End Writes.

Lemma keeping_fs_stat p : keeping f (fun _ => True) (fs_stat p).
Proof.
  intros st out st' E. unfold fs_stat, throw in E.
  destruct (fs st !! p); injection E as <- <-; auto.
Qed.

Lemma keeping_fs_readFile p : keeping f (fun _ => True) (fs_readFile p).
Proof.
  intros st out st' E. unfold fs_readFile, throw in E.
  destruct (fs st !! p) as [[c m|]|]; injection E as <- <-; auto.
Qed.

Lemma keeping_fs_readdir p : keeping f (fun _ => True) (fs_readdir env p).
Proof.
  intros st out st' E. unfold fs_readdir, throw in E.
  destruct (readdir_result env p); injection E as <- <-; auto.
Qed.

Lemma keeping_Date_toISOString `{Runtime} t :
  keeping f (fun _ => True) (Date_toISOString t).
Proof.
  unfold Date_toISOString.
  destruct (valid_time t); [now apply keeping_ret | apply keeping_throw].
Qed.

Lemma keeping_Date_now : keeping f (fun _ => True) (Date_now env).
Proof.
  intros st out st' E. injection E as <- <-. auto using unaffected_ticks.
Qed.

Lemma keeping_console_warn l : keeping f (fun _ => True) (console_warn l).
Proof. apply keeping_modify. intros st. apply unaffected_console. Qed.

Section Children.
Context `{!ChildUnaffected f}.

Lemma keeping_promisify_spawn args :
  keeping f (fun _ => True) (promisify_spawn env args).
Proof.
  intros st out st' E. injection E as <- <-. auto using unaffected_spawned.
Qed.

Lemma keeping_isYosysAvailable :
  keeping f (fun _ => True) (isYosysAvailable env).
Proof.
  unfold isYosysAvailable. apply keeping_try_catch.
  - apply keeping_bind; [apply keeping_promisify_spawn|].
    intros result. now apply keeping_ret.
  - intros e. now apply keeping_ret.
Qed.

Lemma keeping_getYosysVersion :
  keeping f (fun _ => True) (getYosysVersion env).
Proof.
  unfold getYosysVersion. apply keeping_try_catch.
  - apply keeping_bind; [apply keeping_promisify_spawn|].
    intros result. now apply keeping_ret.
  - intros e. now apply keeping_ret.
Qed.
End Children.
End Primitives.

Section PrimitivesSettle.
Variable env : Env.

Lemma settles_fs_stat p : settles (fs_stat p).
Proof.
  intros st u st' E. unfold fs_stat, throw in E.
  destruct (fs st !! p); discriminate.
Qed.

Lemma settles_fs_readFile p : settles (fs_readFile p).
Proof.
  intros st u st' E. unfold fs_readFile, throw in E.
  destruct (fs st !! p) as [[c m|]|]; discriminate.
Qed.

Lemma settles_fs_writeFile p c : settles (fs_writeFile env p c).
Proof.
  intros st u st' E. unfold fs_writeFile, throw in E.
  destruct (fs st !! p) as [[c0 m|]|]; destruct (write_error env p);
    discriminate.
Qed.

Lemma settles_mkdir_one p d : settles (mkdir_one env p d).
Proof.
  intros st u st' E. unfold mkdir_one, throw in E.
  destruct (fs st !! d) as [[c0 m|]|]; [| |destruct (mkdir_error env d)];
    discriminate.
Qed.

Lemma settles_fs_mkdir p : settles (fs_mkdir env p).
Proof.
  unfold fs_mkdir. induction (lineage p) as [|d dirs IH]; simpl.
  - apply settles_ret.
  - apply settles_bind; [apply settles_mkdir_one | intros _; exact IH].
Qed.

Lemma settles_fs_readdir p : settles (fs_readdir env p).
Proof.
  intros st u st' E. unfold fs_readdir, throw in E.
  destruct (readdir_result env p); discriminate.
Qed.

Lemma settles_Date_now : settles (Date_now env).
Proof. intros st u st' E. discriminate. Qed.

Lemma settles_Date_toISOString `{Runtime} t : settles (Date_toISOString t).
Proof.
  unfold Date_toISOString.
  destruct (valid_time t); [apply settles_ret | apply settles_throw].
Qed.

Lemma settles_console_warn l : settles (console_warn l).
Proof. apply settles_modify. Qed.
End PrimitivesSettle.

Ltac keeping_step :=
  lazymatch goal with
  | |- keeping _ _ (ret _) => apply keeping_ret
  | |- keeping _ _ (throw _) => apply keeping_throw
  | |- keeping _ _ (bind _ _) => apply keeping_bind; [|intros ?]
  | |- keeping _ _ (try_catch _ _) => apply keeping_try_catch; [|intros ?]
  | |- keeping _ _ (fs_stat _) => apply keeping_fs_stat; exact _
  | |- keeping _ _ (fs_readFile _) => apply keeping_fs_readFile; exact _
  | |- keeping _ _ (fs_writeFile _ _ _) => apply keeping_fs_writeFile; exact _
  | |- keeping _ _ (fs_mkdir _ _) => apply keeping_fs_mkdir; exact _
  | |- keeping _ _ (fs_readdir _ _) => apply keeping_fs_readdir
  | |- keeping _ _ (Date_now _) => apply keeping_Date_now; exact _
  | |- keeping _ _ (console_warn _) => apply keeping_console_warn; exact _
  | |- keeping _ _ (Date_toISOString _) =>
      apply keeping_Date_toISOString; exact _
  | |- keeping _ _ (isYosysAvailable _) =>
      apply keeping_isYosysAvailable; exact _
  | |- keeping _ _ (getYosysVersion _) =>
      apply keeping_getYosysVersion; exact _
  | |- keeping _ _ (if ?b then _ else _) => destruct b
  | |- keeping _ _ (match ?x with _ => _ end) => destruct x
  end.

Ltac settles_step :=
  lazymatch goal with
  | |- settles (ret _) => apply settles_ret
  | |- settles (throw _) => apply settles_throw
  | |- settles (bind _ _) => apply settles_bind; [|intros ?]
  | |- settles (try_catch _ _) => apply settles_try_catch; [|intros ?]
  | |- settles (fs_stat _) => apply settles_fs_stat
  | |- settles (fs_readFile _) => apply settles_fs_readFile
  | |- settles (fs_writeFile _ _ _) => apply settles_fs_writeFile
  | |- settles (fs_mkdir _ _) => apply settles_fs_mkdir
  | |- settles (fs_readdir _ _) => apply settles_fs_readdir
  | |- settles (Date_now _) => apply settles_Date_now
  | |- settles (Date_toISOString _) => apply settles_Date_toISOString
  | |- settles (console_warn _) => apply settles_console_warn
  | |- settles (if ?b then _ else _) => destruct b
  | |- settles (match ?x with _ => _ end) => destruct x
  end.

Lemma well_coded_failure msg : well_coded (failure msg).
Proof. split; [reflexivity | auto]. Qed.

Lemma well_coded_ok msg : well_coded (ok msg).
Proof. split; [reflexivity | auto]. Qed.

Lemma rejection_failure msg : rejection_delivered (failure msg).
Proof. intros v E. discriminate. Qed.

Lemma rejection_ok msg : rejection_delivered (ok msg).
Proof. intros v E. discriminate. Qed.

Create HintDb outcomes.

#[local] Hint Resolve well_coded_failure well_coded_ok
  rejection_failure rejection_ok : outcomes.

Section ValidatorFacts.
Context {X : Type} (f : State -> X) `{!Unaffected f}.
Variable env : Env.
Import EdaValidator.

Lemma keeping_validateRecipeFile p :
  keeping f (fun _ => True) (validateRecipeFile p).
Proof. unfold validateRecipeFile. repeat keeping_step; exact I. Qed.

Lemma keeping_validateDirectoryStructure ctx :
  keeping f (fun _ => True) (validateDirectoryStructure ctx).
Proof. unfold validateDirectoryStructure. repeat keeping_step; exact I. Qed.

Lemma keeping_fileExists p : keeping f (fun _ => True) (fileExists p).
Proof. unfold fileExists. repeat keeping_step; exact I. Qed.

Section Directories.
Context `{!FsUnaffected f}.

Lemma keeping_mkdirAll dirs : keeping f (fun _ => True) (mkdirAll env dirs).
Proof.
  induction dirs as [|d dirs IH]; simpl.
  - now apply keeping_ret.
  - repeat keeping_step. exact IH.
Qed.

Lemma keeping_ensureDirectories ctx :
  keeping f (fun _ => True) (ensureDirectories env ctx).
Proof. apply keeping_mkdirAll. Qed.
End Directories.

Lemma keeping_collectRecipes ctx files :
  keeping f (fun _ => True) (collectRecipes ctx files).
Proof.
  induction files as [|file files IH]; simpl.
  - now apply keeping_ret.
  - apply keeping_bind.
    + repeat keeping_step; exact I.
    + intros found. apply keeping_bind; [exact IH|].
      intros others. now apply keeping_ret.
Qed.

Lemma keeping_listRecipes ctx :
  keeping f (fun _ => True) (listRecipes env ctx).
Proof.
  unfold listRecipes. apply keeping_try_catch.
  - apply keeping_bind; [apply keeping_fs_readdir|]. intros files.
    apply keeping_bind; [apply keeping_collectRecipes|]. intros r.
    now apply keeping_ret.
  - intros e. repeat keeping_step. exact I.
Qed.
End ValidatorFacts.

Lemma sound_failure msg : sound_outcome (failure msg).
Proof. split; auto with outcomes. Qed.

Lemma sound_ok msg : sound_outcome (ok msg).
Proof. split; auto with outcomes. Qed.

Section ValidatorSettle.
Variable env : Env.
Import EdaValidator.

Lemma settles_validateRecipeFile p : settles (validateRecipeFile p).
Proof. unfold validateRecipeFile. repeat settles_step. Qed.

Lemma settles_validateDirectoryStructure ctx :
  settles (validateDirectoryStructure ctx).
Proof. unfold validateDirectoryStructure. repeat settles_step. Qed.

Lemma settles_fileExists p : settles (fileExists p).
Proof. unfold fileExists. repeat settles_step. Qed.

Lemma settles_mkdirAll dirs : settles (mkdirAll env dirs).
Proof.
  induction dirs as [|d dirs IH]; simpl.
  - apply settles_ret.
  - repeat settles_step. exact IH.
Qed.

Lemma settles_ensureDirectories ctx : settles (ensureDirectories env ctx).
Proof. apply settles_mkdirAll. Qed.

Lemma settles_collectRecipes ctx files : settles (collectRecipes ctx files).
Proof.
  induction files as [|file files IH]; simpl.
  - apply settles_ret.
  - apply settles_bind.
    + repeat settles_step.
    + intros found. apply settles_bind; [exact IH|].
      intros others. apply settles_ret.
Qed.

Lemma settles_listRecipes ctx : settles (listRecipes env ctx).
Proof.
  unfold listRecipes. apply settles_try_catch.
  - apply settles_bind; [apply settles_fs_readdir|]. intros files.
    apply settles_bind; [apply settles_collectRecipes|]. intros r.
    apply settles_ret.
  - intros e. repeat settles_step.
Qed.

Lemma validateRecipeFile_run p st :
  exists r,
    validateRecipeFile p st = (inr r, st)
    /\ (valid r = true <-> exists c m, fs st !! p = Some (RegularFile c m)).
Proof.
  unfold validateRecipeFile, try_catch, bind, fs_stat, ret, throw.
  destruct (fs st !! p) as [[c m|]|]; cbn [isFile negb];
    eexists; (split; [reflexivity|]); cbn [valid length Nat.eqb]; split;
    eauto; try discriminate; intros (c' & m' & E); discriminate.
Qed.

Lemma validateDirectoryStructure_run ctx st :
  exists r,
    validateDirectoryStructure ctx st = (inr r, st)
    /\ (valid r = true <->
          fs st !! rtlDir ctx = Some Directory
          /\ forall c m, fs st !! recipesDir ctx <> Some (RegularFile c m)).
Proof.
  unfold validateDirectoryStructure, try_catch, bind, fs_stat, ret, throw.
  destruct (fs st !! rtlDir ctx) as [[c1 m1|]|];
    destruct (fs st !! recipesDir ctx) as [[c2 m2|]|];
    destruct (fs st !! buildDir ctx) as [[c3 m3|]|];
    cbn [isDirectory negb fst snd app];
    eexists; (split; [reflexivity|]); cbn [valid length Nat.eqb]; split;
    try discriminate; try (split; [reflexivity | discriminate]);
    try reflexivity;
    try (intros [E1 E2]; try discriminate; exfalso; eapply E2; reflexivity).
Qed.
End ValidatorSettle.

Lemma bind_ret_eq {A B} (c : M A) (k : A -> M B) st x st1 :
  c st = (inr x, st1) -> bind c k st = k x st1.
Proof. unfold bind. now intros ->. Qed.

Lemma bind_throw_eq {A B} (c : M A) (k : A -> M B) st e st1 :
  c st = (inl e, st1) -> bind c k st = (inl e, st1).
Proof. unfold bind. now intros ->. Qed.

Ltac keeping_cmd :=
  cbv zeta;
  repeat first
    [ apply sound_failure
    | apply sound_ok
    | exact I
    | apply keeping_validateRecipeFile; exact _
    | apply keeping_validateDirectoryStructure; exact _
    | apply keeping_fileExists; exact _
    | apply keeping_ensureDirectories; exact _
    | apply keeping_listRecipes; exact _
    | keeping_step ].

Ltac settles_cmd :=
  cbv zeta;
  repeat first
    [ apply settles_validateRecipeFile
    | apply settles_validateDirectoryStructure
    | apply settles_fileExists
    | apply settles_ensureDirectories
    | apply settles_listRecipes
    | settles_step ].

Section CommandFacts.
Context `{Runtime}.
Variable env : Env.
Import EdaCommands.

Lemma returning_runYosys script seed :
  returning (fun _ => True) (runYosys env script seed).
Proof.
  unfold runYosys. cbv zeta. apply keeping_bind.
  - now apply keeping_modify.
  - intros _. now apply keeping_ret.
Qed.

Lemma keeping_extractOutputNetlist {X} (f : State -> X) `{!Unaffected f}
    script :
  keeping f (fun _ => True) (extractOutputNetlist script).
Proof. unfold extractOutputNetlist. keeping_cmd. Qed.

Lemma keeping_recipeLines {X} (f : State -> X) recipes : forall index,
  keeping f (fun _ => True) (recipeLines index recipes).
Proof.
  induction recipes as [|recipe rest IH]; intros index; simpl.
  - now apply keeping_ret.
  - unfold recipeLine. repeat keeping_step; try exact I. apply IH.
Qed.

Lemma settles_recipeLines recipes : forall index,
  settles (recipeLines index recipes).
Proof.
  induction recipes as [|recipe rest IH]; intros index; simpl.
  - apply settles_ret.
  - unfold recipeLine. repeat settles_step. apply IH.
Qed.

Lemma returning_help ctx args options :
  returning sound_outcome (help ctx args options).
Proof. unfold help. keeping_cmd. Qed.

Lemma returning_recipeInit ctx args options :
  returning sound_outcome (recipeInit env ctx args options).
Proof. unfold recipeInit. keeping_cmd. Qed.

Lemma returning_recipeList ctx args options :
  returning sound_outcome (recipeList env ctx args options).
Proof. unfold recipeList. keeping_cmd. apply keeping_recipeLines. Qed.

Lemma returning_run ctx args options :
  returning sound_outcome (run env ctx args options).
Proof.
  unfold run, getGitCommit. keeping_cmd;
    try apply returning_runYosys;
    try (apply keeping_extractOutputNetlist; exact _).
  split; [split; [reflexivity | auto] | intros v E; discriminate].
Qed.

Lemma returning_baselineSeed ctx args options :
  returning sound_outcome (baselineSeed env ctx args options).
Proof. unfold baselineSeed. keeping_cmd. Qed.

Lemma returning_verify ctx args options :
  returning sound_outcome (verify ctx args options).
Proof.
  unfold verify. keeping_cmd.
  match goal with
  | |- context [performVerification ?a ?b] =>
      generalize (performVerification a b)
  end.
  intros v. split.
  - split; cbn; destruct (accepted v); auto.
  - intros v' E. cbn in E. injection E as <-. cbn. auto.
Qed.

Lemma returning_last ctx args options :
  returning sound_outcome (last ctx args options).
Proof.
  unfold last. keeping_cmd.
  split; [split; [reflexivity | auto] | intros v E; discriminate].
Qed.

Lemma returning_commandResult ctx command args options :
  returning sound_outcome (EdaCli.commandResult env ctx command args options).
Proof.
  unfold EdaCli.commandResult.
  repeat match goal with
         | |- returning _ (if ?b then _ else _) => destruct b
         end;
    first [ apply returning_help | apply returning_recipeInit
          | apply returning_recipeList | apply returning_run
          | apply returning_baselineSeed | apply returning_verify
          | apply returning_last
          | apply keeping_ret; apply sound_failure ].
Qed.

(** The commands other than [run] end. *)
Lemma recipeInit_returns ctx args options st :
  exists result st', recipeInit env ctx args options st = (inr result, st').
Proof. unfold recipeInit. apply try_catch_returns. settles_cmd. Qed.

Lemma recipeList_returns ctx args options st :
  exists result st', recipeList env ctx args options st = (inr result, st').
Proof.
  unfold recipeList. apply try_catch_returns. settles_cmd.
  apply settles_recipeLines.
Qed.

Lemma baselineSeed_returns ctx args options st :
  exists result st', baselineSeed env ctx args options st = (inr result, st').
Proof. unfold baselineSeed. apply try_catch_returns. settles_cmd. Qed.

Lemma verify_returns ctx args options st :
  exists result st', verify ctx args options st = (inr result, st').
Proof. unfold verify. apply try_catch_returns. settles_cmd. Qed.

Lemma last_returns ctx args options st :
  exists result st', last ctx args options st = (inr result, st').
Proof. unfold last. apply try_catch_returns. settles_cmd. Qed.

(** The probe starts its child and never returns. *)
Lemma isYosysAvailable_run st :
  isYosysAvailable env st = (inl (Unsettled (spawn_error env)), probing st).
Proof. reflexivity. Qed.

(** [run], case by case: a check that fails is reported, and nothing
    has happened; past the two checks the probe is started, and [run]
    never returns. *)
Lemma run_outcomes ctx args options st :
  (exists msg, run env ctx args options st = (inr (failure msg), st))
  \/ (checks_pass env ctx args st
      /\ run env ctx args options st
         = (inl (Unsettled (spawn_error env)), probing st)).
Proof.
  remember (run env ctx args options st) as R eqn:ER.
  unfold run in ER. cbv zeta in ER. fold (script_of env ctx args) in ER.
  unfold try_catch at 1 in ER.
  destruct (validateRecipeFile_run (script_of env ctx args) st)
    as (sv & Esv & Hsv).
  rewrite (bind_ret_eq _ _ _ _ _ Esv) in ER.
  destruct (valid sv) eqn:Vsv; cbn [negb] in ER;
    [|left; eexists; exact ER].
  destruct (validateDirectoryStructure_run ctx st) as (dv & Edv & Hdv).
  rewrite (bind_ret_eq _ _ _ _ _ Edv) in ER.
  destruct (valid dv) eqn:Vdv; cbn [negb] in ER;
    [|left; eexists; exact ER].
  rewrite (bind_throw_eq _ _ _ _ _ (isYosysAvailable_run st)) in ER.
  right. split; [|exact ER].
  destruct (proj1 Hdv eq_refl) as [Hrtl Hrecipes].
  split; [now apply Hsv|]. split; [exact Hrtl | exact Hrecipes].
Qed.

(** What a command line comes to: a result, or, for [run] past its two
    checks, nothing. *)
Lemma commandResult_outcomes ctx command args options st :
  (exists result st',
     EdaCli.commandResult env ctx command args options st = (inr result, st'))
  \/ (string_eqb command (lit "run") = true
      /\ checks_pass env ctx args st
      /\ EdaCli.commandResult env ctx command args options st
         = (inl (Unsettled (spawn_error env)), probing st)).
Proof.
  unfold EdaCli.commandResult.
  destruct (string_eqb command (lit "help")); [left; eexists _, _; reflexivity|].
  destruct (string_eqb command (lit "recipe")).
  { left.
    destruct (EdaCli.first_is args (lit "init")); [apply recipeInit_returns|].
    destruct (EdaCli.first_is args (lit "list")); [apply recipeList_returns|].
    eexists _, _; reflexivity. }
  destruct (string_eqb command (lit "run")).
  { destruct (run_outcomes ctx args options st) as [[msg E]|[Hc E]];
      [left; eauto | right; auto]. }
  left.
  destruct (string_eqb command (lit "baseline")).
  { destruct (EdaCli.first_is args (lit "seed")); [apply baselineSeed_returns|].
    eexists _, _; reflexivity. }
  destruct (string_eqb command (lit "verify")); [apply verify_returns|].
  destruct (string_eqb command (lit "last")); [apply last_returns|].
  eexists _, _; reflexivity.
Qed.
End CommandFacts.

(* ===================================================================== *)
(** * Exit codes *)
(* ===================================================================== *)

Section ExitCodeClaims.
Context `{Runtime}.
Variable env : Env.
Import EdaCli.

Lemma report_status result st :
  sound_outcome result ->
  process_exitCode st = None ->
  exists st', report result st = (inr tt, st')
              /\ exit_status st' = (if success result then 0 else 1)%float.
Proof.
  intros [[Hcode Hcodes] _] Hst. unfold report, bind, modify, ret, exit_status.
  destruct (negb (Nat.eqb (length (message result)) 0));
    unfold outcome_code in Hcode;
    destruct (res_exitCode result) as [c|] eqn:Ec; cbn in Hcode |- *;
    destruct (success result); subst; cbn;
    try (eexists; split; [reflexivity|]; cbn; now rewrite ?Hst);
    destruct Hcodes as [? | [? | ?]]; discriminate.
Qed.

(** [verify] on two records that parse. *)
Lemma verify_compares ctx args options st bc bm rc rm
    (baseline : EdaBaseline) (result : EdaResult) :
  fs st !! path_join (edaDir ctx) EDA_BASELINE_FILE
  = Some (RegularFile bc bm) ->
  fs st !! path_join (lastRunDir ctx) EDA_RESULT_FILE
  = Some (RegularFile rc rm) ->
  JSON_parse bc = inr baseline ->
  JSON_parse rc = inr result ->
  EdaCommands.verify ctx args options st
  = (inr (verdict (EdaCommands.performVerification (b_metrics baseline)
                     (metrics result))), st).
Proof.
  intros Eb Er Epb Epr.
  unfold EdaCommands.verify, try_catch, bind, EdaValidator.fileExists,
    try_catch, bind, fs_stat, fs_readFile, ret, throw. cbv zeta.
  rewrite Eb. cbn [isFile negb]. rewrite Er. cbn [isFile negb].
  rewrite Eb, Er, Epb, Epr. reflexivity.
Qed.

(** C8.  No command lets an exception out, and every result a command
    returns carries exit code 1 when it reports a failure and 0 or none
    when it reports success; only [run] can fail to return.  A
    verification that rejects is returned as a result like any other:
    it carries the comparison, reports failure and has exit code 1.
    And a process whose exit code was not set ends with 0 after a
    command that succeeded and with 1 after one that failed. *)
Theorem exit_codes :
  (forall ctx command args options st out st',
     commandResult env ctx command args options st = (out, st') ->
     match out with
     | inr result =>
         outcome_code result = (if success result then 0 else 1)%float
         /\ (res_exitCode result = None
             \/ res_exitCode result = Some 0%float
             \/ res_exitCode result = Some 1%float)
     | inl (Thrown _) => False
     | inl (Unsettled _) => string_eqb command (lit "run") = true
     end)
  /\ (forall ctx args options st bc bm rc rm
        (baseline : EdaBaseline) (result : EdaResult),
        fs st !! path_join (edaDir ctx) EDA_BASELINE_FILE
        = Some (RegularFile bc bm) ->
        fs st !! path_join (lastRunDir ctx) EDA_RESULT_FILE
        = Some (RegularFile rc rm) ->
        JSON_parse bc = inr baseline ->
        JSON_parse rc = inr result ->
        let v := EdaCommands.performVerification (b_metrics baseline)
                   (metrics result) in
        accepted v = false ->
        commandResult env ctx (lit "verify") args options st
        = (inr {| success := false; message := v_message v;
                  data := Some (DataVerification v);
                  res_exitCode := Some 1%float |}, st))
  /\ (forall line st out st',
        process_exitCode st = None ->
        handleEdaCommand env line st = (out, st') ->
        match out with
        | inr _ =>
            exists result st1,
              commandResult env (createEdaContext (process_cwd env))
                (pa_command (parseArgs line)) (pa_args (parseArgs line))
                (pa_options (parseArgs line)) st = (inr result, st1)
              /\ exit_status st' = (if success result then 0 else 1)%float
        | inl (Thrown _) => False
        | inl (Unsettled _) =>
            string_eqb (pa_command (parseArgs line)) (lit "run") = true
            /\ process_exitCode st' = None
        end).
Proof.
  split; [|split].
  - intros ctx command args options st out st' E.
    destruct (commandResult_outcomes env ctx command args options st)
      as [(result & st1 & E1)|(Hrun & _ & E1)]; rewrite E1 in E;
      injection E as <- <-; [|exact Hrun].
    destruct (returning_commandResult env ctx command args options _ _ _ E1)
      as [_ [[Hc Hcs] _]].
    auto.
  - intros ctx args options st bc bm rc rm baseline result Eb Er Epb Epr v Hv.
    change (commandResult env ctx (lit "verify") args options st)
      with (EdaCommands.verify ctx args options st).
    rewrite (verify_compares ctx args options st bc bm rc rm baseline result)
      by assumption.
    fold v. unfold verdict. now rewrite Hv.
  - intros line st out st' Hst E.
    unfold handleEdaCommand in E. cbv zeta in E.
    set (ctx := createEdaContext (process_cwd env)) in *.
    set (p := parseArgs line) in *.
    destruct (commandResult_outcomes env ctx (pa_command p) (pa_args p)
                (pa_options p) st) as [(result & st1 & E1)|(Hrun & _ & E1)].
    + rewrite (bind_ret_eq _ _ _ _ _ E1) in E.
      destruct (returning_commandResult env ctx _ _ _ _ _ _ E1)
        as [Hkeep Hsound].
      destruct (report_status result st1 Hsound) as (st2 & Er & Hs).
      { now rewrite Hkeep. }
      rewrite Er in E. injection E as <- <-. eauto.
    + rewrite (bind_throw_eq _ _ _ _ _ E1) in E. injection E as <- <-.
      split; [exact Hrun | exact Hst].
Qed.
End ExitCodeClaims.

(** A verification that rejects: the last run has one cell more than
    the baseline. *)
Lemma exit_codes_witness :
  EdaCli.commandResult (H := sample_runtime) (sample_env unparseable)
    (EdaCli.createEdaContext (lit "/w")) (lit "verify") [] no_options
    (fresh regressed_project)
  = (inr {| success := false;
            message :=
              v_message
                (EdaCommands.performVerification (H := sample_runtime)
                   (sample_metrics 100 10) (sample_metrics 101 10));
            data :=
              Some (DataVerification
                      (EdaCommands.performVerification (H := sample_runtime)
                         (sample_metrics 100 10) (sample_metrics 101 10)));
            res_exitCode := Some 1%float |}, fresh regressed_project).
Proof.
  exact (proj1 (proj2 (exit_codes (H := sample_runtime)
                         (sample_env unparseable)))
           (EdaCli.createEdaContext (lit "/w")) [] no_options
           (fresh regressed_project) (lit "{baseline}") 0%float
           (lit "{regressed}") 0%float sample_baseline regressed_result
           eq_refl eq_refl eq_refl eq_refl eq_refl).
Defined.

(* ===================================================================== *)
(** * Baseline seeding *)
(* ===================================================================== *)

Lemma path_join_rev dir name :
  rev (path_join dir name) = rev name ++ 47%N :: rev dir.
Proof.
  unfold path_join. rewrite !rev_app_distr. cbn. now rewrite <- app_assoc.
Qed.

(** The three files of the project are at three different paths,
    whatever the directories: their names end differently. *)
Lemma baseline_path_not_result d1 d2 :
  path_join d1 EDA_BASELINE_FILE <> path_join d2 EDA_RESULT_FILE.
Proof.
  intros E. apply (f_equal (fun l => take 6 (rev l))) in E.
  rewrite !path_join_rev in E. cbn in E. discriminate.
Qed.

Lemma log_path_not_result d1 d2 :
  path_join d1 EDA_LOG_FILE <> path_join d2 EDA_RESULT_FILE.
Proof.
  intros E. apply (f_equal (fun l => take 1 (rev l))) in E.
  rewrite !path_join_rev in E. cbn in E. discriminate.
Qed.

Section BaselineClaims.
Context `{Runtime}.
Variable env : Env.
Import EdaCommands.

(** [baselineSeed], case by case. *)
Lemma baselineSeed_cases ctx args options st :
  let resultPath := path_join (lastRunDir ctx) EDA_RESULT_FILE in
  let baselinePath := path_join (edaDir ctx) EDA_BASELINE_FILE in
  baselineSeed env ctx args options st =
    match fs st !! resultPath with
    | Some (RegularFile content _) =>
        match JSON_parse content with
        | inl error =>
            (inr (failure (lit "Error saving baseline: " ++ error)), st)
        | inr result =>
            match fs_writeFile env baselinePath
                    (JSON_stringify (baseline_of result)) st with
            | (inl (Thrown error), st') =>
                (inr (failure (lit "Error saving baseline: " ++ error)), st')
            | (inl (Unsettled u), st') => (inl (Unsettled u), st')
            | (inr _, st') => (inr (ok (10004%N :: lit " Baseline saved")), st')
            end
        end
    | _ => (inr (failure NO_BASELINE), st)
    end.
Proof.
  intros resultPath baselinePath.
  unfold baselineSeed, try_catch, bind, EdaValidator.fileExists, try_catch,
    bind, fs_stat, fs_readFile, ret, throw.
  fold resultPath baselinePath.
  destruct (fs st !! resultPath) as [[content m|]|] eqn:Er; cbn;
    try reflexivity.
  rewrite Er.
  destruct (JSON_parse content) as [error|result]; [reflexivity|].
  unfold baseline_of.
  destruct (fs_writeFile env baselinePath _ st) as [[[e|u]|[]] st'];
    reflexivity.
Qed.

(** Seeding the baseline a second time returns what the first seeding
    returned and leaves every file as the first left it; a seeding that
    finds the last result and can write stores the metrics, the time
    stamp of the result's provenance and the script path and seed of
    its run; and without a last-result file the seeding fails, with the
    text of a missing baseline, and writes nothing. *)
Lemma baseline_seeding ctx args options st :
  let resultPath := path_join (lastRunDir ctx) EDA_RESULT_FILE in
  let baselinePath := path_join (edaDir ctx) EDA_BASELINE_FILE in
  baselineSeed env ctx args options
    (snd (baselineSeed env ctx args options st))
  = baselineSeed env ctx args options st
  /\ (forall content m result,
        fs st !! resultPath = Some (RegularFile content m) ->
        JSON_parse content = inr result ->
        fs st !! baselinePath <> Some Directory ->
        write_error env baselinePath = None ->
        exists st1 m1,
          baselineSeed env ctx args options st
          = (inr (ok (10004%N :: lit " Baseline saved")), st1)
          /\ fs st1 !! baselinePath
             = Some (RegularFile
                       (JSON_stringify
                          {| b_metrics := metrics result;
                             b_timestamp_utc :=
                               timestamp_utc (provenance result);
                             b_run_info :=
                               {| ri_script_path :=
                                    script_path (run_record result);
                                  ri_seed := seed (run_record result) |} |})
                       m1)
          /\ fs st1 !! resultPath = fs st !! resultPath)
  /\ ((forall content m, fs st !! resultPath <> Some (RegularFile content m)) ->
      baselineSeed env ctx args options st
      = (inr (failure NO_BASELINE), st)).
Proof.
  intros resultPath baselinePath.
  assert (Hne : baselinePath <> resultPath)
    by apply baseline_path_not_result.
  pose proof (baselineSeed_cases ctx args options) as Hcases.
  cbv zeta in Hcases. fold resultPath baselinePath in Hcases.
  split; [|split].
  - rewrite (Hcases st).
    destruct (fs st !! resultPath) as [[content m|]|] eqn:Er; cbn [snd];
      try (rewrite Hcases, Er; reflexivity).
    destruct (JSON_parse content) as [error|result] eqn:Ep; cbn [snd];
      try (rewrite Hcases, Er, Ep; reflexivity).
    unfold fs_writeFile at 1 2. unfold throw.
    destruct (fs st !! baselinePath) as [[c0 m0|]|] eqn:Eb;
      destruct (write_error env baselinePath) as [e|] eqn:Ew; cbn [snd];
      try (rewrite Hcases, Er, Ep; unfold fs_writeFile, throw;
           rewrite Eb, ?Ew; reflexivity);
      rewrite Hcases; cbn [fs with_fs];
      rewrite lookup_insert_ne, Er, Ep by exact Hne;
      unfold fs_writeFile; cbn [fs with_fs ticks];
      rewrite lookup_insert_eq, Ew; unfold with_fs; cbn;
      now rewrite insert_insert_eq.
  - intros content m result Er Ep Eb Ew. rewrite Hcases, Er, Ep.
    unfold fs_writeFile. rewrite Ew.
    destruct (fs st !! baselinePath) as [[c0 m0|]|] eqn:Eb';
      try contradiction;
      eexists; eexists; (split; [reflexivity|]); cbn [fs with_fs];
      rewrite lookup_insert_eq, lookup_insert_ne by exact Hne; auto.
  - intros Hno. rewrite Hcases.
    destruct (fs st !! resultPath) as [[content m|]|] eqn:Er; auto.
    now destruct (Hno content m).
Qed.
End BaselineClaims.

Example baseline_seeding_twice :
  exists st1 m1,
    EdaCommands.baselineSeed (H := sample_runtime) (sample_env unparseable)
      (EdaCli.createEdaContext (lit "/w")) [] no_options
      (fresh project_with_result)
    = (inr (ok (10004%N :: lit " Baseline saved")), st1)
    /\ fs st1 !! lit "/w/.gemini_eda/baseline.json"
       = Some (RegularFile (lit "{baseline}") m1)
    /\ fs st1 !! lit "/w/.gemini_eda/last_run/result.json"
       = Some (RegularFile (lit "{result}") 0%float).
Proof.
  destruct (baseline_seeding (H := sample_runtime) (sample_env unparseable)
              (EdaCli.createEdaContext (lit "/w")) [] no_options
              (fresh project_with_result)) as (_ & Hsave & _).
  destruct (Hsave (lit "{result}") 0%float sample_result) as (st1 & m1 & E).
  - vm_compute; reflexivity.
  - reflexivity.
  - vm_compute; discriminate.
  - reflexivity.
  - exists st1, m1. exact E.
Qed.

(** C9, on the code.  In a project without a last-result file the
    seeding fails and writes nothing, as the claim says, but the failure
    it reports is the one of a missing baseline, word for word the text
    [verify] uses when no baseline was seeded; [last], in the same
    project, reports the missing run. *)
Theorem seeding_without_result_reports_no_baseline :
  let ctx := EdaCli.createEdaContext (lit "/w") in
  EdaCommands.baselineSeed (H := sample_runtime) (sample_env unparseable)
    ctx [] no_options (fresh sample_project)
  = (inr (failure NO_BASELINE), fresh sample_project)
  /\ EdaCommands.verify (H := sample_runtime) ctx [] no_options
       (fresh sample_project)
     = (inr (failure NO_BASELINE), fresh sample_project)
  /\ EdaCommands.last (H := sample_runtime) ctx [] no_options
       (fresh sample_project)
     = (inr (failure NO_LAST_RUN), fresh sample_project)
  /\ NO_BASELINE <> NO_LAST_RUN.
Proof. vm_compute. repeat split; discriminate. Qed.

(* ===================================================================== *)
(** * The run command *)
(* ===================================================================== *)

Lemma bind_inr {A B} (c : M A) (k : A -> M B) st r st' :
  bind c k st = (inr r, st') ->
  exists x st1, c st = (inr x, st1) /\ k x st1 = (inr r, st').
Proof.
  unfold bind. destruct (c st) as [[e|x] st1]; [discriminate|]. eauto.
Qed.

Lemma try_catch_success (c : M EdaCommandResult) (f : exn -> jsstring) st r st' :
  try_catch c (fun e => ret (failure (f e))) st = (inr r, st') ->
  success r = true ->
  c st = (inr r, st').
Proof.
  unfold try_catch. destruct (c st) as [[[e|u]|x] st1]; [| |auto].
  - intros E. injection E as <- <-. discriminate.
  - discriminate.
Qed.

Lemma fs_writeFile_inr env p c st st' :
  fs_writeFile env p c st = (inr tt, st') ->
  exists m, st' = with_fs (<[p := RegularFile c m]> (fs st)) st.
Proof.
  unfold fs_writeFile, throw.
  destruct (fs st !! p) as [[c0 m0|]|]; destruct (write_error env p);
    intros E; try discriminate; injection E as <-; eauto.
Qed.

Section Directories.
Variable env : Env.

(** Making a directory leaves the regular files as they are. *)
Lemma keeping_regular_mkdir_one p d :
  keeping regular_files (fun _ => True) (mkdir_one env p d).
Proof.
  intros st out st' E. unfold mkdir_one, throw in E.
  destruct (fs st !! d) as [[c0 m|]|] eqn:Ep;
    [| |destruct (mkdir_error env d)]; injection E as <- <-; auto.
  split; auto. unfold regular_files. cbn [fs with_fs].
  rewrite omap_insert_None by reflexivity.
  apply delete_id. now rewrite lookup_omap, Ep.
Qed.

Lemma keeping_regular_mkdir p :
  keeping regular_files (fun _ => True) (fs_mkdir env p).
Proof.
  unfold fs_mkdir. induction (lineage p) as [|d dirs IH]; simpl.
  - now apply keeping_ret.
  - apply keeping_bind; [apply keeping_regular_mkdir_one|].
    intros _. exact IH.
Qed.

Lemma keeping_regular_mkdirAll dirs :
  keeping regular_files (fun _ => True) (EdaValidator.mkdirAll env dirs).
Proof.
  induction dirs as [|d dirs IH]; simpl.
  - now apply keeping_ret.
  - apply keeping_bind; [|intros _; exact IH].
    apply keeping_try_catch; [apply keeping_regular_mkdir|].
    intros e. apply keeping_throw.
Qed.
End Directories.

Section RunHandlers.
Context `{Runtime}.
Import EdaCommands.

Lemma yosysArgs_seed_zero script :
  yosysArgs script (Some 0%float)
  = [lit "-s"; script; lit "-p"; lit "abc -script +resyn2 -seed 0"].
Proof. reflexivity. Qed.

(** The two handlers of [runYosys]: a child that closes without an exit
    code of its own, as one killed at the time limit does, resolves
    with exit code 0, since [code || 0] turns the missing code into
    success; a child that could not be started resolves with 1. *)
Lemma close_without_code_resolves_zero (out err : list jsstring) files
    (msg : jsstring) :
  yr_exitCode (resolved {| stdout_chunks := out; stderr_chunks := err;
                           child_files := files;
                           settle := OnClose None |}) = 0%float
  /\ yr_exitCode (resolved {| stdout_chunks := out; stderr_chunks := err;
                              child_files := files;
                              settle := OnError msg |}) = 1%float.
Proof. split; reflexivity. Qed.
End RunHandlers.

(** C6, on the code.  On a machine whose yosys prints what the
    extractor finds no metrics in, [run], in a valid project, passes
    its two checks, starts [yosys -V] and never returns: no failure is
    reported, the script is never run, and no file is written, neither
    a result nor the log. *)
Theorem run_reports_no_parse_failure :
  (forall d,
     YosysParser.parseMetrics
       {| stdout := yr_stdout (EdaCommands.resolved unparseable);
          stderr := yr_stderr (EdaCommands.resolved unparseable);
          exitCode :=
            yr_exitCode (EdaCommands.resolved unparseable);
          duration := d |} = None)
  /\ EdaCommands.run (H := sample_runtime) (sample_env unparseable)
       (EdaCli.createEdaContext (lit "/w")) [] no_options
       (fresh sample_project)
     = (inl (Unsettled None), probing (fresh sample_project))
  /\ spawned (probing (fresh sample_project)) = [[lit "-V"]]
  /\ fs (probing (fresh sample_project))
       !! lit "/w/.gemini_eda/logs/yosys.log" = None
  /\ fs (probing (fresh sample_project))
       !! lit "/w/.gemini_eda/last_run/result.json" = None.
Proof. split; [intros d; reflexivity|]. vm_compute. repeat split. Qed.

(** C7, on the code.  In a valid project, on a machine whose yosys
    would be ended at the time limit, [run] starts [yosys -V] and never
    returns: the synthesis is never started, nothing is ended after
    thirty minutes, and no failure is reported.  And the handler that
    would receive a child ended that way resolves with exit code 0. *)
Theorem run_enforces_no_time_limit :
  EdaCommands.run (H := sample_runtime)
    (sample_env (reporting (OnClose None)))
    (EdaCli.createEdaContext (lit "/w")) [] no_options
    (fresh sample_project)
  = (inl (Unsettled None), probing (fresh sample_project))
  /\ spawned (probing (fresh sample_project)) = [[lit "-V"]]
  /\ yr_exitCode (EdaCommands.resolved (reporting (OnClose None))) = 0%float.
Proof. vm_compute. repeat split. Qed.

(** C10, on the code.  A run with seed 0 in a valid project starts
    [yosys -V] and never returns: no child is given the seed, and no
    result is written.  The arguments [runYosys] makes of seed 0 do
    carry it, and [options.seed || null] is null for it. *)
Theorem run_with_seed_zero_never_starts :
  EdaCommands.run (H := sample_runtime)
    (sample_env (reporting (OnClose (Some 0%float))))
    (EdaCli.createEdaContext (lit "/w")) [] (seed_option 0)
    (fresh sample_project)
  = (inl (Unsettled None), probing (fresh sample_project))
  /\ spawned (probing (fresh sample_project)) = [[lit "-V"]]
  /\ fs (probing (fresh sample_project))
       !! lit "/w/.gemini_eda/last_run/result.json" = None
  /\ EdaCommands.yosysArgs (H := sample_runtime)
       (lit "/w/recipes/synth_resyn2.ys") (opt_seed (seed_option 0))
     = [lit "-s"; lit "/w/recipes/synth_resyn2.ys"; lit "-p";
        lit "abc -script +resyn2 -seed 0"]
  /\ or_null (opt_seed (seed_option 0)) = None.
Proof. vm_compute. repeat split. Qed.


(* ===================================================================== *)
(** * The order of the Numbers *)
(* ===================================================================== *)

Lemma SFcompare_refl a : SFeqb a a = true \/ a = S754_nan.
Proof.
  destruct a as [s|s| |s m e]; [left|left|now right|left];
    unfold SFeqb, SFcompare.
  - reflexivity.
  - now destruct s.
  - rewrite Z.compare_refl.
    change (PosDef.Pos.compare_cont Eq m m) with (Pos.compare m m).
    rewrite Pos.compare_refl. now destruct s.
Qed.

Lemma is_nan_spec x : is_nan x = true <-> Prim2SF x = S754_nan.
Proof.
  unfold is_nan. rewrite FloatAxioms.eqb_spec. split.
  - intros E. destruct (SFcompare_refl (Prim2SF x)) as [E'|E']; [|exact E'].
    rewrite E' in E. discriminate.
  - intros ->. reflexivity.
Qed.

Lemma leb_refl x : is_nan x = false -> PrimFloat.leb x x = true.
Proof.
  intros E. rewrite FloatAxioms.leb_spec.
  destruct (SFcompare_refl (Prim2SF x)) as [E'|E'].
  - unfold SFeqb in E'. unfold SFleb.
    destruct (SFcompare (Prim2SF x) (Prim2SF x)) as [[| |]|]; auto; discriminate.
  - apply is_nan_spec in E'. congruence.
Qed.

Lemma leb_not_nan x y :
  PrimFloat.leb x y = true -> is_nan x = false /\ is_nan y = false.
Proof.
  rewrite FloatAxioms.leb_spec. intros E.
  split; apply not_true_is_false; intros N; apply is_nan_spec in N;
    rewrite N in E; [|destruct (Prim2SF x)]; discriminate.
Qed.

Lemma SFleb_trans a b c : SFleb a b = true -> SFleb b c = true -> SFleb a c = true.
Proof.
  unfold SFleb.
  destruct a as [sa|sa| |sa ma ea], b as [sb|sb| |sb mb eb],
    c as [sc|sc| |sc mc ec]; cbn; try discriminate; try reflexivity;
    try (destruct sa; try discriminate; try reflexivity);
    try (destruct sb; try discriminate; try reflexivity);
    try (destruct sc; try discriminate; try reflexivity);
    change (PosDef.Pos.compare_cont Eq) with Pos.compare;
    destruct (Z.compare_spec ea eb); destruct (Z.compare_spec eb ec);
    destruct (Z.compare_spec ea ec); cbn; try discriminate; try reflexivity;
    try lia; subst;
    destruct (Pos.compare_spec ma mb); destruct (Pos.compare_spec mb mc);
    destruct (Pos.compare_spec ma mc); cbn; try discriminate; try reflexivity;
    lia.
Qed.

Lemma leb_trans x y z :
  PrimFloat.leb x y = true -> PrimFloat.leb y z = true -> PrimFloat.leb x z = true.
Proof. rewrite !FloatAxioms.leb_spec. apply SFleb_trans. Qed.

(* ===================================================================== *)
(** * validation.ts: what the checks decide *)
(* ===================================================================== *)

Lemma startsWith_spec s p : startsWith s p = true <-> exists b, s = p ++ b.
Proof.
  revert s. induction p as [|c p IH]; intros s.
  - split; [intros _; now exists s | now destruct s].
  - destruct s as [|x s].
    + split; [discriminate | intros [b E]; discriminate].
    + change (startsWith (x :: s) (c :: p))
        with ((x =? c)%N && startsWith s p).
      rewrite andb_true_iff, N.eqb_eq, IH. split.
      * intros [-> [b ->]]. eauto.
      * intros [b E]. injection E as -> ->. eauto.
Qed.

Lemma includes_spec s p : includes s p = true <-> exists a b, s = a ++ p ++ b.
Proof.
  induction s as [|x s IH]; cbn [includes]; rewrite orb_true_iff, startsWith_spec.
  - split.
    + intros [[b E]|E]; [exists [], b; exact E | discriminate].
    + intros (a & b & E). left. destruct a; [eauto|discriminate].
  - rewrite IH. split.
    + intros [[b E]|(a & b & E)]; [exists [], b; exact E|].
      exists (x :: a), b. now rewrite E.
    + intros (a & b & E). destruct a as [|y a]; [left; eauto|].
      right. injection E as -> ->. eauto.
Qed.

Section ValidatorProperties.
Variable env : Env.
Import EdaValidator.

(** X1.  Checking a recipe path never throws and changes nothing; the
    path is valid exactly when it is a regular file, which is also what
    [fileExists] answers, while [directoryExists] answers whether it is
    a directory; a missing path and a directory each give their own
    error. *)
Theorem recipe_file_validity (p : jsstring) (st : State) :
  exists r isFile isDir,
    validateRecipeFile p st = (inr r, st)
    /\ fileExists p st = (inr isFile, st)
    /\ directoryExists p st = (inr isDir, st)
    /\ isFile = valid r
    /\ (valid r = true <-> exists c m, fs st !! p = Some (RegularFile c m))
    /\ (isDir = true <-> fs st !! p = Some Directory)
    /\ (valid r = true <-> errors r = [])
    /\ match fs st !! p with
       | Some (RegularFile _ _) => errors r = []
       | Some Directory => errors r = [p ++ lit " exists but is not a file"]
       | None => errors r = [lit "Recipe file not found: " ++ p]
       end.
Proof.
  unfold validateRecipeFile, fileExists, directoryExists, try_catch, bind,
    fs_stat, ret.
  destruct (fs st !! p) as [[c m|]|]; cbn;
    do 3 eexists; repeat (split; [reflexivity|]); repeat split;
    try discriminate; try (intros (c' & m' & E); discriminate); eauto.
Qed.

(** X2.  The directory check never throws and changes nothing; the
    structure is valid exactly when [rtl/] is a directory and
    [recipes/] is not something else than a directory: a missing
    [recipes/] is a warning, and [build/] never makes it invalid. *)
Theorem directory_structure_validity (ctx : EdaCommandContext) (st : State) :
  exists r,
    validateDirectoryStructure ctx st = (inr r, st)
    /\ (valid r = true <->
          fs st !! rtlDir ctx = Some Directory
          /\ forall c m, fs st !! recipesDir ctx <> Some (RegularFile c m))
    /\ (valid r = true <-> errors r = [])
    /\ (fs st !! rtlDir ctx = None ->
        In (lit "rtl/ directory not found. Create rtl/ and add your sources (e.g., rtl/top.v)")
          (errors r))
    /\ (fs st !! recipesDir ctx = None ->
        In (lit "recipes/ directory not found. Run /eda:recipe:init to create it")
          (validation_warnings r)).
Proof.
  unfold validateDirectoryStructure, try_catch, bind, fs_stat, ret.
  destruct (fs st !! rtlDir ctx) as [[c1 m1|]|];
    destruct (fs st !! recipesDir ctx) as [[c2 m2|]|];
    destruct (fs st !! buildDir ctx) as [[c3 m3|]|]; cbn;
    eexists; (split; [reflexivity|]); cbn; repeat split;
    try discriminate; try congruence; auto;
    try (intros [E1 E2]; try discriminate; exfalso; eapply E2; reflexivity).
Qed.

(** X3.  The content check is valid exactly when the recipe can be
    read; the four content checks only warn, and there is no warning
    exactly when the text has each of [rtl/], [read_verilog], [synth]
    and [stat] somewhere in it. *)
Theorem recipe_content_checks (p : jsstring) (st : State) :
  exists r,
    validateRecipeContent p st = (inr r, st)
    /\ (valid r = true <-> exists c m, fs st !! p = Some (RegularFile c m))
    /\ (forall c m, fs st !! p = Some (RegularFile c m) ->
          errors r = []
          /\ (validation_warnings r = [] <->
                Forall (fun w => exists a b, c = a ++ w ++ b)
                  [lit "rtl/"; lit "read_verilog"; lit "synth"; lit "stat"])).
Proof.
  unfold validateRecipeContent, try_catch, bind, fs_readFile, ret.
  destruct (fs st !! p) as [[c m|]|] eqn:E; cbv beta iota zeta;
    eexists; (split; [reflexivity|]);
    cbn [valid errors validation_warnings fst snd length Nat.eqb].
  - split; [split; eauto|]. intros c' m' E'. injection E' as <- <-.
    split; [reflexivity|].
    rewrite !Forall_cons, <- !includes_spec, Forall_nil.
    destruct (includes c (lit "rtl/")), (includes c (lit "read_verilog")),
      (includes c (lit "synth")), (includes c (lit "stat"));
      cbn [negb app]; intuition discriminate.
  - split; [split; [discriminate|intros (c & m & E'); discriminate]|].
    intros c m E'. discriminate.
  - split; [split; [discriminate|intros (c & m & E'); discriminate]|].
    intros c m E'. discriminate.
Qed.

(** One directory of a recursive [mkdir]. *)
Lemma mkdir_one_cases p d st :
  (fs st !! d = Some Directory /\ mkdir_one env p d st = (inr tt, st))
  \/ (fs st !! d = None /\ mkdir_error env d = None
      /\ mkdir_one env p d st
         = (inr tt, with_fs (<[d := Directory]> (fs st)) st))
  \/ (~ (fs st !! d = Some Directory
         \/ (fs st !! d = None /\ mkdir_error env d = None))
      /\ exists e, mkdir_one env p d st = (inl (Thrown e), st)).
Proof.
  unfold mkdir_one, throw. destruct (fs st !! d) as [[c m|]|] eqn:E.
  - right. right. split; [intros [?|[? _]]; discriminate | eauto].
  - auto.
  - destruct (mkdir_error env d) as [e|] eqn:Ee.
    + right. right. split; [intros [?|[_ ?]]; discriminate | eauto].
    + right. left. auto.
Qed.

Lemma mkdir_each_made p dirs : forall st,
  Forall (fun d => fs st !! d = Some Directory) dirs ->
  mkdir_each env p dirs st = (inr tt, st).
Proof.
  induction dirs as [|d dirs IH]; intros st Hd; [reflexivity|].
  apply Forall_cons in Hd as [Hd Hrest].
  cbn [mkdir_each]. unfold bind, mkdir_one. rewrite Hd. auto.
Qed.

(** The directories of a list, made in turn: all of them can be made,
    and then they are directories and nothing else has changed, or one
    cannot, and the error is thrown. *)
Lemma mkdir_each_cases p dirs : forall st,
  let creatable d :=
    fs st !! d = Some Directory
    \/ (fs st !! d = None /\ mkdir_error env d = None) in
  (Forall creatable dirs
   /\ exists st', mkdir_each env p dirs st = (inr tt, st')
        /\ Forall (fun d => fs st' !! d = Some Directory) dirs
        /\ (forall q, q ∉ dirs -> fs st' !! q = fs st !! q))
  \/ (~ Forall creatable dirs
      /\ exists e st', mkdir_each env p dirs st = (inl (Thrown e), st')).
Proof.
  induction dirs as [|d dirs IH]; intros st creatable.
  - left. split; [constructor|]. exists st. repeat split; auto.
  - cbn [mkdir_each]. unfold bind.
    destruct (mkdir_one_cases p d st)
      as [[Ed ->]|[(Ed & Ee & ->)|[Hn [e ->]]]].
    + destruct (IH st) as [[Hc (st' & -> & Hall & Hother)]
                          |[Hc (e & st' & ->)]].
      * left. split; [constructor; [now left | exact Hc]|].
        exists st'. split; [reflexivity|]. split.
        -- constructor; [|exact Hall].
           destruct (decide (d ∈ dirs)) as [Hin|Hin].
           ++ rewrite Forall_forall in Hall. now apply Hall.
           ++ now rewrite Hother.
        -- intros q Hq. apply Hother. intros Hin. apply Hq.
           now apply list_elem_of_further.
      * right. split; [|eauto].
        intros Hall. apply Forall_cons in Hall as [_ Hall]. auto.
    + set (st1 := with_fs (<[d := Directory]> (fs st)) st).
      assert (Hsame : forall d',
                 (fs st1 !! d' = Some Directory
                  \/ (fs st1 !! d' = None /\ mkdir_error env d' = None))
                 <-> creatable d').
      { intros d'. unfold creatable, st1. cbn [fs with_fs].
        destruct (decide (d = d')) as [<-|Hne].
        - rewrite lookup_insert_eq. split; auto.
        - now rewrite lookup_insert_ne. }
      destruct (IH st1) as [[Hc (st' & -> & Hall & Hother)]
                           |[Hc (e & st' & ->)]].
      * left. split.
        { constructor; [right; auto|].
          eapply Forall_impl; [exact Hc|]. intros d' Hd'. now apply Hsame. }
        exists st'. split; [reflexivity|]. split.
        -- constructor; [|exact Hall].
           destruct (decide (d ∈ dirs)) as [Hin|Hin].
           ++ rewrite Forall_forall in Hall. now apply Hall.
           ++ rewrite Hother by exact Hin. unfold st1. cbn [fs with_fs].
              apply lookup_insert_eq.
        -- intros q Hq.
           rewrite Hother
             by (intros Hin; apply Hq; now apply list_elem_of_further).
           unfold st1. cbn [fs with_fs]. apply lookup_insert_ne.
           intros ->. apply Hq. apply list_elem_of_here.
      * right. split; [|eauto].
        intros Hall. apply Forall_cons in Hall as [_ Hall]. apply Hc.
        eapply Forall_impl; [exact Hall|]. intros d' Hd'. now apply Hsame.
    + right. split; [|eauto].
      intros Hall. apply Forall_cons in Hall as [Hd _]. contradiction.
Qed.

Lemma mkdirAll_made dirs : forall st,
  Forall (fun d => fs st !! d = Some Directory) (made dirs) ->
  mkdirAll env dirs st = (inr tt, st).
Proof.
  induction dirs as [|d dirs IH]; intros st Hd; [reflexivity|].
  change (made (d :: dirs)) with (lineage d ++ made dirs) in Hd.
  apply Forall_app in Hd as [Hd Hrest].
  cbn [mkdirAll]. unfold bind, try_catch, fs_mkdir.
  rewrite (mkdir_each_made d (lineage d) st Hd). auto.
Qed.

Lemma mkdirAll_spec dirs : forall st,
  let creatable d :=
    fs st !! d = Some Directory
    \/ (fs st !! d = None /\ mkdir_error env d = None) in
  (Forall creatable (made dirs) ->
     exists st', mkdirAll env dirs st = (inr tt, st')
       /\ Forall (fun d => fs st' !! d = Some Directory) (made dirs)
       /\ (forall p, p ∉ made dirs -> fs st' !! p = fs st !! p))
  /\ (~ Forall creatable (made dirs) ->
      exists d e st',
        d ∈ dirs
        /\ mkdirAll env dirs st
           = (inl (Thrown (Error (lit "Failed to create directory " ++ d
                                  ++ lit ": " ++ e))), st')).
Proof.
  induction dirs as [|d dirs IH]; intros st creatable.
  - split.
    + intros _. exists st. repeat split; auto.
    + intros Hn. destruct Hn. constructor.
  - change (made (d :: dirs)) with (lineage d ++ made dirs).
    cbn [mkdirAll]. unfold bind, try_catch, throw, fs_mkdir.
    destruct (mkdir_each_cases d (lineage d) st)
      as [[Hd (st1 & -> & Hmade & Hkept)]|[Hd (e & st1 & ->)]].
    + assert (Hsame : forall d',
                 (fs st1 !! d' = Some Directory
                  \/ (fs st1 !! d' = None /\ mkdir_error env d' = None))
                 <-> creatable d').
      { intros d'. unfold creatable.
        destruct (decide (d' ∈ lineage d)) as [Hin|Hin].
        - rewrite Forall_forall in Hmade, Hd. split; intros _.
          + now apply Hd.
          + left. now apply Hmade.
        - now rewrite Hkept. }
      destruct (IH st1) as [IHok IHfail]. split.
      * intros Hc. apply Forall_app in Hc as [_ Hc].
        destruct IHok as (st' & -> & Hall & Hother).
        { eapply Forall_impl; [exact Hc|]. intros d' Hd'. now apply Hsame. }
        exists st'. split; [reflexivity|]. split.
        -- apply Forall_app. split; [|exact Hall].
           apply Forall_forall. intros q Hq.
           destruct (decide (q ∈ made dirs)) as [Hin|Hin].
           ++ rewrite Forall_forall in Hall. now apply Hall.
           ++ rewrite Hother by exact Hin.
              rewrite Forall_forall in Hmade. now apply Hmade.
        -- intros q Hq. rewrite elem_of_app in Hq.
           rewrite Hother by tauto. apply Hkept. tauto.
      * intros Hc. destruct IHfail as (d' & e & st' & Hin & ->).
        { intros Hall. apply Hc. apply Forall_app. split; [exact Hd|].
          eapply Forall_impl; [exact Hall|]. intros d' Hd'. now apply Hsame. }
        exists d', e, st'.
        split; [now apply list_elem_of_further | reflexivity].
    + split.
      * intros Hc. apply Forall_app in Hc as [Hc _]. contradiction.
      * intros _. exists d, e, st1.
        split; [apply list_elem_of_here | reflexivity].
Qed.

(** X4.  [ensureDirectories] succeeds exactly when each of its five
    paths, and each directory on the way to it, is a directory already
    or is missing and can be made.  It then leaves all of them as
    directories, every other path and every regular file as they were,
    and a second call changes nothing.  Otherwise it throws, naming the
    one of the five it could not create. *)
Theorem ensureDirectories_spec (ctx : EdaCommandContext) (st : State) :
  let dirs := [edaDir ctx; logsDir ctx; lastRunDir ctx; recipesDir ctx;
               buildDir ctx] in
  let creatable d :=
    fs st !! d = Some Directory
    \/ (fs st !! d = None /\ mkdir_error env d = None) in
  (Forall creatable (made dirs) ->
     exists st',
       ensureDirectories env ctx st = (inr tt, st')
       /\ Forall (fun d => fs st' !! d = Some Directory) (made dirs)
       /\ (forall p, p ∉ made dirs -> fs st' !! p = fs st !! p)
       /\ regular_files st' = regular_files st
       /\ ensureDirectories env ctx st' = (inr tt, st'))
  /\ (~ Forall creatable (made dirs) ->
      exists d e st',
        d ∈ dirs
        /\ ensureDirectories env ctx st
           = (inl (Thrown (Error (lit "Failed to create directory " ++ d
                                  ++ lit ": " ++ e))), st')).
Proof.
  intros dirs creatable. destruct (mkdirAll_spec dirs st) as [Hok Hfail].
  split; [|exact Hfail].
  intros Hc. destruct (Hok Hc) as (st' & E & Hall & Hother).
  exists st'. split; [exact E|]. split; [exact Hall|]. split; [exact Hother|].
  split.
  - now destruct (keeping_regular_mkdirAll env dirs _ _ _ E).
  - now apply mkdirAll_made.
Qed.



(** What [listRecipes] says of a recipe it lists: its name ends in
    [.ys], it is the file of that name in the recipes directory, and
    content and time are those of the file. *)
Lemma collectRecipes_spec ctx files : forall st,
  exists l st',
    collectRecipes ctx files st = (inr l, st')
    /\ st' = with_console (console st') st
    /\ Forall (fun r =>
                 rc_name r ∈ files
                 /\ endsWith (rc_name r) (lit ".ys") = true
                 /\ rc_path r = path_join (recipesDir ctx) (rc_name r)
                 /\ fs st !! rc_path r
                    = Some (RegularFile (rc_content r) (rc_lastModified r))) l
    /\ (forall name c m,
          name ∈ files -> endsWith name (lit ".ys") = true ->
          fs st !! path_join (recipesDir ctx) name = Some (RegularFile c m) ->
          exists r, r ∈ l /\ rc_name r = name).
Proof.
  induction files as [|file files IH]; intros st.
  - exists [], st. split; [reflexivity|]. split; [now destruct st|].
    split; [constructor|]. intros name c m Hin. inversion Hin.
  - cbn [collectRecipes]. unfold bind at 1.
    set (recipePath := path_join (recipesDir ctx) file).
    assert (Hfound : exists found st1,
      (if endsWith file (lit ".ys")
       then try_catch
              (stat <- fs_stat recipePath ;;
               content <- fs_readFile recipePath ;;
               ret [{| rc_name := file; rc_path := recipePath;
                       rc_lastModified := mtime_of stat;
                       rc_content := content |}])
              (fun error =>
                 console_warn (lit "Warning: Could not read recipe file "
                               ++ file ++ lit ": " ++ error) ;;
                 ret [])
       else ret []) st = (inr found, st1)
      /\ st1 = with_console (console st1) st
      /\ match fs st !! recipePath with
         | Some (RegularFile c m) =>
             if endsWith file (lit ".ys")
             then found = [{| rc_name := file; rc_path := recipePath;
                              rc_lastModified := m; rc_content := c |}]
             else found = []
         | _ => found = []
         end).
    { destruct (endsWith file (lit ".ys")).
      - unfold try_catch, bind, fs_stat, fs_readFile, ret, console_warn, modify.
        destruct (fs st !! recipePath) as [[c m|]|] eqn:E; cbn;
          rewrite ?E; do 2 eexists; (split; [reflexivity|]);
          (split; [now destruct st | reflexivity]).
      - exists [], st. split; [reflexivity|]. split; [now destruct st|].
        now destruct (fs st !! recipePath) as [[c m|]|]. }
    destruct Hfound as (found & st1 & -> & Hst1 & Hfound).
    destruct (IH st1) as (others & st' & E & Hst' & Hall & Hcomplete).
    unfold bind. rewrite E. exists (found ++ others), st'.
    split; [reflexivity|].
    assert (Hfs : fs st1 = fs st) by now rewrite Hst1.
    split; [rewrite Hst', Hst1 at 1; reflexivity|].
    split.
    + apply Forall_app. split.
      * destruct (fs st !! recipePath) as [[c m|]|] eqn:Ef;
          try (subst found; constructor).
        destruct (endsWith file (lit ".ys")) eqn:Ee; subst found;
          constructor; [|constructor].
        cbn. split; [apply list_elem_of_here|]. auto.
      * eapply Forall_impl; [exact Hall|]. intros r (H1 & H2 & H3 & H4).
        split; [now apply list_elem_of_further|]. rewrite <- Hfs. auto.
    + intros name c m Hin Hys Hreg. apply elem_of_cons in Hin as [->|Hin].
      * fold recipePath in Hreg. rewrite Hreg, Hys in Hfound. subst found.
        eexists. split; [apply list_elem_of_here | reflexivity].
      * destruct (Hcomplete name c m Hin Hys) as (r & Hr & Hname).
        { now rewrite Hfs. }
        exists r. split; [|exact Hname]. apply elem_of_app. now right.
Qed.

End ValidatorProperties.

(* ===================================================================== *)
(** * commands.ts: what the verifier accepts *)
(* ===================================================================== *)

Lemma drop_while_head {A} (p : A -> bool) x (l : list A) :
  p x = false -> drop_while p (x :: l) = x :: l.
Proof. intros E. cbn. now rewrite E. Qed.

(** [trim] takes the white space off both ends of a text that starts
    and ends with something else. *)
Lemma trim_between ws1 a mid b ws2 :
  all_spaces ws1 -> all_spaces ws2 ->
  is_space a = false -> is_space b = false ->
  trim (ws1 ++ (a :: mid ++ [b]) ++ ws2) = a :: mid ++ [b].
Proof.
  intros H1 H2 Ha Hb. unfold trim.
  destruct (take_while_all is_space ws1 ((a :: mid ++ [b]) ++ ws2) H1 Ha)
    as [_ ->].
  rewrite rev_app_distr. cbn [rev app]. rewrite rev_app_distr. cbn [rev app].
  rewrite <- ?app_assoc. cbn [app].
  destruct (take_while_all is_space (rev ws2) (b :: rev mid ++ [a])) as [_ ->].
  - apply Forall_rev. exact H2.
  - exact Hb.
  - cbn [rev]. rewrite rev_app_distr, rev_involutive. reflexivity.
Qed.

Section VerifierProperties.
Context `{Runtime}.
Import EdaCommands.

(** X6.  A comparison in which a cells or levels value is not a number
    is never accepted; and a record is accepted against itself exactly
    when its cells and levels are numbers. *)
Theorem acceptance_needs_numbers (baseline current : EdaMetrics) :
  (accepted (performVerification baseline current) = true ->
     is_nan (cells baseline) = false /\ is_nan (levels baseline) = false
     /\ is_nan (cells current) = false /\ is_nan (levels current) = false)
  /\ (accepted (performVerification current current) = true <->
      is_nan (cells current) = false /\ is_nan (levels current) = false).
Proof.
  unfold performVerification. cbn [accepted]. split.
  - intros E. apply andb_true_iff in E as [El Ec].
    apply leb_not_nan in El as [? ?], Ec as [? ?]. auto.
  - rewrite andb_true_iff. split.
    + intros [El Ec]. apply leb_not_nan in El as [? ?], Ec as [? ?]. auto.
    + intros [Ec El]. split; now apply leb_refl.
Qed.

(** X7.  Acceptance is transitive: a record accepted against a
    baseline accepts in turn, against that same baseline, every record
    that would be accepted against it. *)
Theorem acceptance_transitive (a b c : EdaMetrics) :
  accepted (performVerification a b) = true ->
  accepted (performVerification b c) = true ->
  accepted (performVerification a c) = true.
Proof.
  unfold performVerification. cbn [accepted]. rewrite !andb_true_iff.
  intros [L1 C1] [L2 C2]. split; eapply leb_trans; eauto.
Qed.

(** X8.  The message of a verification is the two lines of figures
    and the verdict, without the line feeds around them; its last line
    reads Accepted exactly when the verification accepted. *)
Theorem message_states_verdict (baseline current : EdaMetrics) :
  let v := performVerification baseline current in
  v_message v
  = lit "cells  base: " ++ Number_toString (cells baseline)
    ++ lit "  now: " ++ Number_toString (cells current) ++ [LF]
    ++ lit "levels base: " ++ Number_toString (levels baseline)
    ++ lit "     now: " ++ Number_toString (levels current) ++ [LF]
    ++ (if accepted v then 9989%N :: lit " Accepted"
        else 10060%N :: lit " Rejected").
Proof.
  intros v. unfold v, performVerification. cbn [v_message accepted].
  set (ok := PrimFloat.leb (levels current) (levels baseline)
             && PrimFloat.leb (cells current) (cells baseline)).
  set (mid := lit "ells  base: " ++ Number_toString (cells baseline)
    ++ lit "  now: " ++ Number_toString (cells current) ++ [LF]
    ++ lit "levels base: " ++ Number_toString (levels baseline)
    ++ lit "     now: " ++ Number_toString (levels current) ++ [LF]
    ++ (if ok then 9989%N :: lit " Accepte" else 10060%N :: lit " Rejecte")).
  transitivity (99%N :: mid ++ [100%N]).
  - rewrite <- (trim_between [LF] 99%N mid 100%N [LF]);
      [|repeat constructor..|reflexivity|reflexivity].
    f_equal. unfold mid. destruct ok; repeat (rewrite <- ?app_assoc; cbn [app]);
      reflexivity.
  - unfold mid. destruct ok; repeat (rewrite <- ?app_assoc; cbn [app]);
      reflexivity.
Qed.
End VerifierProperties.

Lemma acceptance_transitive_witness :
  accepted (EdaCommands.performVerification (H := sample_runtime)
              (sample_metrics 100 10) (sample_metrics 90 9)) = true.
Proof.
  apply (acceptance_transitive (H := sample_runtime)
           (sample_metrics 100 10) (sample_metrics 95 10)
           (sample_metrics 90 9)); reflexivity.
Defined.

(* ===================================================================== *)
(** * commands.ts: the commands that only read *)
(* ===================================================================== *)

Section ReadingCommands.
Context `{Runtime}.
Import EdaCommands.

(** [verify], case by case. *)
Lemma verify_cases ctx args options st :
  verify ctx args options st =
    (inr match fs st !! path_join (edaDir ctx) EDA_BASELINE_FILE with
         | Some (RegularFile bc _) =>
             match fs st !! path_join (lastRunDir ctx) EDA_RESULT_FILE with
             | Some (RegularFile rc _) =>
                 match JSON_parse bc with
                 | inl error =>
                     failure (lit "Error during verification: " ++ error)
                 | inr baseline =>
                     match JSON_parse rc with
                     | inl error =>
                         failure (lit "Error during verification: " ++ error)
                     | inr result =>
                         verdict (performVerification (b_metrics baseline)
                                    (metrics result))
                     end
                 end
             | _ => failure NO_LAST_RUN
             end
         | _ => failure NO_BASELINE
         end, st).
Proof.
  unfold verify, try_catch, bind, EdaValidator.fileExists, try_catch, bind,
    fs_stat, fs_readFile, ret, throw. cbv zeta.
  destruct (fs st !! path_join (edaDir ctx) EDA_BASELINE_FILE)
    as [[bc bm|]|] eqn:Eb; cbn [isFile negb]; try reflexivity.
  destruct (fs st !! path_join (lastRunDir ctx) EDA_RESULT_FILE)
    as [[rc rm|]|] eqn:Er; cbn [isFile negb]; try reflexivity.
  rewrite Eb, Er.
  destruct (JSON_parse bc) as [e|b]; [reflexivity|].
  destruct (JSON_parse rc) as [e|r]; reflexivity.
Qed.

(** X9.  [verify] never throws and changes nothing.  Without a
    baseline file it fails with the baseline message, whether or not
    there is a last result; with a baseline and no last result it fails
    with the last-run message; and it succeeds exactly when both files
    are there, both parse, and the levels and cells of the result are at
    most those of the baseline. *)
Theorem verify_outcomes ctx args options st :
  let baselineFile := fs st !! path_join (edaDir ctx) EDA_BASELINE_FILE in
  let resultFile := fs st !! path_join (lastRunDir ctx) EDA_RESULT_FILE in
  exists r,
    verify ctx args options st = (inr r, st)
    /\ ((forall c m, baselineFile <> Some (RegularFile c m)) ->
        r = failure NO_BASELINE)
    /\ ((exists c m, baselineFile = Some (RegularFile c m)) ->
        (forall c m, resultFile <> Some (RegularFile c m)) ->
        r = failure NO_LAST_RUN)
    /\ (success r = true <->
        exists bc bm rc rm baseline result,
          baselineFile = Some (RegularFile bc bm)
          /\ resultFile = Some (RegularFile rc rm)
          /\ JSON_parse bc = inr baseline /\ JSON_parse rc = inr result
          /\ PrimFloat.leb (levels (metrics result))
               (levels (b_metrics baseline)) = true
          /\ PrimFloat.leb (cells (metrics result))
               (cells (b_metrics baseline)) = true).
Proof.
  intros baselineFile resultFile. rewrite verify_cases.
  fold baselineFile resultFile. eexists. split; [reflexivity|].
  destruct baselineFile as [[bc bm|]|] eqn:Eb.
  - split; [intros Hn; now destruct (Hn bc bm)|].
    destruct resultFile as [[rc rm|]|] eqn:Er.
    + split; [intros _ Hn; now destruct (Hn rc rm)|].
      destruct (JSON_parse bc) as [e|b] eqn:Epb.
      { split; [discriminate|].
        intros (? & ? & ? & ? & ? & ? & E1 & E2 & E3 & _).
        injection E1 as <- <-. congruence. }
      destruct (JSON_parse rc) as [e|r] eqn:Epr.
      { split; [discriminate|].
        intros (? & ? & ? & ? & ? & ? & E1 & E2 & E3 & E4 & _).
        injection E2 as <- <-. congruence. }
      cbn [verdict success performVerification accepted]. split.
      * intros E. apply andb_true_iff in E as [El Ec].
        exists bc, bm, rc, rm, b, r. auto 10.
      * intros (? & ? & ? & ? & ? & ? & E1 & E2 & E3 & E4 & El & Ec).
        injection E1 as <- <-. injection E2 as <- <-.
        rewrite Epb in E3. rewrite Epr in E4.
        injection E3 as <-. injection E4 as <-.
        now rewrite El, Ec.
    + split; [reflexivity|]. split; [discriminate|].
      intros (? & ? & ? & ? & ? & ? & _ & E2 & _). discriminate.
    + split; [reflexivity|]. split; [discriminate|].
      intros (? & ? & ? & ? & ? & ? & _ & E2 & _). discriminate.
  - split; [reflexivity|]. split; [intros (c & m & E); discriminate|].
    split; [discriminate|].
    intros (? & ? & ? & ? & ? & ? & E1 & _). discriminate.
  - split; [reflexivity|]. split; [intros (c & m & E); discriminate|].
    split; [discriminate|].
    intros (? & ? & ? & ? & ? & ? & E1 & _). discriminate.
Qed.

(** [last], case by case. *)
Lemma last_cases ctx args options st :
  exists r,
    last ctx args options st = (inr r, st)
    /\ match fs st !! path_join (lastRunDir ctx) EDA_RESULT_FILE with
       | Some (RegularFile rc _) =>
           match JSON_parse rc with
           | inl error => r = failure (lit "Error reading last run: " ++ error)
           | inr result =>
               success r = true /\ data r = Some (DataResult result)
               /\ res_exitCode r = None
           end
       | _ => r = failure NO_LAST_RUN
       end.
Proof.
  unfold last, try_catch, bind, EdaValidator.fileExists, try_catch, bind,
    fs_stat, fs_readFile, ret, throw. cbv zeta.
  destruct (fs st !! path_join (lastRunDir ctx) EDA_RESULT_FILE)
    as [[rc rm|]|] eqn:Er; cbn [isFile negb];
    try (eexists; split; reflexivity).
  rewrite Er.
  destruct (JSON_parse rc) as [e|r]; eexists; (split; [reflexivity|]); auto.
Qed.

(** X10.  [last] never throws and changes nothing.  It succeeds
    exactly when the last result is a regular file that parses, and the
    data it returns is then the parsed record; without the file it
    fails with the last-run message. *)
Theorem last_outcomes ctx args options st :
  let resultFile := fs st !! path_join (lastRunDir ctx) EDA_RESULT_FILE in
  exists r,
    last ctx args options st = (inr r, st)
    /\ ((forall c m, resultFile <> Some (RegularFile c m)) ->
        r = failure NO_LAST_RUN)
    /\ (forall result,
          success r = true /\ data r = Some (DataResult result) <->
          exists c m, resultFile = Some (RegularFile c m)
                      /\ JSON_parse c = inr result).
Proof.
  intros resultFile.
  destruct (last_cases ctx args options st) as (r & E & Hr).
  fold resultFile in Hr. exists r. split; [exact E|].
  destruct resultFile as [[rc rm|]|] eqn:Er.
  - split; [intros Hn; now destruct (Hn rc rm)|]. intros result.
    destruct (JSON_parse rc) as [e|result'] eqn:Ep.
    + subst r. split; [intros [? _]; discriminate|].
      intros (c & m & E1 & E2). injection E1 as <- <-. congruence.
    + destruct Hr as (Hs & Hd & _). split.
      * intros [_ Hd']. rewrite Hd in Hd'. injection Hd' as ->. eauto.
      * intros (c & m & E1 & E2). injection E1 as <- <-.
        rewrite Ep in E2. injection E2 as <-. auto.
  - subst r. split; [reflexivity|]. intros result.
    split; [intros [? _]; discriminate|]. intros (c & m & E1 & _).
    discriminate.
  - subst r. split; [reflexivity|]. intros result.
    split; [intros [? _]; discriminate|]. intros (c & m & E1 & _).
    discriminate.
Qed.
End ReadingCommands.

(* ===================================================================== *)
(** * commands.ts: seeding, then verifying *)
(* ===================================================================== *)

Section SeedThenVerify.
Context `{Runtime}.
Variable env : Env.
Import EdaCommands.

(** X11.  Verifying right after the baseline was seeded accepts: when
    the last result parses, its cells and levels are numbers, and the
    baseline record reads back as it was written, a successful
    [baselineSeed] leaves a state in which [verify] compares the result
    with itself and succeeds with exit code 0. *)
Theorem verify_after_seed_accepts ctx args options args' options' st
    content m result r1 st1 :
  fs st !! path_join (lastRunDir ctx) EDA_RESULT_FILE
    = Some (RegularFile content m) ->
  JSON_parse content = inr result ->
  JSON_parse (JSON_stringify (baseline_of result)) = inr (baseline_of result) ->
  is_nan (cells (metrics result)) = false ->
  is_nan (levels (metrics result)) = false ->
  baselineSeed env ctx args options st = (inr r1, st1) ->
  success r1 = true ->
  let v := performVerification (metrics result) (metrics result) in
  verify ctx args' options' st1 = (inr (verdict v), st1)
  /\ accepted v = true
  /\ res_exitCode (verdict v) = Some 0%float.
Proof.
  intros Er Ep Eround Hc Hl Eseed Hok v.
  assert (Hacc : accepted v = true).
  { unfold v, performVerification. cbn [accepted].
    now rewrite !leb_refl. }
  split; [|split; [exact Hacc|]];
    [|unfold verdict; cbn [res_exitCode]; now rewrite Hacc].
  rewrite baselineSeed_cases in Eseed. cbv zeta in Eseed.
  rewrite Er, Ep in Eseed.
  destruct (fs_writeFile env _ _ st) as [[[e|u]|[]] s] eqn:Ew;
    [injection Eseed as <- <-; discriminate | discriminate |].
  injection Eseed as _ <-.
  apply fs_writeFile_inr in Ew as [m1 ->].
  rewrite verify_cases. cbn [fs with_fs].
  rewrite lookup_insert_eq.
  rewrite lookup_insert_ne by apply baseline_path_not_result.
  now rewrite Er, Eround, Ep.
Qed.
End SeedThenVerify.

Lemma verify_after_seed_accepts_witness :
  exists r1 st1 v,
    EdaCommands.baselineSeed (H := sample_runtime) (sample_env unparseable)
      (EdaCli.createEdaContext (lit "/w")) [] no_options
      (fresh project_with_result) = (inr r1, st1)
    /\ EdaCommands.verify (H := sample_runtime)
         (EdaCli.createEdaContext (lit "/w")) [] no_options st1
       = (inr (verdict v), st1)
    /\ accepted v = true.
Proof.
  destruct (EdaCommands.baselineSeed (H := sample_runtime)
              (sample_env unparseable) (EdaCli.createEdaContext (lit "/w")) []
              no_options (fresh project_with_result)) as [[err|r1] st1] eqn:E.
  - exfalso. vm_compute in E. discriminate.
  - assert (Hs : success r1 = true).
    { vm_compute in E. injection E as <- _. reflexivity. }
    destruct (verify_after_seed_accepts (H := sample_runtime)
                (sample_env unparseable) (EdaCli.createEdaContext (lit "/w"))
                [] no_options [] no_options (fresh project_with_result)
                (lit "{result}") 0%float sample_result r1 st1)
      as (Hv & Ha & _);
      [vm_compute; reflexivity | reflexivity | reflexivity | reflexivity
      | reflexivity | exact E | exact Hs |].
    eexists r1, st1, _. split; [reflexivity|]. split; [exact Hv | exact Ha].
Defined.

(* ===================================================================== *)
(** * commands.ts: the recipe commands *)
(* ===================================================================== *)

Lemma regular_files_lookup st p c m :
  regular_files st !! p = Some (c, m) <-> fs st !! p = Some (RegularFile c m).
Proof.
  unfold regular_files. rewrite lookup_omap.
  destruct (fs st !! p) as [[c0 m0|]|]; cbn; split; intros E;
    try discriminate; now injection E as -> ->.
Qed.

Lemma regular_files_insert_ne st p q c m :
  p <> q ->
  regular_files (with_fs (<[q := RegularFile c m]> (fs st)) st) !! p
  = regular_files st !! p.
Proof.
  intros Hne. unfold regular_files. cbn [fs with_fs].
  now rewrite !lookup_omap, lookup_insert_ne.
Qed.

Lemma fileExists_run p st :
  EdaValidator.fileExists p st
  = (inr match fs st !! p with
         | Some (RegularFile _ _) => true
         | _ => false
         end, st).
Proof.
  unfold EdaValidator.fileExists, try_catch, bind, fs_stat, ret.
  now destruct (fs st !! p) as [[c m|]|].
Qed.

Lemma default_recipe_complete :
  includes DEFAULT_RECIPE_CONTENT (lit "rtl/") = true
  /\ includes DEFAULT_RECIPE_CONTENT (lit "read_verilog") = true
  /\ includes DEFAULT_RECIPE_CONTENT (lit "synth") = true
  /\ includes DEFAULT_RECIPE_CONTENT (lit "stat") = true.
Proof. vm_compute. auto. Qed.

Section RecipeCommands.
Context `{Runtime}.
Variable env : Env.
Import EdaCommands.

(** X12.  Without [--force] an existing sample recipe is never
    overwritten: the command fails, and every regular file is as it
    was. *)
Theorem recipeInit_keeps_existing ctx args options st out st' c m :
  fs st !! path_join (recipesDir ctx) DEFAULT_RECIPE_NAME
    = Some (RegularFile c m) ->
  opt_force options <> Some true ->
  recipeInit env ctx args options st = (out, st') ->
  regular_files st' = regular_files st
  /\ exists msg, out = inr (failure msg).
Proof.
  intros Ef Hforce E. unfold recipeInit, try_catch in E.
  destruct (EdaValidator.ensureDirectories env ctx st)
    as [[[e|u]|[]] s1] eqn:E1.
  - rewrite (bind_throw_eq _ _ _ _ _ E1) in E. injection E as <- <-.
    destruct (keeping_regular_mkdirAll env _ _ _ _ E1) as [K _]. eauto.
  - destruct (settles_ensureDirectories env ctx _ _ _ E1).
  - destruct (keeping_regular_mkdirAll env _ _ _ _ E1) as [K _].
    rewrite (bind_ret_eq _ _ _ _ _ E1) in E.
    rewrite (bind_ret_eq _ _ _ _ _ (fileExists_run _ s1)) in E.
    apply regular_files_lookup in Ef. rewrite <- K in Ef.
    apply regular_files_lookup in Ef. rewrite Ef in E.
    assert (Hf : default false (opt_force options) = false).
    { destruct (opt_force options) as [[|]|]; auto. now destruct Hforce. }
    rewrite Hf in E. injection E as <- <-. eauto.
Qed.

(** X13.  When [recipeInit] succeeds the sample recipe is on disk with
    the default content, the message names its path, no other regular
    file has changed, a recipe that was there before was overwritten on
    [--force] only, and the content check of the validator passes on
    it without a warning. *)
Theorem recipeInit_writes_sample ctx args options st r st' :
  recipeInit env ctx args options st = (inr r, st') ->
  success r = true ->
  let recipePath := path_join (recipesDir ctx) DEFAULT_RECIPE_NAME in
  (exists m, fs st' !! recipePath = Some (RegularFile DEFAULT_RECIPE_CONTENT m))
  /\ message r = lit "Created " ++ recipePath
  /\ (forall p, p <> recipePath ->
        regular_files st' !! p = regular_files st !! p)
  /\ ((exists c m, fs st !! recipePath = Some (RegularFile c m)) ->
      opt_force options = Some true)
  /\ EdaValidator.validateRecipeContent recipePath st'
     = (inr {| valid := true; errors := []; validation_warnings := [] |}, st').
Proof.
  intros E Hok recipePath. unfold recipeInit in E.
  apply try_catch_success in E; [|exact Hok].
  apply bind_inr in E as ([] & s1 & E1 & E).
  destruct (keeping_regular_mkdirAll env _ _ _ _ E1) as [K _].
  cbv zeta in E. fold recipePath in E.
  rewrite (bind_ret_eq _ _ _ _ _ (fileExists_run _ s1)) in E.
  destruct (match fs s1 !! recipePath with
            | Some (RegularFile _ _) => true
            | _ => false
            end && negb (default false (opt_force options))) eqn:Eguard.
  { injection E as <- <-. discriminate. }
  apply bind_inr in E as ([] & s2 & E2 & E). injection E as <- <-.
  apply fs_writeFile_inr in E2 as [m ->].
  split; [exists m; cbn [fs with_fs]; apply lookup_insert_eq|].
  split; [reflexivity|]. split; [|split].
  - intros p Hp. rewrite regular_files_insert_ne by exact Hp. now rewrite K.
  - intros (c0 & m0 & Ef). apply regular_files_lookup in Ef.
    rewrite <- K in Ef. apply regular_files_lookup in Ef.
    rewrite Ef in Eguard. cbn in Eguard.
    destruct (opt_force options) as [[|]|]; auto; discriminate.
  - unfold EdaValidator.validateRecipeContent, try_catch, bind, fs_readFile,
      ret. cbn [fs with_fs]. rewrite lookup_insert_eq. cbv beta iota zeta.
    destruct default_recipe_complete as (-> & -> & -> & ->). reflexivity.
Qed.
End RecipeCommands.

Lemma recipeInit_keeps_existing_witness :
  exists st',
    EdaCommands.recipeInit (sample_env unparseable)
      (EdaCli.createEdaContext (lit "/w")) [] no_options (fresh sample_project)
    = (inr (failure (lit "synth_resyn2.ys already exists. Use /eda:recipe:init --force to overwrite.")),
       st')
    /\ regular_files st' = regular_files (fresh sample_project).
Proof.
  eexists. split; [vm_compute; reflexivity|].
  eapply (recipeInit_keeps_existing (sample_env unparseable)
            (EdaCli.createEdaContext (lit "/w")) [] no_options
            (fresh sample_project) _ _ DEFAULT_RECIPE_CONTENT 0%float).
  - vm_compute. reflexivity.
  - discriminate.
  - vm_compute. reflexivity.
Defined.

Lemma recipeInit_writes_sample_witness :
  exists r st' m,
    EdaCommands.recipeInit (sample_env unparseable)
      (EdaCli.createEdaContext (lit "/w")) [] no_options
      (fresh (<[lit "/w/rtl" := Directory]> ∅)) = (inr r, st')
    /\ fs st' !! lit "/w/recipes/synth_resyn2.ys"
       = Some (RegularFile DEFAULT_RECIPE_CONTENT m).
Proof.
  destruct (EdaCommands.recipeInit (sample_env unparseable)
              (EdaCli.createEdaContext (lit "/w")) [] no_options
              (fresh (<[lit "/w/rtl" := Directory]> ∅)))
    as [[err|r] st'] eqn:E.
  - exfalso. vm_compute in E. discriminate.
  - assert (Hs : success r = true).
    { vm_compute in E. injection E as <- _. reflexivity. }
    destruct (recipeInit_writes_sample (sample_env unparseable)
                (EdaCli.createEdaContext (lit "/w")) [] no_options
                _ r st' E Hs) as ([m Hm] & _).
    exists r, st', m. split; [reflexivity | exact Hm].
Defined.

(* ===================================================================== *)
(** * Writing a file *)
(* ===================================================================== *)

Lemma extractOutputNetlist_run p st :
  EdaCommands.extractOutputNetlist p st
  = (inr match fs st !! p with
         | Some (RegularFile c _) => netlist_in c
         | _ => None
         end, st).
Proof.
  unfold EdaCommands.extractOutputNetlist, try_catch, bind, fs_readFile, ret.
  now destruct (fs st !! p) as [[c m|]|].
Qed.

(* ===================================================================== *)
(** * Which command writes which file *)
(* ===================================================================== *)

Lemma lineage_from_prefix after : forall before q,
  q ∈ lineage_from before after ->
  exists a b, after = a ++ b /\ q = before ++ a.
Proof.
  induction after as [|x t IH]; intros before q Hq; cbn [lineage_from] in Hq.
  - apply list_elem_of_singleton in Hq as ->. exists [], [].
    split; [reflexivity | symmetry; apply app_nil_r].
  - apply elem_of_app in Hq as [Hq|Hq].
    + destruct ((x =? 47)%N && negb (Nat.eqb (length before) 0));
        [|inversion Hq].
      apply list_elem_of_singleton in Hq as ->. exists [], (x :: t).
      split; [reflexivity | symmetry; apply app_nil_r].
    + apply IH in Hq as (a & b & -> & ->). exists (x :: a), b.
      now rewrite <- app_assoc.
Qed.

(** The directories on the way to a path are beginnings of it. *)
Lemma lineage_prefix d q : q ∈ lineage d -> exists r, d = q ++ r.
Proof.
  intros Hq. apply lineage_from_prefix in Hq as (a & b & -> & ->). eauto.
Qed.

Section FileFrame.
Variable env : Env.
Variable p : jsstring.

Lemma keeping_file_writeFile q c :
  q <> p -> keeping (file_at p) (fun _ => True) (fs_writeFile env q c).
Proof.
  intros Hne st out st' E. unfold fs_writeFile in E.
  destruct (fs st !! q) as [[c0 m0|]|]; destruct (write_error env q);
    injection E as <- <-; split; auto; unfold file_at; cbn [fs with_fs];
    now rewrite lookup_insert_ne.
Qed.

Lemma keeping_file_mkdir_each q dirs :
  Forall (fun d => d <> p) dirs ->
  keeping (file_at p) (fun _ => True) (mkdir_each env q dirs).
Proof.
  induction dirs as [|d dirs IH]; intros Hd; cbn [mkdir_each].
  - now apply keeping_ret.
  - apply Forall_cons in Hd as [Hd Hrest].
    apply keeping_bind; [|intros _; now apply IH].
    intros st out st' E. unfold mkdir_one in E.
    destruct (fs st !! d) as [[c0 m0|]|]; [| |destruct (mkdir_error env d)];
      injection E as <- <-; split; auto. unfold file_at. cbn [fs with_fs].
    now rewrite lookup_insert_ne.
Qed.

Lemma keeping_file_mkdirAll dirs :
  Forall (fun d => d <> p) (made dirs) ->
  keeping (file_at p) (fun _ => True) (EdaValidator.mkdirAll env dirs).
Proof.
  induction dirs as [|d dirs IH]; intros Hd; cbn [EdaValidator.mkdirAll].
  - now apply keeping_ret.
  - change (made (d :: dirs)) with (lineage d ++ made dirs) in Hd.
    apply Forall_app in Hd as [Hd Hrest].
    apply keeping_bind; [|intros _; now apply IH].
    apply keeping_try_catch; [|intros e; apply keeping_throw].
    now apply keeping_file_mkdir_each.
Qed.
End FileFrame.

(** A file of the project is none of the directories that making the
    working directories touches: its path is the beginning of none of
    theirs. *)
Ltac path_differs :=
  let E := fresh "E" in
  intros E; apply (f_equal (fun l => take 6 (rev l))) in E;
  rewrite !path_join_rev in E; cbn in E; discriminate.

Ltac not_on_the_way :=
  let q := fresh "q" in
  let Hq := fresh "Hq" in
  let r := fresh "r" in
  let E := fresh "E" in
  apply Forall_forall; intros q Hq ->;
  unfold made in Hq; cbn [fmap list_fmap concat] in Hq;
  rewrite !elem_of_app in Hq;
  repeat match type of Hq with
         | _ \/ _ => destruct Hq as [Hq|Hq]
         end;
  try (now inversion Hq);
  apply lineage_prefix in Hq as [r E];
  unfold path_join in E; repeat rewrite <- app_assoc in E;
  apply app_inv_head in E; vm_compute in E; discriminate E.

Section PathsApart.
Variable cwd : jsstring.
Let ctx := EdaCli.createEdaContext cwd.

Lemma baseline_path_apart :
  let baselinePath := path_join (edaDir ctx) EDA_BASELINE_FILE in
  Forall (fun d => d <> baselinePath) (made (working_directories ctx))
  /\ path_join (recipesDir ctx) DEFAULT_RECIPE_NAME <> baselinePath.
Proof.
  unfold ctx, working_directories. cbn [EdaCli.createEdaContext edaDir logsDir
    lastRunDir recipesDir buildDir].
  split; [not_on_the_way | path_differs].
Qed.

Lemma result_path_apart :
  let resultPath := path_join (lastRunDir ctx) EDA_RESULT_FILE in
  Forall (fun d => d <> resultPath) (made (working_directories ctx))
  /\ path_join (recipesDir ctx) DEFAULT_RECIPE_NAME <> resultPath
  /\ path_join (edaDir ctx) EDA_BASELINE_FILE <> resultPath.
Proof.
  unfold ctx, working_directories. cbn [EdaCli.createEdaContext edaDir logsDir
    lastRunDir recipesDir buildDir].
  split; [not_on_the_way | split; path_differs].
Qed.

Lemma log_path_apart :
  let logPath := path_join (logsDir ctx) EDA_LOG_FILE in
  Forall (fun d => d <> logPath) (made (working_directories ctx))
  /\ path_join (recipesDir ctx) DEFAULT_RECIPE_NAME <> logPath
  /\ path_join (edaDir ctx) EDA_BASELINE_FILE <> logPath.
Proof.
  unfold ctx, working_directories. cbn [EdaCli.createEdaContext edaDir logsDir
    lastRunDir recipesDir buildDir].
  split; [not_on_the_way | split; path_differs].
Qed.
End PathsApart.

Ltac frame_step :=
  first
    [ exact I
    | assumption
    | apply keeping_file_writeFile
    | apply keeping_file_mkdirAll
    | apply keeping_validateRecipeFile
    | apply keeping_validateDirectoryStructure
    | apply keeping_fileExists
    | apply keeping_listRecipes; exact _
    | apply keeping_recipeLines
    | apply keeping_extractOutputNetlist; exact _
    | apply keeping_modify; intros; reflexivity
    | keeping_step ].

Section CommandFrames.
Context `{Runtime}.
Variable env : Env.
Variable p : jsstring.
Import EdaCommands.

Lemma keeping_file_recipeInit ctx args options :
  Forall (fun d => d <> p) (made (working_directories ctx)) ->
  path_join (recipesDir ctx) DEFAULT_RECIPE_NAME <> p ->
  keeping (file_at p) (fun _ => True) (recipeInit env ctx args options).
Proof. intros Hd Hr. unfold recipeInit. cbv zeta. repeat frame_step. Qed.

(** [run] never gets to write. *)
Lemma keeping_file_run ctx args options :
  keeping (file_at p) (fun _ => True) (run env ctx args options).
Proof.
  intros st out st' E.
  destruct (run_outcomes env ctx args options st)
    as [[msg E1]|[_ E1]];
    rewrite E1 in E; injection E as <- <-; split; auto.
Qed.

Lemma keeping_file_baselineSeed ctx args options :
  path_join (edaDir ctx) EDA_BASELINE_FILE <> p ->
  keeping (file_at p) (fun _ => True) (baselineSeed env ctx args options).
Proof. intros Hb. unfold baselineSeed. cbv zeta. repeat frame_step. Qed.

Lemma keeping_file_readers ctx args options :
  keeping (file_at p) (fun _ => True) (help ctx args options)
  /\ keeping (file_at p) (fun _ => True) (recipeList env ctx args options)
  /\ keeping (file_at p) (fun _ => True) (verify ctx args options)
  /\ keeping (file_at p) (fun _ => True) (last ctx args options).
Proof.
  unfold help, recipeList, verify, last. cbv zeta.
  split; [|split; [|split]]; repeat frame_step.
Qed.
End CommandFrames.

Section OneWriter.
Context `{Runtime}.
Variable env : Env.
Import EdaCli.

(** X17.  In a project context the baseline file is changed by no
    command but [baseline seed], and the last result and the log are
    changed by no command at all: [run], the one command that would
    write them, never gets that far. *)
Theorem files_have_one_writer cwd command args options st out st' :
  let ctx := createEdaContext cwd in
  commandResult env ctx command args options st = (out, st') ->
  (string_eqb command (lit "baseline") = false ->
     fs st' !! path_join (edaDir ctx) EDA_BASELINE_FILE
     = fs st !! path_join (edaDir ctx) EDA_BASELINE_FILE)
  /\ fs st' !! path_join (lastRunDir ctx) EDA_RESULT_FILE
     = fs st !! path_join (lastRunDir ctx) EDA_RESULT_FILE
  /\ fs st' !! path_join (logsDir ctx) EDA_LOG_FILE
     = fs st !! path_join (logsDir ctx) EDA_LOG_FILE.
Proof.
  intros ctx E.
  destruct (baseline_path_apart cwd) as (Bd & Bs).
  destruct (result_path_apart cwd) as (Rd & Rs & Rb).
  destruct (log_path_apart cwd) as (Ld & Ls & Lb).
  fold ctx in Bd, Bs, Rd, Rs, Rb, Ld, Ls, Lb.
  assert (K : forall p,
    (string_eqb command (lit "baseline") = false ->
     p = path_join (edaDir ctx) EDA_BASELINE_FILE ->
     keeping (file_at p) (fun _ => True)
       (commandResult env ctx command args options))
    /\ (p = path_join (lastRunDir ctx) EDA_RESULT_FILE
        \/ p = path_join (logsDir ctx) EDA_LOG_FILE ->
        keeping (file_at p) (fun _ => True)
          (commandResult env ctx command args options))).
  { intros p. unfold commandResult.
    destruct (keeping_file_readers env p ctx args options)
      as (Kh & _ & Kv & Kl).
    destruct (keeping_file_readers env p ctx (tail args) options)
      as (_ & Kr & _ & _).
    pose proof (keeping_file_run env p ctx args options) as Krun.
    split.
    - intros Hc ->. rewrite Hc.
      repeat match goal with
             | |- keeping _ _ (if ?b then _ else _) => destruct b
             end;
        first [ assumption
              | now apply keeping_file_recipeInit
              | apply keeping_ret; exact I ].
    - intros Hp.
      repeat match goal with
             | |- keeping _ _ (if ?b then _ else _) => destruct b
             end;
        first [ assumption
              | destruct Hp as [-> | ->]; now apply keeping_file_recipeInit
              | destruct Hp as [-> | ->]; now apply keeping_file_baselineSeed
              | apply keeping_ret; exact I ]. }
  split; [|split].
  - intros Hc. now destruct (proj1 (K _) Hc eq_refl _ _ _ E).
  - now destruct (proj2 (K _) (or_introl eq_refl) _ _ _ E).
  - now destruct (proj2 (K _) (or_intror eq_refl) _ _ _ E).
Qed.
End OneWriter.

(** Making the sample recipe in a project that has a baseline and a
    last result leaves both as they are. *)
Lemma files_have_one_writer_witness :
  exists out st',
    EdaCli.commandResult (H := sample_runtime) (sample_env unparseable)
      (EdaCli.createEdaContext (lit "/w")) (lit "recipe") [lit "init"]
      no_options (fresh regressed_project)
    = (out, st')
    /\ fs st' !! lit "/w/.gemini_eda/baseline.json"
       = Some (RegularFile (lit "{baseline}") 0%float)
    /\ fs st' !! lit "/w/.gemini_eda/last_run/result.json"
       = Some (RegularFile (lit "{regressed}") 0%float).
Proof.
  pose (st := fresh regressed_project).
  pose (res := EdaCli.commandResult (H := sample_runtime)
                 (sample_env unparseable)
                 (EdaCli.createEdaContext (lit "/w")) (lit "recipe")
                 [lit "init"] no_options st).
  exists (fst res), (snd res). split; [apply surjective_pairing|].
  destruct (files_have_one_writer (H := sample_runtime)
              (sample_env unparseable)
              (lit "/w") (lit "recipe") [lit "init"] no_options st
              (fst res) (snd res))
    as (Hb & Hr & _).
  - apply surjective_pairing.
  - split.
    + etransitivity; [apply Hb; reflexivity|]. vm_compute. reflexivity.
    + etransitivity; [apply Hr|]. vm_compute. reflexivity.
Defined.

(* ===================================================================== *)
(** * eda-cli.ts: what [handleEdaCommand] reports *)
(* ===================================================================== *)

Lemma in_drop_while {A} (p : A -> bool) x (l : list A) :
  In x l -> p x = false -> In x (drop_while p l).
Proof.
  induction l as [|y l IH]; [auto|]. intros [->|Hin] Hx; cbn.
  - rewrite Hx. now left.
  - destruct (p y); [auto | now right].
Qed.

(** [trim] leaves something of a text that is not all white space. *)
Lemma trim_nonempty x s : In x s -> is_space x = false -> trim s <> [].
Proof.
  intros Hin Hx E. unfold trim in E.
  apply (in_drop_while is_space) in Hin; [|exact Hx].
  apply in_rev in Hin. apply (in_drop_while is_space) in Hin; [|exact Hx].
  apply in_rev in Hin. rewrite E in Hin. destruct Hin.
Qed.

Lemma join_nonempty sep x l : x <> [] -> join sep (x :: l) <> [].
Proof. destruct x; [easy|]. destruct l; discriminate. Qed.

Lemma app_nonempty_l (a b : jsstring) : a <> [] -> a ++ b <> [].
Proof. destruct a; [easy | discriminate]. Qed.

Lemma app_nonempty_r (a b : jsstring) : b <> [] -> a ++ b <> [].
Proof. destruct a, b; try easy; discriminate. Qed.

Section Messages.
Context {X : Type} (f : State -> X).
Import EdaValidator.

Lemma validateRecipeFile_message p :
  keeping f
    (fun r => valid r = false -> join [LF] (errors r) <> [])
    (validateRecipeFile p).
Proof.
  intros st out st' E.
  unfold validateRecipeFile, try_catch, bind, fs_stat, ret in E.
  destruct (fs st !! p) as [[c m|]|]; cbn [isFile negb] in E;
    injection E as <- <-; (split; [reflexivity|]);
    cbn [valid errors length Nat.eqb join]; intros Hv;
    first [ discriminate Hv | now apply app_nonempty_r | discriminate ].
Qed.

Lemma validateDirectoryStructure_message ctx :
  keeping f
    (fun r => valid r = false -> join [LF] (errors r) <> [])
    (validateDirectoryStructure ctx).
Proof.
  intros st out st' E.
  unfold validateDirectoryStructure, try_catch, bind, fs_stat, ret in E.
  destruct (fs st !! rtlDir ctx) as [[c1 m1|]|];
    destruct (fs st !! recipesDir ctx) as [[c2 m2|]|];
    destruct (fs st !! buildDir ctx) as [[c3 m3|]|];
    cbn [isDirectory negb fst snd app] in E;
    injection E as <- <-; (split; [reflexivity|]);
    cbn [valid errors length Nat.eqb]; intros Hv; try discriminate;
    apply join_nonempty; try (now apply app_nonempty_r); discriminate.
Qed.
End Messages.

Ltac nonempty_message :=
  cbn [message failure ok];
  first [ discriminate
        | apply app_nonempty_l; discriminate
        | apply app_nonempty_r; discriminate ].

Section ShownMessages.
Context `{Runtime}.
Variable env : Env.
Import EdaCommands.

Lemma help_message : trim helpText <> [].
Proof. vm_compute. discriminate. Qed.

Lemma keeping_ui_runYosys script seed :
  keeping ui (fun _ => True) (runYosys env script seed).
Proof.
  unfold runYosys. cbv zeta. apply keeping_bind.
  - now apply keeping_modify.
  - intros _. now apply keeping_ret.
Qed.

Ltac shown_step :=
  first
    [ apply keeping_validateRecipeFile
    | apply keeping_validateDirectoryStructure
    | apply keeping_fileExists
    | apply keeping_ensureDirectories; exact _
    | apply keeping_listRecipes; exact _
    | apply keeping_recipeLines
    | apply keeping_extractOutputNetlist; exact _
    | apply keeping_ui_runYosys
    | apply keeping_ret; first [exact I | nonempty_message]
    | keeping_step ].

Lemma shown_help ctx args options :
  keeping ui (fun r => message r <> []) (help ctx args options).
Proof. unfold help. apply keeping_ret. apply help_message. Qed.

Lemma shown_recipeInit ctx args options :
  keeping ui (fun r => message r <> []) (recipeInit env ctx args options).
Proof. unfold recipeInit. cbv zeta. repeat shown_step. Qed.

Lemma shown_recipeList ctx args options :
  keeping ui (fun r => message r <> []) (recipeList env ctx args options).
Proof. unfold recipeList. cbv zeta. repeat shown_step. Qed.

Lemma shown_baselineSeed ctx args options :
  keeping ui (fun r => message r <> []) (baselineSeed env ctx args options).
Proof. unfold baselineSeed. cbv zeta. repeat shown_step. Qed.

Lemma shown_verify ctx args options :
  keeping ui (fun r => message r <> []) (verify ctx args options).
Proof.
  unfold verify. cbv zeta. repeat shown_step.
  cbn [message performVerification v_message].
  eapply (trim_nonempty 99%N); [|reflexivity]. cbn. tauto.
Qed.

Lemma shown_last ctx args options :
  keeping ui (fun r => message r <> []) (last ctx args options).
Proof.
  unfold last. cbv zeta. repeat shown_step.
  cbn [message].
  eapply (trim_nonempty 76%N); [|reflexivity]. cbn. tauto.
Qed.

Lemma shown_run ctx args options :
  keeping ui (fun r => message r <> []) (run env ctx args options).
Proof.
  unfold run, getGitCommit. cbv zeta. apply keeping_try_catch.
  - eapply keeping_bind_post; [apply (validateRecipeFile_message ui)|].
    intros sv Hsv. cbv beta in Hsv. destruct (valid sv); cbn [negb];
      [|apply keeping_ret; cbn [message failure]; auto].
    eapply keeping_bind_post; [apply (validateDirectoryStructure_message ui)|].
    intros dv Hdv. cbv beta in Hdv. destruct (valid dv); cbn [negb];
      [|apply keeping_ret; cbn [message failure]; auto].
    repeat shown_step.
  - intros e. repeat shown_step.
Qed.

Lemma shown_commandResult ctx command args options :
  keeping ui (fun r => message r <> [])
    (EdaCli.commandResult env ctx command args options).
Proof.
  unfold EdaCli.commandResult.
  repeat match goal with
         | |- keeping _ _ (if ?b then _ else _) => destruct b
         end;
    first [ apply shown_help | apply shown_recipeInit
          | apply shown_recipeList | apply shown_run
          | apply shown_baselineSeed | apply shown_verify
          | apply shown_last
          | apply keeping_ret; nonempty_message ].
Qed.
End ShownMessages.

Section Reports.
Context `{Runtime}.
Variable env : Env.
Import EdaCli.

Lemma report_effect result st :
  sound_outcome result ->
  message result <> [] ->
  report result st
  = (inr tt,
     with_exitCode
       (if success result then process_exitCode st else Some 1%float)
       (with_ui ((if success result then UiInfo (message result)
                  else UiError (message result)) :: ui st) st)).
Proof.
  intros [[Hcode Hcodes] _] Hmsg. unfold report, bind, modify, ret.
  destruct (message result) as [|x msg] eqn:Em; [easy|]. cbn [length Nat.eqb negb].
  unfold outcome_code in Hcode.
  destruct (res_exitCode result) as [c|] eqn:Ec; cbn in Hcode;
    destruct (success result); subst; cbn [negb andb];
    try reflexivity;
    destruct Hcodes as [? | [? | ?]]; try discriminate.
Qed.

(** What [handleEdaCommand] does, whatever the line: the result of the
    command is shown and its failure recorded, or, for a [run] that is
    past its checks, nothing more happens. *)
Lemma handleEdaCommand_effect line st :
  let parsed := parseArgs line in
  (exists result st1,
     commandResult env (createEdaContext (process_cwd env))
       (pa_command parsed) (pa_args parsed) (pa_options parsed) st
     = (inr result, st1)
     /\ message result <> []
     /\ handleEdaCommand env line st
        = (inr tt,
           with_exitCode
             (if success result then process_exitCode st else Some 1%float)
             (with_ui ((if success result then UiInfo (message result)
                        else UiError (message result)) :: ui st) st1)))
  \/ (string_eqb (pa_command parsed) (lit "run") = true
      /\ checks_pass env (createEdaContext (process_cwd env))
           (pa_args parsed) st
      /\ handleEdaCommand env line st
         = (inl (Unsettled (spawn_error env)), probing st)).
Proof.
  intros parsed.
  destruct (commandResult_outcomes env (createEdaContext (process_cwd env))
              (pa_command parsed) (pa_args parsed) (pa_options parsed) st)
    as [(result & st1 & E)|(Hrun & Hc & E)].
  - left. exists result, st1. split; [exact E|].
    destruct (returning_commandResult env _ _ _ _ _ _ _ E) as [Kc Hsound].
    destruct (shown_commandResult env _ _ _ _ _ _ _ E) as [Ku Hmsg].
    split; [exact Hmsg|].
    unfold handleEdaCommand. fold parsed.
    rewrite (bind_ret_eq _ _ _ _ _ E), report_effect by assumption.
    now rewrite Kc, Ku.
  - right. split; [exact Hrun|]. split; [exact Hc|].
    unfold handleEdaCommand. fold parsed.
    now rewrite (bind_throw_eq _ _ _ _ _ E).
Qed.

(** X18.  Handling a command never clears a failure recorded before:
    a command that succeeds leaves [process.exitCode] as it was, and
    one that fails sets it to 1.  The one line that is not handled to
    the end, a [run] that is past its checks, leaves it as it was. *)
Theorem failure_status_is_kept line st :
  let parsed := parseArgs line in
  (exists result st1 st',
     commandResult env (createEdaContext (process_cwd env))
       (pa_command parsed) (pa_args parsed) (pa_options parsed) st
     = (inr result, st1)
     /\ handleEdaCommand env line st = (inr tt, st')
     /\ process_exitCode st'
        = (if success result then process_exitCode st else Some 1%float)
     /\ (process_exitCode st = Some 1%float ->
         process_exitCode st' = Some 1%float))
  \/ (exists u st',
        string_eqb (pa_command parsed) (lit "run") = true
        /\ checks_pass env (createEdaContext (process_cwd env))
             (pa_args parsed) st
        /\ handleEdaCommand env line st = (inl (Unsettled u), st')
        /\ process_exitCode st' = process_exitCode st).
Proof.
  intros parsed.
  destruct (handleEdaCommand_effect line st)
    as [(result & st1 & E & _ & Eh)|(Hrun & Hc & Eh)].
  - left. exists result, st1. eexists. split; [exact E|]. split; [exact Eh|].
    cbn [process_exitCode with_exitCode]. split; [reflexivity|].
    intros ->. now destruct (success result).
  - right. eexists _, _. split; [exact Hrun|]. split; [exact Hc|].
    split; [exact Eh | reflexivity].
Qed.

(** X19.  Every command line that is handled to the end shows exactly
    one item: the message of the result, which is never empty, as an
    information when the command succeeded and as an error when it
    failed.  The one line that is not handled to the end, a [run] that
    is past its checks, shows nothing. *)
Theorem every_command_shows_one_item line st :
  let parsed := parseArgs line in
  (exists result st1 st',
     commandResult env (createEdaContext (process_cwd env))
       (pa_command parsed) (pa_args parsed) (pa_options parsed) st
     = (inr result, st1)
     /\ handleEdaCommand env line st = (inr tt, st')
     /\ message result <> []
     /\ ui st' = (if success result then UiInfo (message result)
                  else UiError (message result)) :: ui st)
  \/ (exists u st',
        string_eqb (pa_command parsed) (lit "run") = true
        /\ checks_pass env (createEdaContext (process_cwd env))
             (pa_args parsed) st
        /\ handleEdaCommand env line st = (inl (Unsettled u), st')
        /\ ui st' = ui st).
Proof.
  intros parsed.
  destruct (handleEdaCommand_effect line st)
    as [(result & st1 & E & Hmsg & Eh)|(Hrun & Hc & Eh)].
  - left. exists result, st1. eexists. split; [exact E|]. split; [exact Eh|].
    split; [exact Hmsg | reflexivity].
  - right. eexists _, _. split; [exact Hrun|]. split; [exact Hc|].
    split; [exact Eh | reflexivity].
Qed.
End Reports.

(* ===================================================================== *)
(** * eda-cli.ts: the argument parser *)
(* ===================================================================== *)

Lemma string_eqb_eq a : forall b, string_eqb a b = true <-> a = b.
Proof.
  induction a as [|x a IH]; intros [|y b]; cbn [string_eqb];
    try (split; [discriminate | intros E; discriminate]); [easy|].
  rewrite andb_true_iff, N.eqb_eq, IH. split.
  - now intros [-> ->].
  - intros E. now injection E.
Qed.

Lemma split_spaces_word w : forall cur rest,
  Forall (fun x => is_space x = false) w ->
  split_spaces cur (w ++ rest) = split_spaces (cur ++ w) rest.
Proof.
  induction w as [|x w IH]; intros cur rest Hw.
  - now rewrite app_nil_r.
  - apply Forall_cons in Hw as [Hx Hw]. cbn [app split_spaces].
    rewrite Hx, IH by exact Hw. now rewrite <- app_assoc.
Qed.

Lemma join_cons_cons sep (w w2 : jsstring) (t : list jsstring) :
  join sep (w :: w2 :: t) = w ++ sep ++ join sep (w2 :: t).
Proof. reflexivity. Qed.

Lemma join_words_head ws :
  Forall word ws -> ws <> [] ->
  exists x t, join [32%N] ws = x :: t /\ is_space x = false.
Proof.
  intros Hws Hne. destruct ws as [|w ws]; [easy|].
  apply Forall_cons in Hws as [[Hw Hsp] _].
  destruct w as [|x w]; [easy|]. apply Forall_cons in Hsp as [Hx _].
  destruct ws; cbn; eauto.
Qed.

Lemma join_words_last ws :
  Forall word ws -> ws <> [] ->
  exists x t, rev (join [32%N] ws) = x :: t /\ is_space x = false.
Proof.
  induction ws as [|w ws IH]; intros Hws Hne; [easy|].
  apply Forall_cons in Hws as [[Hw Hsp] Hrest].
  destruct ws as [|w2 ws].
  - cbn [join]. destruct (rev w) as [|x t] eqn:Er.
    + apply (f_equal (@rev N)) in Er. rewrite rev_involutive in Er. easy.
    + exists x, t. split; [reflexivity|].
      rewrite Forall_forall in Hsp. apply Hsp.
      apply list_elem_of_In, in_rev. rewrite Er. now left.
  - rewrite join_cons_cons, !rev_app_distr.
    destruct IH as (x & t & -> & Hx); [exact Hrest | easy|].
    cbn. eauto.
Qed.

(** [trim] leaves a text alone that neither starts nor ends with
    white space. *)
Lemma trim_fixed s :
  match s with x :: _ => is_space x = false | [] => True end ->
  match rev s with x :: _ => is_space x = false | [] => True end ->
  trim s = s.
Proof.
  intros Hh Hl. unfold trim.
  assert (E1 : drop_while is_space s = s).
  { destruct s; [reflexivity|]. now apply drop_while_head. }
  rewrite E1.
  assert (E2 : drop_while is_space (rev s) = rev s).
  { destruct (rev s); [reflexivity|]. now apply drop_while_head. }
  rewrite E2. apply rev_involutive.
Qed.

Lemma split_spaces_sep cur x t :
  is_space x = false ->
  split_spaces cur (32%N :: x :: t) = cur :: split_spaces [] (x :: t).
Proof.
  intros Hx.
  change (split_spaces cur (32%N :: x :: t))
    with (if is_space 32
          then (if is_space x then split_spaces cur (x :: t)
                else cur :: split_spaces [] (x :: t))
          else split_spaces (cur ++ [32%N]) (x :: t)).
  now rewrite Hx.
Qed.

Lemma split_join_words ws : forall cur,
  Forall word ws -> ws <> [] ->
  split_spaces cur (join [32%N] ws) = (cur ++ hd [] ws) :: tail ws.
Proof.
  induction ws as [|w ws IH]; intros cur Hws Hne; [easy|].
  pose proof Hws as Hall. apply Forall_cons in Hws as [[Hw Hsp] Hrest].
  destruct ws as [|w2 ws].
  - cbn [join hd tail]. rewrite <- (app_nil_r w) at 1.
    now rewrite split_spaces_word.
  - rewrite join_cons_cons, split_spaces_word by exact Hsp.
    destruct (join_words_head (w2 :: ws)) as (x & t & Ej & Hx);
      [exact Hrest | easy|].
    cbn [app hd tail]. rewrite Ej, split_spaces_sep by exact Hx.
    rewrite <- Ej, IH by (exact Hrest || easy). reflexivity.
Qed.

Section ParserProperties.
Import EdaCli.

Lemma parseRemaining_plain ws : forall acc options,
  Forall (fun w => option_word w = false) ws ->
  parseRemaining ws acc options = (acc ++ ws, options).
Proof.
  induction ws as [|w ws IH]; intros acc options Hws.
  - now rewrite app_nil_r.
  - apply Forall_cons in Hws as [Hw Hws]. unfold option_word in Hw.
    apply orb_false_iff in Hw as [Hw H4]. apply orb_false_iff in Hw as [Hw H3].
    apply orb_false_iff in Hw as [H1 H2].
    cbn [parseRemaining]. rewrite H1, H2, H3, H4, IH by exact Hws.
    now rewrite <- app_assoc.
Qed.

Lemma parseRemaining_spec n : forall ws acc options,
  length ws <= n ->
  exists args options',
    parseRemaining ws acc options = (acc ++ args, options')
    /\ sublist args ws
    /\ Forall (fun a => a <> lit "--force" /\ a <> lit "--verbose"
                        /\ startsWith a (lit "--seed=") = false) args
    /\ (lit "--seed" ∈ args -> exists pre, ws = pre ++ [lit "--seed"])
    /\ (opt_force options' = opt_force options
        \/ opt_force options' = Some true /\ lit "--force" ∈ ws)
    /\ (opt_verbose options' = opt_verbose options
        \/ opt_verbose options' = Some true /\ lit "--verbose" ∈ ws)
    /\ (opt_seed options' = opt_seed options
        \/ exists w, w ∈ ws /\ option_word w = true
                     /\ w <> lit "--force" /\ w <> lit "--verbose").
Proof.
  induction n as [|n IH]; intros ws acc options Hlen.
  { destruct ws; [|cbn in Hlen; lia]. exists [], options.
    rewrite app_nil_r. repeat split; auto. intros Hin. inversion Hin. }
  destruct ws as [|arg rest].
  { exists [], options. rewrite app_nil_r. repeat split; auto.
    intros Hin. inversion Hin. }
  cbn [length] in Hlen. cbn [parseRemaining].
  destruct (string_eqb arg (lit "--force")) eqn:Ef.
  { apply string_eqb_eq in Ef as ->.
    destruct (IH rest acc {| opt_force := Some true;
                             opt_seed := opt_seed options;
                             opt_verbose := opt_verbose options |})
      as (args & o' & -> & Hsub & Hall & Hseed & Hf & Hv & Hs); [lia|].
    exists args, o'. split; [reflexivity|]. split; [now constructor|].
    split; [exact Hall|]. split.
    { intros Hin. destruct (Hseed Hin) as [pre ->]. now exists (lit "--force" :: pre). }
    cbn [opt_force opt_verbose opt_seed] in Hf, Hv, Hs. split; [|split].
    - right. split; [|apply list_elem_of_here]. now destruct Hf as [?|[? _]].
    - destruct Hv as [?|[? ?]]; [now left|right].
      split; [assumption | now apply list_elem_of_further].
    - destruct Hs as [?|(w & ? & ?)]; [now left|right].
      exists w. split; [now apply list_elem_of_further | assumption]. }
  destruct (string_eqb arg (lit "--verbose")) eqn:Ev.
  { apply string_eqb_eq in Ev as ->.
    destruct (IH rest acc {| opt_force := opt_force options;
                             opt_seed := opt_seed options;
                             opt_verbose := Some true |})
      as (args & o' & -> & Hsub & Hall & Hseed & Hf & Hv & Hs); [lia|].
    exists args, o'. split; [reflexivity|]. split; [now constructor|].
    split; [exact Hall|]. split.
    { intros Hin. destruct (Hseed Hin) as [pre ->]. now exists (lit "--verbose" :: pre). }
    cbn [opt_force opt_verbose opt_seed] in Hf, Hv, Hs. split; [|split].
    - destruct Hf as [?|[? ?]]; [now left|right].
      split; [assumption | now apply list_elem_of_further].
    - right. split; [|apply list_elem_of_here]. now destruct Hv as [?|[? _]].
    - destruct Hs as [?|(w & ? & ?)]; [now left|right].
      exists w. split; [now apply list_elem_of_further | assumption]. }
  assert (Hnf : arg <> lit "--force").
  { intros ->. discriminate. }
  assert (Hnv : arg <> lit "--verbose").
  { intros ->. discriminate. }
  destruct (string_eqb arg (lit "--seed")) eqn:Es.
  - apply string_eqb_eq in Es as ->. destruct rest as [|value rest'].
    + (* the last word: an argument *)
      change (startsWith (lit "--seed") (lit "--seed=")) with false.
      cbv iota. cbn [parseRemaining].
      exists [lit "--seed"], options. split; [reflexivity|].
      split; [apply sublist_skip; constructor|].
      split; [repeat constructor; discriminate|].
      split; [intros _; now exists []|]. auto.
    + destruct (IH rest' acc {| opt_force := opt_force options;
                                opt_seed := Some (parseInt10 value);
                                opt_verbose := opt_verbose options |})
        as (args & o' & -> & Hsub & Hall & Hseed & Hf & Hv & Hs);
        [cbn [length] in Hlen; lia|].
      exists args, o'. split; [reflexivity|].
      split; [now do 2 apply sublist_cons|].
      split; [exact Hall|]. split.
      { intros Hin. destruct (Hseed Hin) as [pre ->].
        now exists (lit "--seed" :: value :: pre). }
      cbn [opt_force opt_verbose opt_seed] in Hf, Hv, Hs. split; [|split].
      * destruct Hf as [?|[? ?]]; [now left|right].
        split; [assumption | now do 2 apply list_elem_of_further].
      * destruct Hv as [?|[? ?]]; [now left|right].
        split; [assumption | now do 2 apply list_elem_of_further].
      * right. exists (lit "--seed").
        split; [apply list_elem_of_here|]. repeat split; discriminate.
  - assert (Hns : arg <> lit "--seed").
    { intros ->. discriminate. }
    replace (match rest with
             | [] | _ => if startsWith arg (lit "--seed=") then _ else _
             end) with
      (if startsWith arg (lit "--seed=")
       then parseRemaining rest acc
              {| opt_force := opt_force options;
                 opt_seed := Some (parseInt10 (after_char 61 arg));
                 opt_verbose := opt_verbose options |}
       else parseRemaining rest (acc ++ [arg]) options)
      by now destruct rest.
    destruct (startsWith arg (lit "--seed=")) eqn:Ep.
    + destruct (IH rest acc {| opt_force := opt_force options;
                               opt_seed := Some (parseInt10 (after_char 61 arg));
                               opt_verbose := opt_verbose options |})
        as (args & o' & -> & Hsub & Hall & Hseed & Hf & Hv & Hs); [lia|].
      exists args, o'. split; [reflexivity|]. split; [now constructor|].
      split; [exact Hall|]. split.
      { intros Hin. destruct (Hseed Hin) as [pre ->]. now exists (arg :: pre). }
      cbn [opt_force opt_verbose opt_seed] in Hf, Hv, Hs. split; [|split].
      * destruct Hf as [?|[? ?]]; [now left|right].
        split; [assumption | now apply list_elem_of_further].
      * destruct Hv as [?|[? ?]]; [now left|right].
        split; [assumption | now apply list_elem_of_further].
      * right. exists arg. split; [apply list_elem_of_here|].
        unfold option_word. rewrite Ep, !orb_true_r. auto.
    + destruct (IH rest (acc ++ [arg]) options)
        as (args & o' & -> & Hsub & Hall & Hseed & Hf & Hv & Hs); [lia|].
      exists (arg :: args), o'. split; [now rewrite <- app_assoc|].
      split; [now apply sublist_skip|].
      split; [constructor; auto|]. split.
      { intros Hin. apply elem_of_cons in Hin as [Hin|Hin]; [now destruct Hns|].
        destruct (Hseed Hin) as [pre ->]. now exists (arg :: pre). }
      split; [|split].
      * destruct Hf as [?|[? ?]]; [now left|right].
        split; [assumption | now apply list_elem_of_further].
      * destruct Hv as [?|[? ?]]; [now left|right].
        split; [assumption | now apply list_elem_of_further].
      * destruct Hs as [?|(w & ? & ?)]; [now left|right].
        exists w. split; [now apply list_elem_of_further | assumption].
Qed.

(** X20.  A command line of words separated by single spaces, none of
    them an option, parses to its first word as the command and the
    other words, in order, as the arguments, with no option set. *)
Theorem plain_words_round_trip (command : jsstring) (words : list jsstring) :
  Forall word (command :: words) ->
  Forall (fun w => option_word w = false) words ->
  parseArgs (join [32%N] (command :: words))
  = {| pa_command := command; pa_args := words; pa_options := no_options |}.
Proof.
  intros Hw Hplain. unfold parseArgs.
  destruct (join_words_head (command :: words) Hw) as (x & t & Eh & Hx);
    [easy|].
  destruct (join_words_last (command :: words) Hw) as (y & u & El & Hy);
    [easy|].
  rewrite trim_fixed by (rewrite ?El, ?Eh; assumption).
  rewrite split_join_words by (exact Hw || easy).
  cbn [hd tail app]. now rewrite parseRemaining_plain.
Qed.
End ParserProperties.

Lemma plain_words_round_trip_witness :
  EdaCli.parseArgs (lit "run recipes/synth_resyn2.ys")
  = {| pa_command := lit "run"; pa_args := [lit "recipes/synth_resyn2.ys"];
       pa_options := no_options |}.
Proof.
  apply (plain_words_round_trip (lit "run") [lit "recipes/synth_resyn2.ys"]).
  - repeat constructor; try discriminate.
  - repeat constructor.
Defined.

Section ParsedArguments.
Import EdaCli.

(** X21.  Whatever the line, the arguments [parseArgs] returns are
    words of the line after the command, in their order; none of them
    is [--force], [--verbose] or starts with [--seed=], and [--seed]
    is among them only as the last word of the line, where no value
    follows it.  An option is set only if a word of the line asks for
    it. *)
Theorem options_are_not_arguments (line : jsstring) :
  let parsed := parseArgs line in
  let remaining := tail (split_spaces [] (trim line)) in
  sublist (pa_args parsed) remaining
  /\ Forall (fun a => a <> lit "--force" /\ a <> lit "--verbose"
                      /\ startsWith a (lit "--seed=") = false)
       (pa_args parsed)
  /\ (lit "--seed" ∈ pa_args parsed ->
      exists pre, remaining = pre ++ [lit "--seed"])
  /\ (opt_force (pa_options parsed) = None
      \/ opt_force (pa_options parsed) = Some true
         /\ lit "--force" ∈ remaining)
  /\ (opt_verbose (pa_options parsed) = None
      \/ opt_verbose (pa_options parsed) = Some true
         /\ lit "--verbose" ∈ remaining)
  /\ (opt_seed (pa_options parsed) = None
      \/ exists w, w ∈ remaining
                   /\ (w = lit "--seed"
                       \/ startsWith w (lit "--seed=") = true)).
Proof.
  intros parsed remaining. unfold parsed, parseArgs. fold remaining.
  destruct (parseRemaining_spec (length remaining) remaining [] no_options)
    as (args & o' & -> & Hsub & Hall & Hseed & Hf & Hv & Hs); [lia|].
  cbn [app pa_args pa_options]. repeat (split; [assumption|]).
  destruct Hs as [Hs|(w & Hin & Hw & Hnf & Hnv)]; [now left|right].
  exists w. split; [exact Hin|]. unfold option_word in Hw.
  apply orb_true_iff in Hw as [Hw|Hw]; [|now right].
  apply orb_true_iff in Hw as [Hw|Hw]; [|left; now apply string_eqb_eq].
  apply orb_true_iff in Hw as [Hw|Hw]; apply string_eqb_eq in Hw; easy.
Qed.
End ParsedArguments.

(* ===================================================================== *)
(** * eda-cli.ts: the slash command *)
(* ===================================================================== *)

Lemma trim_spaces ws : all_spaces ws -> trim ws = [].
Proof.
  intros Hws. unfold trim.
  destruct (take_while_all is_space ws [] Hws I) as [_ E].
  rewrite app_nil_r in E. now rewrite E.
Qed.

Lemma trim_idempotent s : trim (trim s) = trim s.
Proof.
  apply trim_fixed.
  - unfold trim.
    destruct (take_drop_while is_space s) as (_ & _ & Hu).
    destruct (take_drop_while is_space (rev (drop_while is_space s)))
      as (Ev & _ & _).
    apply (f_equal (@rev N)) in Ev.
    rewrite rev_involutive, rev_app_distr in Ev.
    destruct (rev (drop_while is_space (rev (drop_while is_space s))))
      as [|x t]; [exact I|].
    rewrite <- Ev in Hu. exact Hu.
  - unfold trim. rewrite rev_involutive.
    now destruct (take_drop_while is_space (rev (drop_while is_space s)))
      as (_ & _ & Hv).
Qed.

Section SlashCommand.
Context `{Runtime}.
Variable env : Env.
Import EdaCli.

Lemma handleEdaCommand_trim line st :
  handleEdaCommand env (trim line) st = handleEdaCommand env line st.
Proof. unfold handleEdaCommand, parseArgs. now rewrite trim_idempotent. Qed.

(** X22.  The action of [/eda] with blank arguments shows the help;
    with arguments it does what the sub-command of that name does with
    the rest of the line, for the two sub-commands that take
    arguments as for the others. *)
Theorem slash_actions_agree (args : jsstring) (st : State) :
  (all_spaces args ->
   slashAction env SlashEda args st = slashAction env SlashHelp args st)
  /\ slashAction env SlashEda (lit "run " ++ args) st
     = slashAction env SlashRun args st
  /\ slashAction env SlashEda (lit "recipe init " ++ args) st
     = slashAction env SlashRecipeInit args st
  /\ slashAction env SlashEda (lit "recipe list") st
     = slashAction env SlashRecipeList args st
  /\ slashAction env SlashEda (lit "baseline seed") st
     = slashAction env SlashBaselineSeed args st
  /\ slashAction env SlashEda (lit "verify") st
     = slashAction env SlashVerify args st
  /\ slashAction env SlashEda (lit "last") st
     = slashAction env SlashLast args st.
Proof.
  split; [|split; [|split]].
  - intros Hs. cbn [slashAction]. cbv zeta. now rewrite trim_spaces.
  - cbn [slashAction]. cbv zeta.
    destruct (trim (lit "run " ++ args)) as [|x t] eqn:E.
    + exfalso. revert E. apply (trim_nonempty 114%N); [now left | reflexivity].
    + cbn [length Nat.eqb]. rewrite <- E. apply handleEdaCommand_trim.
  - cbn [slashAction]. cbv zeta.
    destruct (trim (lit "recipe init " ++ args)) as [|x t] eqn:E.
    + exfalso. revert E. apply (trim_nonempty 114%N); [now left | reflexivity].
    + cbn [length Nat.eqb]. rewrite <- E. apply handleEdaCommand_trim.
  - repeat split.
Qed.
End SlashCommand.

Lemma slash_actions_agree_witness :
  EdaCli.slashAction (H := sample_runtime) (sample_env unparseable) EdaCli.SlashEda
    (lit "   ") (fresh sample_project)
  = EdaCli.slashAction (H := sample_runtime) (sample_env unparseable) EdaCli.SlashHelp
      (lit "   ") (fresh sample_project).
Proof.
  apply (slash_actions_agree (H := sample_runtime) (sample_env unparseable)
           (lit "   ") (fresh sample_project)).
  repeat constructor.
Defined.

(* ===================================================================== *)
(** * commands.ts: the netlist a script names *)
(* ===================================================================== *)

Lemma rmatch_group_sound icase {R} r (k : @cont R) s cap x :
  rmatch icase (RGroup r) k s cap = Some x ->
  exists m rest, s = m ++ rest /\ matches icase r m /\ k rest (Some m) = Some x.
Proof.
  cbn [rmatch]. intros E.
  apply rmatch_sound in E as (m & rest & c' & -> & Hm & Hk).
  rewrite take_length_diff in Hk. eauto.
Qed.

Lemma matches_RLit_exact l : forall m, matches false (RLit l) m -> m = l.
Proof.
  induction l as [|c l IH]; intros m Hm; cbn in Hm; [exact Hm|].
  destruct Hm as (m1 & m2 & -> & (x & -> & Hx) & Hm2).
  apply N.eqb_eq in Hx as ->. cbn. f_equal. now apply IH.
Qed.

Lemma rmatch_seq icase {R} r1 r2 (k : @cont R) s cap :
  rmatch icase (RSeq r1 r2) k s cap = rmatch icase r1 (rmatch icase r2 k) s cap.
Proof. reflexivity. Qed.

(** What a match of the netlist pattern at the head of a text looks
    like. *)
Lemma match_here_netlist t cap rest :
  match_here false EdaCommands.NETLIST_PATTERN t = Some (cap, rest) ->
  exists mid stem,
    t = lit "write_verilog" ++ mid ++ (stem ++ lit ".v") ++ rest
    /\ cap = Some (stem ++ lit ".v")
    /\ Forall (fun x => is_line_terminator x = false) mid
    /\ stem <> [] /\ Forall (fun x => is_space x = false) stem.
Proof.
  unfold match_here, EdaCommands.NETLIST_PATTERN. rewrite rmatch_seq.
  intros E.
  apply rmatch_sound in E as (m1 & rest1 & c1 & -> & Hm1 & E).
  apply matches_RLit_exact in Hm1 as ->.
  rewrite rmatch_seq in E.
  change (star_lazy false CAny
            (rmatch false
               (RGroup (RSeq (RPlus CNonSpace)
                          (RSeq (RChar (CLit 46)) (RChar (CLit 118)))))
               accept) rest1 c1 = Some (cap, rest)) in E.
  apply star_lazy_sound in E as (mid & rest2 & -> & Hmid & E).
  apply rmatch_group_sound in E as (m3 & rest3 & -> & Hm3 & E).
  injection E as <- <-.
  destruct Hm3 as (a & b & -> & Ha & Hb).
  destruct Ha as (a1 & a2 & -> & (x & -> & Hx) & Ha2).
  destruct Hb as (b1 & b2 & -> & (y & -> & Hy) & (z & -> & Hz)).
  cbn in Hy, Hz. apply N.eqb_eq in Hy as ->, Hz as ->.
  exists mid, ([x] ++ a2).
  split; [now rewrite <- ?app_assoc|]. split; [now rewrite <- ?app_assoc|].
  split.
  - eapply Forall_impl; [exact Hmid|]. cbn. intros c Hc.
    now apply negb_true_iff in Hc.
  - split; [discriminate|]. constructor.
    + cbn in Hx. now apply negb_true_iff in Hx.
    + eapply Forall_impl; [exact Ha2|]. cbn. intros c Hc.
      now apply negb_true_iff in Hc.
Qed.

Section Netlist.
Import EdaCommands.

(** X23.  [extractOutputNetlist] never throws and changes nothing.  A
    script that cannot be read names no netlist; one that can names one
    exactly when its text has a match of the pattern; and the netlist
    named is then a text ending in [.v], without white space, that
    comes after [write_verilog] on the same line. *)
Theorem netlist_is_a_v_path (scriptPath : jsstring) (st : State) :
  exists netlist,
    extractOutputNetlist scriptPath st = (inr netlist, st)
    /\ ((forall c m, fs st !! scriptPath <> Some (RegularFile c m)) ->
        netlist = None)
    /\ (forall content m,
          fs st !! scriptPath = Some (RegularFile content m) ->
          (netlist = None <-> ~ contains false NETLIST_PATTERN content)
          /\ forall path,
               netlist = Some path ->
               exists pre mid stem rest,
                 content = pre ++ lit "write_verilog" ++ mid ++ path ++ rest
                 /\ path = stem ++ lit ".v"
                 /\ Forall (fun x => is_line_terminator x = false) mid
                 /\ stem <> []
                 /\ Forall (fun x => is_space x = false) stem).
Proof.
  rewrite extractOutputNetlist_run. eexists. split; [reflexivity|].
  destruct (fs st !! scriptPath) as [[c0 m0|]|] eqn:Ef.
  - split; [intros Hn; now destruct (Hn c0 m0)|].
    intros content m E. injection E as <- <-. unfold netlist_in.
    destruct (regex_exec false NETLIST_PATTERN c0) as [[cap rest]|] eqn:Ex.
    + apply regex_exec_Some_inv in Ex as Hinv.
      destruct Hinv as (pre & t & -> & _ & Hm).
      apply match_here_netlist in Hm
        as (mid & stem & -> & -> & Hmid & Hne & Hstem).
      split.
      * split; [discriminate|]. intros Hc. exfalso. apply Hc.
        eapply regex_exec_contains. exact Ex.
      * intros path E. injection E as <-. exists pre, mid, stem, rest. auto.
    + split; [|discriminate]. split; [|reflexivity].
      intros _. now apply regex_exec_None.
  - split; [reflexivity|]. intros content m E. discriminate.
  - split; [reflexivity|]. intros content m E. discriminate.
Qed.
End Netlist.

(** The sample recipe names [build/top.synth.v]. *)
Lemma netlist_is_a_v_path_witness :
  exists stem,
    lit "build/top.synth.v" = stem ++ lit ".v"
    /\ stem <> [] /\ Forall (fun x => is_space x = false) stem.
Proof.
  destruct (netlist_is_a_v_path (lit "/w/recipes/synth_resyn2.ys")
              (fresh sample_project)) as (netlist & E & _ & Hfile).
  destruct (Hfile DEFAULT_RECIPE_CONTENT 0%float) as (_ & Hpath);
    [vm_compute; reflexivity|].
  rewrite extractOutputNetlist_run in E.
  assert (En : netlist = Some (lit "build/top.synth.v")).
  { injection E as <-. vm_compute. reflexivity. }
  destruct (Hpath _ En) as (pre & mid & stem & rest & _ & Es & _ & Hne & Hsp).
  exists stem. auto.
Defined.

(* ===================================================================== *)
(** * commands.ts: listing the recipes *)
(* ===================================================================== *)

Lemma listRecipes_total env ctx st :
  exists l st',
    EdaValidator.listRecipes env ctx st = (inr l, st')
    /\ fs st' = fs st
    /\ (forall e, readdir_result env (recipesDir ctx) = inl e -> l = []).
Proof.
  unfold EdaValidator.listRecipes, try_catch, bind at 1, fs_readdir.
  destruct (readdir_result env (recipesDir ctx)) as [error|files].
  - do 2 eexists. split; [reflexivity|]. cbn. split; reflexivity.
  - destruct (collectRecipes_spec ctx files st)
      as (l & st' & E & Hst' & _).
    unfold bind. rewrite E. exists (sort_recipes l), st'.
    split; [reflexivity|]. split; [now rewrite Hst' | discriminate].
Qed.

Section RecipeList.
Context `{Runtime}.
Variable env : Env.
Import EdaCommands.

Lemma recipeLines_run recipes : forall index st,
  recipeLines index recipes st
  = if forallb (fun r => valid_time (rc_lastModified r)) recipes
    then (inr (listed_lines index recipes), st)
    else (inl (Thrown (lit "RangeError: Invalid time value")), st).
Proof.
  induction recipes as [|r rest IH]; intros index st; [reflexivity|].
  cbn [recipeLines forallb listed_lines].
  unfold recipeLine, Date_toISOString, bind at 1 2.
  destruct (valid_time (rc_lastModified r)); cbn [andb]; [|reflexivity].
  unfold ret at 1 2. unfold bind. rewrite IH.
  now destruct (forallb _ rest).
Qed.

(** X24.  Listing the recipes never throws and leaves the files alone.
    With no recipe to list, as when the recipes directory cannot be
    read, it reports that none was found; with recipes whose times are
    all dates it lists them, each with its number, its name and the day
    of its time; and when one of the times is no date, rendering it
    throws and the command fails. *)
Theorem recipeList_outcomes ctx args options st :
  exists l st',
    EdaValidator.listRecipes env ctx st = (inr l, st')
    /\ fs st' = fs st
    /\ (forall e, readdir_result env (recipesDir ctx) = inl e -> l = [])
    /\ recipeList env ctx args options st
       = (inr match l with
              | [] => ok (lit "No recipe files found. Run /eda:recipe:init to create one.")
              | _ :: _ =>
                  if forallb (fun r => valid_time (rc_lastModified r)) l
                  then ok (lit "Available recipes:" ++ [LF]
                           ++ join [LF] (listed_lines 0 l))
                  else failure (lit "Error listing recipes: "
                                ++ lit "RangeError: Invalid time value")
              end, st').
Proof.
  destruct (listRecipes_total env ctx st) as (l & st' & E & Hfs & Hnone).
  exists l, st'. split; [exact E|]. split; [exact Hfs|].
  split; [exact Hnone|].
  unfold recipeList, try_catch. rewrite (bind_ret_eq _ _ _ _ _ E).
  destruct l as [|r l]; [reflexivity|].
  cbn [length Nat.eqb]. unfold bind. rewrite recipeLines_run.
  now destruct (forallb _ (r :: l)).
Qed.
End RecipeList.

(* ===================================================================== *)
(** * eda-cli.ts: the two spellings of the seed option *)
(* ===================================================================== *)

Section SeedOption.
Import EdaCli.

Lemma after_char_seed v :
  Forall (fun x => x <> 61%N) v -> after_char 61 (lit "--seed=" ++ v) = v.
Proof.
  intros Hv. unfold after_char, before_char.
  change (drop_while (fun x => negb (x =? 61)%N) (lit "--seed=" ++ v))
    with (61%N :: v).
  cbn [tail].
  destruct (take_while_all (fun x => negb (x =? 61)%N) v []) as [E _].
  - eapply Forall_impl; [exact Hv|]. cbn. intros x Hx.
    apply negb_true_iff. now apply N.eqb_neq.
  - exact I.
  - now rewrite app_nil_r in E.
Qed.

(** X25.  [--seed=N] and [--seed N] are the same option: for a value
    without an equals sign both set the seed to [parseInt] of the
    value, which for a run of digits is its number, and the parse goes
    on with the next word. *)
Theorem seed_spellings_agree (v : jsstring) (rest acc : list jsstring)
    (options : EdaCommandOptions) :
  Forall (fun x => x <> 61%N) v ->
  let seeded := {| opt_force := opt_force options;
                   opt_seed := Some (parseInt10 v);
                   opt_verbose := opt_verbose options |} in
  parseRemaining ((lit "--seed=" ++ v) :: rest) acc options
  = parseRemaining rest acc seeded
  /\ parseRemaining (lit "--seed" :: v :: rest) acc options
     = parseRemaining rest acc seeded
  /\ (all_digits v -> v <> [] -> parseInt10 v = Z2float (digits_value v)).
Proof.
  intros Hv seeded. split; [|split; [reflexivity | apply parseInt10_digits]].
  cbn [parseRemaining].
  change (string_eqb (lit "--seed=" ++ v) (lit "--force")) with false.
  change (string_eqb (lit "--seed=" ++ v) (lit "--verbose")) with false.
  change (string_eqb (lit "--seed=" ++ v) (lit "--seed")) with false.
  cbv iota.
  assert (Es : startsWith (lit "--seed=" ++ v) (lit "--seed=") = true)
    by (apply startsWith_spec; eauto).
  rewrite Es, after_char_seed by exact Hv. now destruct rest.
Qed.
End SeedOption.

Lemma seed_spellings_agree_witness :
  EdaCli.parseArgs (lit "run --seed=42") = EdaCli.parseArgs (lit "run --seed 42")
  /\ opt_seed (pa_options (EdaCli.parseArgs (lit "run --seed=42")))
     = Some 42%float.
Proof.
  destruct (seed_spellings_agree (lit "42") [] [] no_options)
    as (E1 & E2 & E3).
  - repeat constructor; discriminate.
  - split.
    + unfold EdaCli.parseArgs.
      change (tail (split_spaces [] (trim (lit "run --seed=42"))))
        with [lit "--seed=" ++ lit "42"].
      change (tail (split_spaces [] (trim (lit "run --seed 42"))))
        with [lit "--seed"; lit "42"].
      now rewrite E1, E2.
    + unfold EdaCli.parseArgs.
      change (tail (split_spaces [] (trim (lit "run --seed=42"))))
        with [lit "--seed=" ++ lit "42"].
      rewrite E1. cbn [EdaCli.parseRemaining pa_options opt_seed].
      rewrite E3; [reflexivity | repeat constructor | discriminate].
Defined.

(* ===================================================================== *)
(** * commands.ts: what [run] checks first *)
(* ===================================================================== *)

Section RunPrechecks.
Context `{Runtime}.
Variable env : Env.
Import EdaCommands.

(** X26.  The checks of [run] come in a fixed order, and a run that
    fails one of them has changed nothing, not even made a directory.
    A script that is not a regular file is reported first, as not
    found or as not a file; then the directory structure, with the
    errors of its validation.  Past the two checks [run] starts
    [yosys -V] to see whether the tool is installed, and never returns:
    nothing is reported, whether the tool is installed or not. *)
Theorem run_prechecks ctx args options st :
  let script := script_of env ctx args in
  ((forall c m, fs st !! script <> Some (RegularFile c m)) ->
   run env ctx args options st
   = (inr (failure
             match fs st !! script with
             | None => lit "Recipe file not found: " ++ script
             | Some _ => script ++ lit " exists but is not a file"
             end), st))
  /\ ((exists c m, fs st !! script = Some (RegularFile c m)) ->
      exists dv,
        EdaValidator.validateDirectoryStructure ctx st = (inr dv, st)
        /\ (valid dv = false ->
            run env ctx args options st
            = (inr (failure (join [LF] (errors dv))), st))
        /\ (valid dv = true ->
            run env ctx args options st
            = (inl (Unsettled
                      (if yosys_available env then None
                       else Some (lit "Error: spawn yosys ENOENT"))),
               with_spawned ([lit "-V"] :: spawned st) st))).
Proof.
  intros script. split.
  - intros Hn. unfold run. cbv zeta. fold (script_of env ctx args).
    fold script. unfold try_catch at 1, bind at 1.
    unfold EdaValidator.validateRecipeFile, try_catch, bind, fs_stat, ret.
    destruct (fs st !! script) as [[c m|]|]; [now destruct (Hn c m)| |];
      reflexivity.
  - intros (c & m & Es).
    destruct (validateDirectoryStructure_run ctx st) as (dv & Edv & Hdv).
    exists dv. split; [exact Edv|].
    assert (Erun : run env ctx args options st
                   = if negb (valid dv)
                     then (inr (failure (join [LF] (errors dv))), st)
                     else (inl (Unsettled (spawn_error env)), probing st)).
    { unfold run; cbv zeta; fold (script_of env ctx args); fold script;
        unfold try_catch at 1;
        destruct (validateRecipeFile_run script st) as (sv & Esv & Hsv);
        rewrite (bind_ret_eq _ _ _ _ _ Esv);
        rewrite (proj2 Hsv) by eauto; cbn [negb];
        rewrite (bind_ret_eq _ _ _ _ _ Edv).
      destruct (valid dv); cbn [negb]; [|reflexivity].
      now rewrite (bind_throw_eq _ _ _ _ _ (isYosysAvailable_run env st)). }
    split.
    + intros Hv. rewrite Erun, Hv. reflexivity.
    + intros Hv. rewrite Erun, Hv. reflexivity.
Qed.
End RunPrechecks.

(** On a machine without the tool, a run in the sample project starts
    the probe, whose failure nothing handles, and never returns. *)
Lemma run_prechecks_witness :
  EdaCommands.run (H := sample_runtime)
    {| process_cwd := lit "/w"; path_resolve := fun p => p;
       time_at := fun n => Z2float (Z.of_nat n);
       write_error := fun _ => None; mkdir_error := fun _ => None;
       readdir_result := fun _ => inr []; yosys_available := false;
       yosys_run := fun _ => unparseable;
       env_git_commit := None; env_hostname := lit "host";
       env_platform := lit "linux"; env_arch := lit "x64" |}
    (EdaCli.createEdaContext (lit "/w")) [] no_options (fresh sample_project)
  = (inl (Unsettled (Some (lit "Error: spawn yosys ENOENT"))),
     with_spawned [[lit "-V"]] (fresh sample_project)).
Proof.
  match goal with
  | |- EdaCommands.run ?env ?ctx ?args ?options ?st = _ =>
      destruct (proj2 (run_prechecks (H := sample_runtime) env ctx args
                         options st)) as (dv & Edv & _ & Hprobe)
  end.
  - exists DEFAULT_RECIPE_CONTENT, 0%float. vm_compute. reflexivity.
  - apply Hprobe.
    vm_compute in Edv. injection Edv as <-. reflexivity.
Defined.

(* ===================================================================== *)
(** * Verifying before a baseline was seeded *)
(* ===================================================================== *)

Section MissingBaseline.
Context `{Runtime}.
Variable env : Env.
Import EdaCli.

(** X27.  The line [verify], handled in a project that has no baseline
    file, shows the baseline message as an error, sets the exit code of
    the process to 1 and changes nothing else. *)
Theorem verify_without_baseline st :
  (forall c m,
     fs st !! path_join (edaDir (createEdaContext (process_cwd env)))
                EDA_BASELINE_FILE <> Some (RegularFile c m)) ->
  handleEdaCommand env (lit "verify") st
  = (inr tt,
     with_exitCode (Some 1%float) (with_ui (UiError NO_BASELINE :: ui st) st)).
Proof.
  intros Hn.
  destruct (handleEdaCommand_effect env (lit "verify") st)
    as [(result & st1 & E & _ & ->)|(Hrun & _)]; [|discriminate Hrun].
  change (parseArgs (lit "verify"))
    with {| pa_command := lit "verify"; pa_args := [];
            pa_options := no_options |} in E.
  cbn [pa_command pa_args pa_options] in E.
  change (commandResult env (createEdaContext (process_cwd env))
            (lit "verify") [] no_options)
    with (EdaCommands.verify (createEdaContext (process_cwd env)) []
            no_options) in E.
  rewrite verify_cases in E.
  destruct (fs st !! _) as [[c m|]|] eqn:Eb in E;
    [now destruct (Hn c m)| |]; injection E as <- <-; reflexivity.
Qed.
End MissingBaseline.

Lemma verify_without_baseline_witness :
  EdaCli.handleEdaCommand (H := sample_runtime) (sample_env unparseable)
    (lit "verify") (fresh sample_project)
  = (inr tt,
     with_exitCode (Some 1%float)
       (with_ui [UiError NO_BASELINE] (fresh sample_project))).
Proof.
  apply (verify_without_baseline (H := sample_runtime)
           (sample_env unparseable) (fresh sample_project)).
  intros c m. vm_compute. discriminate.
Defined.

(** In the sample project, which has its recipes directory, the other
    four directories are made, and so is the directory they are all in,
    which the project did not list; the recipe is left alone. *)
Lemma ensureDirectories_spec_witness :
  exists st',
    EdaValidator.ensureDirectories (sample_env unparseable)
      (EdaCli.createEdaContext (lit "/w")) (fresh sample_project)
    = (inr tt, st')
    /\ fs st' !! lit "/w/build" = Some Directory
    /\ fs st' !! lit "/w/.gemini_eda/last_run" = Some Directory
    /\ fs st' !! lit "/w" = Some Directory
    /\ regular_files st' = regular_files (fresh sample_project).
Proof.
  destruct (proj1 (ensureDirectories_spec (sample_env unparseable)
                     (EdaCli.createEdaContext (lit "/w"))
                     (fresh sample_project)))
    as (st' & E & Hall & _ & Hreg & _).
  - apply Forall_forall. intros d Hd. apply list_elem_of_In in Hd.
    vm_compute in Hd.
    repeat (destruct Hd as [<-|Hd]; [vm_compute; auto|]). destruct Hd.
  - exists st'. split; [exact E|]. rewrite Forall_forall in Hall.
    repeat split; try exact Hreg;
      apply Hall; apply list_elem_of_In; vm_compute; auto 20.
Defined.
